(** * MultiAIService (services/AIService.js): provider registry, failover
    loops, failure classification and JSON extraction.

    The service is embedded shallowly.  JavaScript values are an inductive
    type, a thrown exception is the [Throw] case of a result type, the
    service object ([this.providers], [this.lastError]) together with the
    pending [setTimeout] callbacks and the clock is an explicit state that
    every method takes and returns, and the remote completion call is an
    oracle from requests to outcomes.

    The server that uses the service (server.js) is embedded after it: the
    flat-file stores with their helpers, the JSON routes, and the one-off
    repair script (fix-summaries.js).  The files of the data directory are
    a map from paths to texts, and [Date.now()] and [uuidv4()] are arguments
    of the routes that call them.

    Conventions.
    - A string is a [string] of bytes; the character classes the code relies
      on ([\s], [trim], [toLowerCase]) are modelled on their ASCII members.
    - A number is the exact decimal [m * 10^e] its literal denotes; IEEE
      rounding is not modelled.
    - A plain object is the list of its own properties in the order
      [Object.entries] lists them, which is the order of insertion for keys
      that are not array indices (provider keys are names such as [groq]);
      members inherited from [Object.prototype] are not modelled.
    - [console.*] calls have no effect on the state and are left out. *)

From Stdlib Require Import String Ascii List ZArith Bool Lia.
From Stdlib Require Import Permutation Sorted DecimalString.
From Stdlib Require Import DecimalPos DecimalN.
Import ListNotations.
Open Scope string_scope.
Open Scope Z_scope.

Set Warnings "-register-all".

(* ================================================================== *)
(** ** JavaScript values *)

Inductive JSValue : Type :=
| JUndefined
| JNull
| JBool (b : bool)
| JNum (m e : Z)
| JStr (s : string)
| JArr (items : list JSValue)
| JObj (props : list (string * JSValue)).

(** A thrown [Error]: its [message], and the [status] and [code] fields the
    API client attaches to a failed request ([JUndefined] when absent). *)
Record JSError : Type := mkError {
  message : option string;
  status : JSValue;
  code : JSValue
}.

Inductive Result (A : Type) : Type :=
| Ok (a : A)
| Throw (e : JSError).
Arguments Ok {A} a.
Arguments Throw {A} e.

Definition bind {A B : Type} (r : Result A) (k : A -> Result B) : Result B :=
  match r with
  | Ok a => k a
  | Throw e => Throw e
  end.

Notation "x <- r ;; k" := (bind r (fun x => k))
  (at level 61, r at next level, right associativity).

(** [new Error(msg)] and the engine's [TypeError]s carry only a message. *)
Definition Error (msg : string) : JSError :=
  {| message := Some msg; status := JUndefined; code := JUndefined |}.

Definition TypeError (msg : string) : JSError := Error msg.

(* ------------------------------------------------------------------ *)
(** *** Strings *)

Definition charCode (c : ascii) : Z := Z.of_nat (nat_of_ascii c).

(** The ASCII members of the [\s] class and of [trim]'s white space. *)
Definition isWhiteSpace (c : ascii) : bool :=
  let n := charCode c in ((9 <=? n) && (n <=? 13)) || (n =? 32).

Definition lowerChar (c : ascii) : ascii :=
  let n := charCode c in
  if (65 <=? n) && (n <=? 90) then ascii_of_nat (Z.to_nat (n + 32)) else c.

Fixpoint toLowerCase (s : string) : string :=
  match s with
  | EmptyString => EmptyString
  | String c r => String (lowerChar c) (toLowerCase r)
  end.

Fixpoint startsWith (s p : string) : bool :=
  match p, s with
  | EmptyString, _ => true
  | String _ _, EmptyString => false
  | String a p', String b s' => Ascii.eqb a b && startsWith s' p'
  end.

Fixpoint includes (s needle : string) : bool :=
  startsWith s needle ||
  match s with
  | EmptyString => false
  | String _ r => includes r needle
  end.

Fixpoint drop (n : nat) (s : string) : string :=
  match n, s with
  | O, _ => s
  | S n', String _ r => drop n' r
  | S _, EmptyString => EmptyString
  end.

Fixpoint skipSpace (s : string) : string :=
  match s with
  | String c r => if isWhiteSpace c then skipSpace r else s
  | EmptyString => EmptyString
  end.

Fixpoint takeSpace (s : string) : string :=
  match s with
  | String c r => if isWhiteSpace c then String c (takeSpace r) else EmptyString
  | EmptyString => EmptyString
  end.

Definition isEmpty (s : string) : bool :=
  match s with
  | EmptyString => true
  | String _ _ => false
  end.

Fixpoint trimEnd (s : string) : string :=
  match s with
  | EmptyString => EmptyString
  | String c r =>
      let t := trimEnd r in
      if isWhiteSpace c && isEmpty t then EmptyString else String c t
  end.

Definition trim (s : string) : string := trimEnd (skipSpace s).

Fixpoint repeatChar (c : ascii) (n : nat) : string :=
  match n with
  | O => EmptyString
  | S n' => String c (repeatChar c n')
  end.

Fixpoint takeChars (n : nat) (s : string) : string :=
  match n, s with
  | O, _ => EmptyString
  | S n', String c r => String c (takeChars n' r)
  | S _, EmptyString => EmptyString
  end.

(* ------------------------------------------------------------------ *)
(** *** Conversions *)

Definition ToBoolean (v : JSValue) : bool :=
  match v with
  | JUndefined => false
  | JNull => false
  | JBool b => b
  | JNum m _ => negb (m =? 0)
  | JStr s => negb (isEmpty s)
  | JArr _ => true
  | JObj _ => true
  end.

(** [typeof v === "object"]; note that [typeof null] is ["object"] too. *)
Definition typeofObject (v : JSValue) : bool :=
  match v with
  | JNull => true
  | JArr _ => true
  | JObj _ => true
  | _ => false
  end.

Definition typeofString (v : JSValue) : bool :=
  match v with
  | JStr _ => true
  | _ => false
  end.

Definition digitsOf (n : Z) : string :=
  NilZero.string_of_uint (N.to_uint (Z.to_N n)).

Fixpoint stripZerosEnd (s : string) : string :=
  match s with
  | EmptyString => EmptyString
  | String c r =>
      let t := stripZerosEnd r in
      if Ascii.eqb c "0" && isEmpty t then EmptyString else String c t
  end.

(** [Number::toString] in radix 10, applied to the digits of the decimal
    [m * 10^e]: [k] significant digits [ds], decimal point after [n]. *)
Definition Number_toString (m e : Z) : string :=
  if m =? 0 then "0"
  else
    let all := digitsOf (Z.abs m) in
    let ds := stripZerosEnd all in
    let k := Z.of_nat (String.length ds) in
    let n := Z.of_nat (String.length all) + e in
    let sign := if m <? 0 then "-" else "" in
    let body :=
      if ((k <=? n) && (n <=? 21))%Z then
        ds ++ repeatChar "0" (Z.to_nat (n - k))
      else if ((0 <? n) && (n <=? 21))%Z then
        takeChars (Z.to_nat n) ds ++ "." ++ drop (Z.to_nat n) ds
      else if ((-6 <? n) && (n <=? 0))%Z then
        "0." ++ repeatChar "0" (Z.to_nat (- n)) ++ ds
      else
        takeChars 1 ds ++
        (if (k =? 1)%Z then "" else "." ++ drop 1 ds) ++
        "e" ++ (if (n - 1 <? 0)%Z then "-" else "+") ++ digitsOf (Z.abs (n - 1))
    in
    (sign ++ body)%string.

(** [ToString], as a template literal applies it: arrays join their
    elements with commas ([null] and [undefined] elements print empty),
    plain objects print as ["[object Object]"]. *)
Fixpoint ToString (v : JSValue) : string :=
  match v with
  | JUndefined => "undefined"
  | JNull => "null"
  | JBool true => "true"
  | JBool false => "false"
  | JNum m e => Number_toString m e
  | JStr s => s
  | JArr items =>
      (fix join (l : list JSValue) : string :=
         match l with
         | [] => ""
         | x :: rest =>
             let sx := match x with
                       | JUndefined => ""
                       | JNull => ""
                       | _ => ToString x
                       end in
             match rest with
             | [] => sx
             | _ :: _ => sx ++ "," ++ join rest
             end
         end) items
  | JObj _ => "[object Object]"
  end.

(** [a || b] *)
Definition js_or (a b : JSValue) : JSValue := if ToBoolean a then a else b.

(* ------------------------------------------------------------------ *)
(** *** Own properties of plain objects *)

Fixpoint lookup {A : Type} (k : string) (l : list (string * A)) : option A :=
  match l with
  | [] => None
  | (k', v) :: rest => if String.eqb k k' then Some v else lookup k rest
  end.

(** [o[k] = v]: overwrite in place, or append a new property. *)
Fixpoint assign {A : Type} (k : string) (v : A) (l : list (string * A))
  : list (string * A) :=
  match l with
  | [] => [(k, v)]
  | (k', v') :: rest =>
      if String.eqb k k' then (k', v) :: rest else (k', v') :: assign k v rest
  end.

(** [v.k] for the property names the service reads ([nextAction], [step],
    [timeline]): only a plain object can own one of them. *)
Definition getProp (v : JSValue) (k : string) : JSValue :=
  match v with
  | JObj props =>
      match lookup k props with
      | Some x => x
      | None => JUndefined
      end
  | _ => JUndefined
  end.

Definition setProp (v : JSValue) (k : string) (x : JSValue) : JSValue :=
  match v with
  | JObj props => JObj (assign k x props)
  | _ => v
  end.

(* ================================================================== *)
(** ** JSON.parse and JSON.stringify *)

Definition dquote : ascii := "034"%char.
Definition backslash : ascii := "092"%char.

Definition isJSONSpace (c : ascii) : bool :=
  let n := charCode c in (n =? 9) || (n =? 10) || (n =? 13) || (n =? 32).

Fixpoint skipJSONSpace (s : string) : string :=
  match s with
  | String c r => if isJSONSpace c then skipJSONSpace r else s
  | EmptyString => EmptyString
  end.

Definition isDigit (c : ascii) : bool :=
  let n := charCode c in (48 <=? n) && (n <=? 57).

Definition hexVal (c : ascii) : option Z :=
  let n := charCode c in
  if (48 <=? n) && (n <=? 57) then Some (n - 48)
  else if (65 <=? n) && (n <=? 70) then Some (n - 55)
  else if (97 <=? n) && (n <=? 102) then Some (n - 87)
  else None.

Definition byte (n : Z) : ascii := ascii_of_nat (Z.to_nat n).

(** The UTF-8 bytes of the code unit a [\uXXXX] escape denotes. *)
Definition utf8 (u : Z) : string :=
  if u <? 128 then String (byte u) EmptyString
  else if u <? 2048 then
    String (byte (192 + u / 64)) (String (byte (128 + u mod 64)) EmptyString)
  else
    String (byte (224 + u / 4096))
      (String (byte (128 + (u / 64) mod 64))
         (String (byte (128 + u mod 64)) EmptyString)).

(** Reads a run of digits, accumulating its value and counting its length. *)
Fixpoint readDigits (s : string) (acc count : Z) : Z * Z * string :=
  match s with
  | String c r =>
      if isDigit c then readDigits r (acc * 10 + (charCode c - 48)) (count + 1)
      else (acc, count, s)
  | EmptyString => (acc, count, s)
  end.

(** The characters of a string literal up to its closing quote. *)
Fixpoint parseChars (s : string) : option (string * string) :=
  match s with
  | EmptyString => None
  | String c r =>
      if Ascii.eqb c dquote then Some (EmptyString, r)
      else if Ascii.eqb c backslash then
        match r with
        | String x r1 =>
            let plain (ch : ascii) :=
              match parseChars r1 with
              | Some (t, rest) => Some (String ch t, rest)
              | None => None
              end in
            if Ascii.eqb x dquote then plain dquote
            else if Ascii.eqb x backslash then plain backslash
            else if Ascii.eqb x "/" then plain "/"%char
            else if Ascii.eqb x "b" then plain "008"%char
            else if Ascii.eqb x "f" then plain "012"%char
            else if Ascii.eqb x "n" then plain "010"%char
            else if Ascii.eqb x "r" then plain "013"%char
            else if Ascii.eqb x "t" then plain "009"%char
            else if Ascii.eqb x "u" then
              match r1 with
              | String h1 (String h2 (String h3 (String h4 r2))) =>
                  match hexVal h1, hexVal h2, hexVal h3, hexVal h4 with
                  | Some a, Some b, Some c', Some d =>
                      match parseChars r2 with
                      | Some (t, rest) =>
                          Some ((utf8 (((a * 16 + b) * 16 + c') * 16 + d) ++ t)%string,
                                rest)
                      | None => None
                      end
                  | _, _, _, _ => None
                  end
              | _ => None
              end
            else None
        | EmptyString => None
        end
      else if charCode c <? 32 then None
      else
        match parseChars r with
        | Some (t, rest) => Some (String c t, rest)
        | None => None
        end
  end.

(** A number literal: an optional minus sign, an integer part without a
    leading zero (or a single zero), an optional fraction and an optional
    exponent.  The result is the decimal [m * 10^e] the literal denotes. *)
Definition parseNumber (s : string) : option (JSValue * string) :=
  let '(neg, s1) :=
    match s with
    | String "-" r => (true, r)
    | _ => (false, s)
    end in
  let intPart :=
    match s1 with
    | String "0" r => Some (0, r)
    | String c _ =>
        if isDigit c then
          let '(v, _, r) := readDigits s1 0 0 in Some (v, r)
        else None
    | EmptyString => None
    end in
  match intPart with
  | None => None
  | Some (i, s2) =>
      let fracPart :=
        match s2 with
        | String "." r =>
            let '(v, k, r') := readDigits r i 0 in
            if 0 <? k then Some (v, k, r') else None
        | _ => Some (i, 0, s2)
        end in
      match fracPart with
      | None => None
      | Some (m, k, s3) =>
          let digitsExp (sgn : Z) (r : string) :=
            let '(v, n, r') := readDigits r 0 0 in
            if 0 <? n then Some (sgn * v, r') else None in
          let expPart :=
            match s3 with
            | String c r =>
                if Ascii.eqb c "e" || Ascii.eqb c "E" then
                  match r with
                  | String "+" r' => digitsExp 1 r'
                  | String "-" r' => digitsExp (-1) r'
                  | _ => digitsExp 1 r
                  end
                else Some (0, s3)
            | EmptyString => Some (0, s3)
            end in
          match expPart with
          | None => None
          | Some (x, s4) => Some (JNum (if neg then - m else m) (x - k), s4)
          end
      end
  end.

(** Recursive descent; every call spends one unit of [fuel], and a text of
    [n] characters needs fewer than [n + 2]. *)
Fixpoint parseValue (fuel : nat) (s : string) {struct fuel}
  : option (JSValue * string) :=
  match fuel with
  | O => None
  | S f =>
      match skipJSONSpace s with
      | String "{" r =>
          match skipJSONSpace r with
          | String "}" r' => Some (JObj [], r')
          | r1 => parseMembers f r1 []
          end
      | String "[" r =>
          match skipJSONSpace r with
          | String "]" r' => Some (JArr [], r')
          | r1 => parseElements f r1 []
          end
      | String c r as s1 =>
          if Ascii.eqb c dquote then
            match parseChars r with
            | Some (t, rest) => Some (JStr t, rest)
            | None => None
            end
          else if startsWith s1 "true" then Some (JBool true, drop 4 s1)
          else if startsWith s1 "false" then Some (JBool false, drop 5 s1)
          else if startsWith s1 "null" then Some (JNull, drop 4 s1)
          else parseNumber s1
      | EmptyString => None
      end
  end
with parseElements (fuel : nat) (s : string) (acc : list JSValue) {struct fuel}
  : option (JSValue * string) :=
  match fuel with
  | O => None
  | S f =>
      match parseValue f s with
      | Some (v, r) =>
          match skipJSONSpace r with
          | String "," r' => parseElements f r' (acc ++ [v])
          | String "]" r' => Some (JArr (acc ++ [v]), r')
          | _ => None
          end
      | None => None
      end
  end
with parseMembers (fuel : nat) (s : string) (acc : list (string * JSValue))
  {struct fuel} : option (JSValue * string) :=
  match fuel with
  | O => None
  | S f =>
      match skipJSONSpace s with
      | String c r =>
          if Ascii.eqb c dquote then
            match parseChars r with
            | Some (k, r1) =>
                match skipJSONSpace r1 with
                | String ":" r2 =>
                    match parseValue f r2 with
                    | Some (v, r3) =>
                        match skipJSONSpace r3 with
                        | String "," r' => parseMembers f r' (assign k v acc)
                        | String "}" r' => Some (JObj (assign k v acc), r')
                        | _ => None
                        end
                    | None => None
                    end
                | _ => None
                end
            | None => None
            end
          else None
      | EmptyString => None
      end
  end.

(** [JSON.parse(text)] for a string [text]: [None] is the [SyntaxError]. *)
Definition JSON_parse (text : string) : option JSValue :=
  match parseValue (String.length text + 2) text with
  | Some (v, rest) => if isEmpty (skipJSONSpace rest) then Some v else None
  | None => None
  end.

Definition hexDigit (n : Z) : ascii :=
  if n <? 10 then byte (48 + n) else byte (87 + n).

(** [QuoteJSONString]: the escapes [JSON.stringify] writes inside a string. *)
Fixpoint escapeJSON (s : string) : string :=
  match s with
  | EmptyString => EmptyString
  | String c r =>
      let n := charCode c in
      let rest := escapeJSON r in
      if Ascii.eqb c dquote then String backslash (String dquote rest)
      else if Ascii.eqb c backslash then String backslash (String backslash rest)
      else if n =? 8 then String backslash (String "b" rest)
      else if n =? 9 then String backslash (String "t" rest)
      else if n =? 10 then String backslash (String "n" rest)
      else if n =? 12 then String backslash (String "f" rest)
      else if n =? 13 then String backslash (String "r" rest)
      else if n <? 32 then
        String backslash (String "u" (String "0" (String "0"
          (String (hexDigit (n / 16)) (String (hexDigit (n mod 16)) rest)))))
      else String c rest
  end.

Definition quoteJSON (s : string) : string :=
  String dquote (escapeJSON s ++ String dquote EmptyString).

Fixpoint joinComma (l : list string) : string :=
  match l with
  | [] => ""
  | x :: rest =>
      match rest with
      | [] => x
      | _ :: _ => (x ++ "," ++ joinComma rest)%string
      end
  end.

(** [JSON.stringify(o)] for an object whose values are strings or
    [undefined]; a property whose value is [undefined] is left out. *)
Definition JSON_stringify (o : list (string * option string)) : string :=
  let member (p : string * option string) : list string :=
    match snd p with
    | Some v => [(quoteJSON (fst p) ++ ":" ++ quoteJSON v)%string]
    | None => []
    end in
  ("{" ++ joinComma (flat_map member o) ++ "}")%string.

(* ================================================================== *)
(** ** The regular expressions of [_extractJSON] *)

Fixpoint afterFirst (needle s : string) : option string :=
  if startsWith s needle then Some (drop (String.length needle) s)
  else
    match s with
    | EmptyString => None
    | String _ r => afterFirst needle r
    end.

(** The lazy group [([\s\S]*?)] followed by [\s*```]: the shortest prefix
    after which optional white space and a closing fence follow.  Returns
    the group and the white space before the fence. *)
Fixpoint lazyUntilFence (s : string) : option (string * string) :=
  if startsWith (skipSpace s) "```" then Some (EmptyString, takeSpace s)
  else
    match s with
    | EmptyString => None
    | String c r =>
        match lazyUntilFence r with
        | Some (g, w) => Some (String c g, w)
        | None => None
        end
    end.

(** [text.match(/```json\s*([\s\S]*?)\s*```/)]: the whole match and its
    group.  The leftmost opening fence decides: a closing fence after a later
    opening fence also closes the first one. *)
Definition matchJsonFence (text : string) : option (string * option string) :=
  match afterFirst "```json" text with
  | None => None
  | Some r =>
      match lazyUntilFence (skipSpace r) with
      | None => None
      | Some (g, w) =>
          Some (("```json" ++ takeSpace r ++ g ++ w ++ "```")%string, Some g)
      end
  end.

Fixpoint fromFirst (c : ascii) (s : string) : option string :=
  match s with
  | EmptyString => None
  | String x r => if Ascii.eqb x c then Some s else fromFirst c r
  end.

Fixpoint uptoLast (c : ascii) (s : string) : option string :=
  match s with
  | EmptyString => None
  | String x r =>
      match uptoLast c r with
      | Some t => Some (String x t)
      | None => if Ascii.eqb x c then Some (String x EmptyString) else None
      end
  end.

(** [text.match(/\{[\s\S]*\}/)]: greedy, from the first opening brace to the
    last closing brace after it; the expression has no group. *)
Definition matchBraces (text : string) : option (string * option string) :=
  match fromFirst "{" text with
  | None => None
  | Some s =>
      match uptoLast "}" s with
      | Some whole => Some (whole, None)
      | None => None
      end
  end.

Fixpoint allSpace (s : string) : bool :=
  match s with
  | EmptyString => true
  | String c r => isWhiteSpace c && allSpace r
  end.

(** The alternative [```\s*$]: removes the leftmost fence that only white
    space follows up to the end of the string. *)
Fixpoint stripFenceEnd (s : string) : string :=
  if startsWith s "```" && allSpace (drop 3 s) then EmptyString
  else
    match s with
    | EmptyString => EmptyString
    | String c r => String c (stripFenceEnd r)
    end.

(** [s.replace(/^```json\s*|```\s*$/g, "")] *)
Definition stripFences (s : string) : string :=
  if startsWith s "```json" then stripFenceEnd (skipSpace (drop 7 s))
  else stripFenceEnd s.

(* ================================================================== *)
(** ** [_extractJSON] *)

(** The [SyntaxError] of [JSON.parse]; its message is only ever logged. *)
Definition SyntaxError : JSError := Error "Unexpected token in JSON".

Definition parseJSON (text : string) : Result JSValue :=
  match JSON_parse text with
  | Some v => Ok v
  | None => Throw SyntaxError
  end.

(** The normalisation of [nextAction], written twice in the source (after
    each of the two [JSON.parse] calls).  Reading a property of [null]
    throws. *)
Definition normalizeNextAction (parsed : JSValue) : Result JSValue :=
  match parsed with
  | JNull =>
      Throw (TypeError "Cannot read properties of null (reading 'nextAction')")
  | JUndefined =>
      Throw (TypeError "Cannot read properties of undefined (reading 'nextAction')")
  | _ =>
      let nextAction := getProp parsed "nextAction" in
      if ToBoolean nextAction && typeofObject nextAction then
        let step := getProp nextAction "step" in
        let timeline := getProp nextAction "timeline" in
        Ok (setProp parsed "nextAction"
              (js_or
                 (js_or step
                    (JStr (ToString step ++ " (Timeline: " ++ ToString timeline ++ ")")))
                 (JStr "Seek legal counsel immediately")))
      else Ok parsed
  end.

Definition fallbackAnalysis : JSValue :=
  JObj
    [ ("situation", JStr "Unable to analyze situation automatically");
      ("relevantLaws", JArr [JStr "Please consult with a legal professional"]);
      ("recommendedSteps",
        JArr [ JStr "Contact PAO (Public Attorney's Office) at (02) 8426-2075";
               JStr "Visit your local barangay hall";
               JStr "Gather all relevant documents" ]);
      ("watchOutFor",
        JArr [ JStr "Ensure all claims are documented with evidence";
               JStr "Be aware of prescription periods for filing cases" ]);
      ("contacts",
        JObj [ ("pao", JStr "PAO: (02) 8426-2075");
               ("barangay", JStr "Local Barangay Hall");
               ("pnp", JStr "PNP Emergency: 911");
               ("dswd", JStr "DSWD Hotline: 1343") ]);
      ("nextAction", JStr "Seek immediate legal counsel from PAO") ].

(** [jsonMatch = text.match(fence) || text.match(braces)] *)
Definition findCandidate (text : string) : option (string * option string) :=
  match matchJsonFence text with
  | Some m => Some m
  | None => matchBraces text
  end.

(** [jsonMatch[1] || jsonMatch[0]] *)
Definition contentToParse (jsonMatch : string * option string) : string :=
  match snd jsonMatch with
  | Some g => if isEmpty g then fst jsonMatch else g
  | None => fst jsonMatch
  end.

Definition cleanText (jsonMatch : string * option string) : string :=
  trim (stripFences (contentToParse jsonMatch)).

(** The [catch] branch, for a string [text]. *)
Definition recoverJSON (text : string) : JSValue :=
  match findCandidate text with
  | Some jsonMatch =>
      match parsed <- parseJSON (cleanText jsonMatch) ;; normalizeNextAction parsed with
      | Ok v => v
      | Throw _ => fallbackAnalysis
      end
  | None => fallbackAnalysis
  end.

(** [_extractJSON(text)].  [JSON.parse] first converts its argument to a
    string; [text.match] exists only on strings, so the [catch] branch throws
    a [TypeError] for any other argument. *)
Definition _extractJSON (text : JSValue) : Result JSValue :=
  match parsed <- parseJSON (ToString text) ;; normalizeNextAction parsed with
  | Ok v => Ok v
  | Throw _ =>
      match text with
      | JStr t => Ok (recoverJSON t)
      | JNull => Throw (TypeError "Cannot read properties of null (reading 'match')")
      | JUndefined =>
          Throw (TypeError "Cannot read properties of undefined (reading 'match')")
      | _ => Throw (TypeError "text.match is not a function")
      end
  end.

(* ================================================================== *)
(** ** Failure classification *)

(** [v === k] for an integer literal [k]. *)
Definition strictEqualsInt (v : JSValue) (k : Z) : bool :=
  match v with
  | JNum m e => if 0 <=? e then m * 10 ^ e =? k else m =? k * 10 ^ (- e)
  | _ => false
  end.

Definition strictEqualsStr (v : JSValue) (k : string) : bool :=
  match v with
  | JStr s => String.eqb s k
  | _ => false
  end.

(** [error.message?.toLowerCase() || ""] *)
Definition errorMessageOf (error : JSError) : string :=
  match message error with
  | Some m => toLowerCase m
  | None => ""
  end.

(** [error.status || error.code || ""] *)
Definition errorCodeOf (error : JSError) : JSValue :=
  js_or (js_or (status error) (code error)) (JStr "").

Definition _isBalanceError (error : JSError) : bool :=
  let errorMessage := errorMessageOf error in
  let errorCode := errorCodeOf error in
  includes errorMessage "insufficient" ||
  includes errorMessage "quota" ||
  includes errorMessage "balance" ||
  strictEqualsInt errorCode 429 ||
  strictEqualsInt errorCode 402.

(* ================================================================== *)
(** ** The service object *)

(** One entry of [this.providers]; [client] tells whether the entry holds an
    API client or [null]. *)
Record ProviderConfig : Type := mkConfig {
  name : string;
  client : bool;
  enabled : bool;
  priority : Z;
  available : bool
}.

(** A pending [setTimeout] callback of [markProviderUnavailable]: the time
    it is due at and the provider key its closure holds. *)
Record Timer : Type := mkTimer {
  fireAt : Z;
  target : string
}.

(** [this.providers] and [this.lastError] in property order, the timer
    queue, and the clock in milliseconds. *)
Record Service : Type := mkService {
  providers : list (string * ProviderConfig);
  lastError : list (string * option string);
  timers : list Timer;
  now : Z
}.

Definition setAvailable (b : bool) (config : ProviderConfig) : ProviderConfig :=
  {| name := name config;
     client := client config;
     enabled := enabled config;
     priority := priority config;
     available := b |}.

Definition withProviders (ps : list (string * ProviderConfig)) (s : Service)
  : Service :=
  {| providers := ps; lastError := lastError s; timers := timers s; now := now s |}.

Definition withLastError (le : list (string * option string)) (s : Service)
  : Service :=
  {| providers := providers s; lastError := le; timers := timers s; now := now s |}.

Definition withTimers (ts : list Timer) (s : Service) : Service :=
  {| providers := providers s; lastError := lastError s; timers := ts; now := now s |}.

(** [Array.prototype.sort(compare)]: a stable sort; [x] goes before [y]
    when [compare x y <= 0]. *)
Fixpoint insertBy {A : Type} (compare : A -> A -> Z) (x : A) (l : list A)
  : list A :=
  match l with
  | [] => [x]
  | y :: rest =>
      if compare x y <=? 0 then x :: y :: rest
      else y :: insertBy compare x rest
  end.

Definition sortBy {A : Type} (compare : A -> A -> Z) (l : list A) : list A :=
  fold_right (insertBy compare) [] l.

Definition usable (entry : string * ProviderConfig) : bool :=
  enabled (snd entry) && available (snd entry).

Definition byPriority (a b : string * ProviderConfig) : Z :=
  priority (snd a) - priority (snd b).

(** Returns the keys together with the state it leaves behind. *)
Definition getAvailableProviders (s : Service) : list string * Service :=
  (map fst (sortBy byPriority (filter usable (providers s))), s).

(** The callback handed to [setTimeout]. *)
Definition reEnable (provider : string) (s : Service) : Service :=
  match lookup provider (providers s) with
  | Some config =>
      withProviders (assign provider (setAvailable true config) (providers s)) s
  | None => s
  end.

(** The default value of the parameter [duration]. *)
Definition orDefault (duration : option Z) : Z :=
  match duration with
  | Some d => d
  | None => 300000
  end.

(** [markProviderUnavailable(provider, duration = 300000)]; [None] is a call
    that leaves the duration out.  The timer is due [duration] ms from now. *)
Definition markProviderUnavailable (provider : string) (duration : option Z)
  (s : Service) : Service :=
  let duration := orDefault duration in
  match lookup provider (providers s) with
  | None => s
  | Some config =>
      withTimers
        (timers s ++ [{| fireAt := now s + duration; target := provider |}])
        (withProviders
           (assign provider (setAvailable false config) (providers s)) s)
  end.

(** Time passes up to [t]: the timers due by then run in the order of their
    due times (those set earlier first among equals) and leave the queue. *)
Definition isDue (t : Z) (tm : Timer) : bool := fireAt tm <=? t.

Definition byFireAt (a b : Timer) : Z := fireAt a - fireAt b.

Definition runTimers (fired : list Timer) (s : Service) : Service :=
  fold_left (fun acc tm => reEnable (target tm) acc) fired s.

Definition advance (t : Z) (s : Service) : Service :=
  let fired := sortBy byFireAt (filter (isDue t) (timers s)) in
  let s' := runTimers fired s in
  {| providers := providers s';
     lastError := lastError s';
     timers := filter (fun tm => negb (isDue t tm)) (timers s);
     now := Z.max (now s) t |}.

(* ================================================================== *)
(** ** Provider calls *)

(** What a request asks for; the prompt text and the model parameters are
    functions of it. *)
Inductive Request : Type :=
| SummaryRequest (fullTranscript category : string)
| AnalysisRequest (transcript category : string)
| ChatRequest (userMessage context : string).

(** The awaited [chat.completions.create] call: it resolves to a response
    whose first choice has the given [content], or rejects. *)
Inductive APIOutcome : Type :=
| Resolved (content : JSValue)
| Rejected (error : JSError).

Definition API : Type := Request -> APIOutcome.

(** [(await this.providers.groq.client.chat.completions.create(..))
      .choices[0].message.content] *)
Definition groqCompletion (api : API) (req : Request) (s : Service)
  : Result JSValue :=
  match lookup "groq" (providers s) with
  | None =>
      Throw (TypeError "Cannot read properties of undefined (reading 'client')")
  | Some config =>
      if client config then
        match api req with
        | Resolved content => Ok content
        | Rejected error => Throw error
        end
      else Throw (TypeError "Cannot read properties of null (reading 'chat')")
  end.

(** [this.providers[provider].name], read by the log line that opens every
    [try] block and every [catch] block. *)
Definition providerName (provider : string) (s : Service) : Result string :=
  match lookup provider (providers s) with
  | Some config => Ok (name config)
  | None =>
      Throw (TypeError "Cannot read properties of undefined (reading 'name')")
  end.

Definition _analyzeLegalWithProvider (api : API) (provider transcript category : string)
  (s : Service) : Result JSValue :=
  if String.eqb provider "groq" then
    content <- groqCompletion api (AnalysisRequest transcript category) s ;;
    _extractJSON content
  else Throw (Error ("Provider not configured: " ++ provider)).

Definition _generateResponseWithProvider (api : API)
  (provider userMessage context : string) (s : Service) : Result JSValue :=
  if String.eqb provider "groq" then
    groqCompletion api (ChatRequest userMessage context) s
  else Throw (Error ("Provider not configured: " ++ provider)).

(* ================================================================== *)
(** ** The failover loops *)

(** The [catch] block, the same in the three loops: after the log line,
    record the message, classify, mark unavailable.  The following
    [continue] is the recursive call of each loop. *)
Definition recordFailure (provider : string) (error : JSError) (s : Service)
  : Service :=
  let s1 := withLastError (assign provider (message error) (lastError s)) s in
  if _isBalanceError error then markProviderUnavailable provider (Some 3600000) s1
  else markProviderUnavailable provider (Some 60000) s1.

(** The cooldown the [catch] block asks for. *)
Definition cooldownOf (error : JSError) : Z :=
  if _isBalanceError error then 3600000 else 60000.

Definition catchBlock (provider : string) (error : JSError) (s : Service)
  : Result Service :=
  _ <- providerName provider s ;;
  Ok (recordFailure provider error s).

(** The [try] block of [generateFinalSummary]: [Ok None] when the provider
    is not ["groq"] and the block falls through to the next iteration. *)
Definition summaryAttempt (api : API) (fullTranscript category provider : string)
  (s : Service) : Result (option JSValue) :=
  _ <- providerName provider s ;;
  if String.eqb provider "groq" then
    text <- groqCompletion api (SummaryRequest fullTranscript category) s ;;
    match text with
    | JStr _ =>
        summary <- _extractJSON text ;;
        match summary with
        | JNull | JUndefined =>
            Throw (TypeError "Cannot convert undefined or null to object")
        | _ => Ok (Some summary)
        end
    | JNull =>
        Throw (TypeError "Cannot read properties of null (reading 'length')")
    | JUndefined =>
        Throw (TypeError "Cannot read properties of undefined (reading 'length')")
    | _ => Throw (TypeError "text.substring is not a function")
    end
  else Ok None.

Fixpoint summaryLoop (api : API) (fullTranscript category : string)
  (remaining : list string) (s : Service) : Result JSValue * Service :=
  match remaining with
  | [] =>
      (Throw (Error ("Failed to generate summary with all providers. Last errors: "
                       ++ JSON_stringify (lastError s))), s)
  | provider :: rest =>
      match summaryAttempt api fullTranscript category provider s with
      | Ok (Some summary) => (Ok summary, s)
      | Ok None => summaryLoop api fullTranscript category rest s
      | Throw error =>
          match catchBlock provider error s with
          | Ok s' => summaryLoop api fullTranscript category rest s'
          | Throw e => (Throw e, s)
          end
      end
  end.

Definition generateFinalSummary (api : API) (fullTranscript category : string)
  (s : Service) : Result JSValue * Service :=
  let (available, s0) := getAvailableProviders s in
  match available with
  | [] => (Throw (Error "No AI providers available for summarization"), s0)
  | _ :: _ => summaryLoop api fullTranscript category available s0
  end.

Definition analysisAttempt (api : API) (transcript category provider : string)
  (s : Service) : Result JSValue :=
  _ <- providerName provider s ;;
  _analyzeLegalWithProvider api provider transcript category s.

Fixpoint analysisLoop (api : API) (transcript category : string)
  (remaining : list string) (s : Service) : Result JSValue * Service :=
  match remaining with
  | [] => (Throw (Error "All AI providers failed"), s)
  | provider :: rest =>
      match analysisAttempt api transcript category provider s with
      | Ok result => (Ok result, s)
      | Throw error =>
          match catchBlock provider error s with
          | Ok s' => analysisLoop api transcript category rest s'
          | Throw e => (Throw e, s)
          end
      end
  end.

Definition analyzeLegalSituation (api : API) (transcript category : string)
  (s : Service) : Result JSValue * Service :=
  let (available, s0) := getAvailableProviders s in
  match available with
  | [] => (Throw (Error "No AI providers available"), s0)
  | _ :: _ => analysisLoop api transcript category available s0
  end.

(** The [try] block of [generateResponse], with its validation of the
    reply. *)
Definition responseAttempt (api : API) (userMessage context provider : string)
  (s : Service) : Result JSValue :=
  _ <- providerName provider s ;;
  result <- _generateResponseWithProvider api provider userMessage context s ;;
  if negb (ToBoolean result) || negb (typeofString result) then
    Throw (Error ("Invalid response from " ++ provider))
  else Ok result.

Definition noServiceReply : string :=
  "Pasensya na, walang available na AI service. Please check your API keys.".

Definition allFailedReply : string :=
  "Pasensya na, lahat ng AI providers ay hindi available sa ngayon.".

Fixpoint responseLoop (api : API) (userMessage context : string)
  (remaining : list string) (s : Service) : Result JSValue * Service :=
  match remaining with
  | [] => (Ok (JStr allFailedReply), s)
  | provider :: rest =>
      match responseAttempt api userMessage context provider s with
      | Ok result => (Ok result, s)
      | Throw error =>
          match catchBlock provider error s with
          | Ok s' => responseLoop api userMessage context rest s'
          | Throw e => (Throw e, s)
          end
      end
  end.

Definition generateResponse (api : API) (userMessage context : string)
  (s : Service) : Result JSValue * Service :=
  let (available, s0) := getAvailableProviders s in
  match available with
  | [] => (Ok (JStr noServiceReply), s0)
  | _ :: _ => responseLoop api userMessage context available s0
  end.

(** [new MultiAIService()]; the argument is [process.env.GROQ_API_KEY]. *)
Definition newService (GROQ_API_KEY : option string) : Service :=
  let configured := match GROQ_API_KEY with
                    | Some k => negb (isEmpty k)
                    | None => false
                    end in
  {| providers := [("groq", {| name := "Groq (Llama)";
                              client := configured;
                              enabled := configured;
                              priority := 1;
                              available := true |})];
     lastError := [];
     timers := [];
     now := 0 |}.

(* ================================================================== *)
(** ** Observations used in the statements *)

Definition isListed (provider : string) (s : Service) : Prop :=
  In provider (fst (getAvailableProviders s)).

(** The [available] flag of an entry, [None] when there is no such entry. *)
Definition availability (provider : string) (s : Service) : option bool :=
  option_map available (lookup provider (providers s)).

Definition registered (provider : string) (s : Service) : Prop :=
  lookup provider (providers s) <> None.

(** Object keys are unique. *)
Definition wellFormed (s : Service) : Prop := NoDup (map fst (providers s)).

Definition pendingFor (provider : string) (s : Service) : list Timer :=
  filter (fun tm => String.eqb (target tm) provider) (timers s).

(** Example texts are written with an apostrophe wherever the JSON text has
    a double quote. *)
Fixpoint jsonText (s : string) : string :=
  match s with
  | EmptyString => EmptyString
  | String c r => String (if Ascii.eqb c "'" then dquote else c) (jsonText r)
  end.

(** [s] occurs in [t]. *)
Definition occursIn (s t : string) : Prop :=
  exists pre post, t = (pre ++ s ++ post)%string.

(* ================================================================== *)
(** ** The other copy of the service in the repository

    The repository holds a second, Groq-only copy of the class.  Its failure
    classification and its fence pattern differ from the copy above. *)

Module GroqOnly.

Definition _isBalanceError (error : JSError) : bool :=
  let errorMessage := errorMessageOf error in
  let errorCode := errorCodeOf error in
  includes errorMessage "insufficient" ||
  includes errorMessage "quota" ||
  includes errorMessage "balance" ||
  includes errorMessage "billing" ||
  includes errorMessage "limit exceeded" ||
  strictEqualsInt errorCode 429 ||
  strictEqualsInt errorCode 402 ||
  strictEqualsStr errorCode "insufficient_quota".


End GroqOnly.

(* ================================================================== *)
(** ** Reading the extraction *)

(** [JSON.parse] followed by the normalisation, as both [try] blocks run
    them: [None] when either throws. *)
Definition parsesTo (text : string) : option JSValue :=
  match parsed <- parseJSON text ;; normalizeNextAction parsed with
  | Ok v => Some v
  | Throw _ => None
  end.

(** The interior of the first fenced block tagged [json]. *)
Definition jsonFenceInterior (text : string) : option string :=
  match matchJsonFence text with
  | Some (_, g) => g
  | None => None
  end.

(** The span from the first opening brace to the last closing brace. *)
Definition greedySpan (text : string) : option string :=
  option_map fst (matchBraces text).

(** The one text the [catch] branch parses. *)
Definition candidate (text : string) : option string :=
  match jsonFenceInterior text with
  | Some g => Some g
  | None => greedySpan text
  end.

Fixpoint lastChar (s : string) : option ascii :=
  match s with
  | EmptyString => None
  | String c r =>
      match lastChar r with
      | Some x => Some x
      | None => Some c
      end
  end.

Definition firstChar (s : string) : option ascii :=
  match s with
  | EmptyString => None
  | String c _ => Some c
  end.

(* ================================================================== *)
(** ** The extraction steps as the specification words them

    Four steps, the first successful parse wins: the full text, the interior
    of a fenced block (tagged [json] or not), the greedy span from the first
    opening brace to the last closing brace, the fixed literal. *)




(** The flattening of a structured [nextAction] as the specification words
    it. *)
Definition flattenNextAction_spec (nextAction : JSValue) : JSValue :=
  let step := getProp nextAction "step" in
  let timeline := getProp nextAction "timeline" in
  if ToBoolean step && ToBoolean timeline then
    JStr (ToString step ++ " (Timeline: " ++ ToString timeline ++ ")")
  else if ToBoolean step then step
  else JStr "Seek legal counsel immediately".

(** The same repair in the repository's fix-summaries script, which rewrites
    stored summaries: there the timeline is appended whenever there is one. *)
Definition fixSummaries_nextAction (nextAction : JSValue) : JSValue :=
  let step := js_or (getProp nextAction "step") (JStr "") in
  let timeline := js_or (getProp nextAction "timeline") (JStr "") in
  if ToBoolean timeline then
    JStr (ToString step ++ " (Timeline: " ++ ToString timeline ++ ")")
  else step.

(* ================================================================== *)
(** ** Scenarios *)

(** Oracles whose completion call always rejects, or always resolves. *)
Definition rejecting (error : JSError) : API := fun _ => Rejected error.
Definition resolving (content : JSValue) : API := fun _ => Resolved content.

(** A service whose Groq key is configured. *)
Definition configured : Service := newService (Some "gsk_key").



(* ================================================================== *)
(** ** The diagnostic snapshot and what never changes *)

(** [this.lastError[key] || null] *)
Definition lastErrorOf (key : string) (s : Service) : JSValue :=
  js_or
    match lookup key (lastError s) with
    | Some (Some m) => JStr m
    | Some None => JUndefined
    | None => JUndefined
    end
    JNull.

Definition statusRow (s : Service) (entry : string * ProviderConfig) : JSValue :=
  JObj [ ("provider", JStr (fst entry));
         ("name", JStr (name (snd entry)));
         ("enabled", JBool (enabled (snd entry)));
         ("available", JBool (available (snd entry)));
         ("priority", JNum (priority (snd entry)) 0);
         ("lastError", lastErrorOf (fst entry) s) ].

(** [getProviderStatus()], with the state it leaves behind. *)
Definition getProviderStatus (s : Service) : JSValue * Service :=
  (JArr (map (statusRow s) (providers s)), s).

(** The part of the registry that is set at construction: the keys in
    order, and of each entry everything but [available]. *)
Definition configuration (s : Service) : list (string * (string * bool * bool * Z)) :=
  map (fun e => (fst e, (name (snd e), client (snd e), enabled (snd e),
                         priority (snd e))))
      (providers s).

Fixpoint hasChar (c : ascii) (s : string) : bool :=
  match s with
  | EmptyString => false
  | String x r => Ascii.eqb x c || hasChar c r
  end.

(** A registry in which a provider other than [groq] is the only one
    enabled. *)
Definition geminiOnly : Service :=
  {| providers :=
       [ ("groq", {| name := "Groq (Llama)"; client := false; enabled := false;
                     priority := 1; available := true |});
         ("gemini", {| name := "Google Gemini"; client := true; enabled := true;
                       priority := 2; available := true |}) ];
     lastError := [("groq", Some "stale")];
     timers := [];
     now := 0 |}.

(** [null] or [undefined]. *)
Definition isNullish (v : JSValue) : bool :=
  match v with
  | JNull => true
  | JUndefined => true
  | _ => false
  end.


(* ================================================================== *)
(** ** The server: stored records (server.js)

    The files of the data directory are a map from paths to their text.
    Reading a file that is not there fails; writing always succeeds.  Each
    [await] is atomic.  [Date.now()] and [uuidv4()] are arguments of the
    routes that call them. *)

Definition Files : Type := list (string * string).

(** [DB_FILES[file]], relative to the directory of the server. *)
Definition DB_FILES (file : string) : option string :=
  if String.eqb file "sessions" then Some "data/sessions.json"
  else if String.eqb file "transcripts" then Some "data/transcripts.json"
  else if String.eqb file "summaries" then Some "data/summaries.json"
  else if String.eqb file "reports" then Some "data/reports.json"
  else None.

Definition readFile (path : string) (fs : Files) : option string :=
  lookup path fs.

Definition writeFile (path data : string) (fs : Files) : Files :=
  assign path data fs.

Definition newline : string := String "010" EmptyString.

Fixpoint joinWith (sep : string) (l : list string) : string :=
  match l with
  | [] => ""
  | x :: rest =>
      match rest with
      | [] => x
      | _ :: _ => (x ++ sep ++ joinWith sep rest)%string
      end
  end.

(** The text [JSON.stringify(v, null, 2)] writes for [v] below the
    indentation [indent], members in the order listed; [None] is the
    [undefined] it returns for [undefined].  An [undefined] element of
    an array is written [null], a property whose value is [undefined] is
    left out. *)
Fixpoint stringifyAt (indent : string) (v : JSValue) : option string :=
  match v with
  | JUndefined => None
  | JNull => Some "null"
  | JBool true => Some "true"
  | JBool false => Some "false"
  | JNum m e => Some (Number_toString m e)
  | JStr s => Some (quoteJSON s)
  | JArr items =>
      let inner := (indent ++ "  ")%string in
      let parts :=
        (fix each (l : list JSValue) : list string :=
           match l with
           | [] => []
           | x :: rest =>
               match stringifyAt inner x with
               | Some t => t
               | None => "null"
               end :: each rest
           end) items in
      Some match parts with
           | [] => "[]"
           | _ :: _ =>
               ("[" ++ newline ++ inner
                ++ joinWith ("," ++ newline ++ inner) parts
                ++ newline ++ indent ++ "]")%string
           end
  | JObj props =>
      let inner := (indent ++ "  ")%string in
      let parts :=
        (fix each (l : list (string * JSValue)) : list string :=
           match l with
           | [] => []
           | (k, x) :: rest =>
               match stringifyAt inner x with
               | Some t => (quoteJSON k ++ ": " ++ t)%string :: each rest
               | None => each rest
               end
           end) props in
      Some match parts with
           | [] => "{}"
           | _ :: _ =>
               ("{" ++ newline ++ inner
                ++ joinWith ("," ++ newline ++ inner) parts
                ++ newline ++ indent ++ "}")%string
           end
  end.


(** [a === b] for values that share no object: two objects, or two arrays,
    are never the same one. *)
Definition strictEquals (a b : JSValue) : bool :=
  match a, b with
  | JUndefined, JUndefined => true
  | JNull, JNull => true
  | JBool x, JBool y => Bool.eqb x y
  | JNum m1 e1, JNum m2 e2 =>
      m1 * 10 ^ (e1 - Z.min e1 e2) =? m2 * 10 ^ (e2 - Z.min e1 e2)
  | JStr x, JStr y => String.eqb x y
  | _, _ => false
  end.

Fixpoint allDigits (s : string) : bool :=
  match s with
  | EmptyString => true
  | String c r => isDigit c && allDigits r
  end.

(** The array index a property key denotes, if it is one: a canonical
    decimal below [2^32 - 1]. *)
Definition arrayIndex (k : string) : option Z :=
  match k with
  | EmptyString => None
  | String c r =>
      if allDigits k && (negb (Ascii.eqb c "0") || isEmpty r) then
        let '(v, _, _) := readDigits k 0 0 in
        if v <? 4294967295 then Some v else None
      else None
  end.

(** Where a new property goes: array indices come first, in ascending
    order, then the other keys in the order of their creation. *)
Fixpoint insertProp (k : string) (v : JSValue) (props : list (string * JSValue))
  : list (string * JSValue) :=
  match arrayIndex k, props with
  | _, [] => [(k, v)]
  | None, p :: rest => p :: insertProp k v rest
  | Some i, (k', v') :: rest =>
      match arrayIndex k' with
      | Some j => if j <? i then (k', v') :: insertProp k v rest
                  else (k, v) :: (k', v') :: rest
      | None => (k, v) :: (k', v') :: rest
      end
  end.

(** Defining a property in an object literal: an existing key keeps its
    place and takes the new value. *)
Definition defineProp (k : string) (v : JSValue) (props : list (string * JSValue))
  : list (string * JSValue) :=
  match lookup k props with
  | Some _ => assign k v props
  | None => insertProp k v props
  end.

Fixpoint indexed {A : Type} (f : A -> JSValue) (i : Z) (l : list A)
  : list (string * JSValue) :=
  match l with
  | [] => []
  | x :: rest => (digitsOf i, f x) :: indexed f (i + 1) rest
  end.

(** The own enumerable properties a spread [...v] copies. *)
Definition ownProps (v : JSValue) : list (string * JSValue) :=
  match v with
  | JObj props => props
  | JArr items => indexed (fun x => x) 0 items
  | JStr s => indexed (fun c => JStr (String c EmptyString)) 0 (list_ascii_of_string s)
  | _ => []
  end.

(** [{ ...props, ...more }] continued from the properties [props]. *)
Definition spreadInto (props more : list (string * JSValue))
  : list (string * JSValue) :=
  fold_left (fun acc p => defineProp (fst p) (snd p) acc) more props.

(** The members of every object in the order the engine enumerates them.
    [JSON_parse] and [assign] keep the members in the order of their
    creation; the engine lists the array indices first. *)
Fixpoint ordered (v : JSValue) : JSValue :=
  match v with
  | JArr items => JArr (map ordered items)
  | JObj props =>
      JObj ((fix each (l : list (string * JSValue)) (acc : list (string * JSValue))
               : list (string * JSValue) :=
               match l with
               | [] => acc
               | (k, x) :: rest => each rest (defineProp k (ordered x) acc)
               end) props [])
  | _ => v
  end.

(** [JSON.stringify(v, null, 2)] *)
Definition JSON_stringify2 (v : JSValue) : option string :=
  stringifyAt "" (ordered v).

Module JSONService.

(** [read(file)]: whatever fails, the answer is a fresh empty array. *)
Definition read (file : string) (fs : Files) : JSValue :=
  match DB_FILES file with
  | None => JArr []
  | Some path =>
      match readFile path fs with
      | None => JArr []
      | Some data =>
          match JSON_parse data with
          | Some v => v
          | None => JArr []
          end
      end
  end.

(** [fs.writeFile(DB_FILES[file], JSON.stringify(data, null, 2))]; without a
    path or without a text Node raises a [TypeError], whose message (cut
    short here) no caller reads. *)
Definition save (file : string) (data : JSValue) (fs : Files) : Result Files :=
  match DB_FILES file, JSON_stringify2 data with
  | Some path, Some text => Ok (writeFile path text fs)
  | _, _ =>
      Throw (TypeError "The argument must be of type string or an instance of Buffer")
  end.

(** The array a method is about to call [method] on. *)
Definition asArray (method : string) (data : JSValue) : Result (list JSValue) :=
  match data with
  | JArr items => Ok items
  | JNull =>
      Throw (TypeError ("Cannot read properties of null (reading '" ++ method ++ "')"))
  | JUndefined =>
      Throw (TypeError ("Cannot read properties of undefined (reading '" ++ method ++ "')"))
  | _ => Throw (TypeError ("data." ++ method ++ " is not a function"))
  end.

Definition append (file : string) (item : JSValue) (fs : Files)
  : Result JSValue * Files :=
  match asArray "push" (read file fs) with
  | Throw e => (Throw e, fs)
  | Ok items =>
      match save file (JArr (items ++ [item])) fs with
      | Ok fs' => (Ok item, fs')
      | Throw e => (Throw e, fs)
      end
  end.

(** [Array.prototype.findIndex], with a predicate that may throw. *)
Fixpoint findIndex (predicate : JSValue -> Result bool) (items : list JSValue)
  : Result (option nat) :=
  match items with
  | [] => Ok None
  | x :: rest =>
      hit <- predicate x ;;
      if hit then Ok (Some O)
      else found <- findIndex predicate rest ;;
           Ok (option_map S found)
  end.

Definition findOne (file : string) (predicate : JSValue -> Result bool) (fs : Files)
  : Result JSValue :=
  items <- asArray "find" (read file fs) ;;
  found <- findIndex predicate items ;;
  Ok match found with
     | Some i => nth i items JUndefined
     | None => JUndefined
     end.

Fixpoint replaceAt (i : nat) (x : JSValue) (items : list JSValue) : list JSValue :=
  match i, items with
  | O, _ :: rest => x :: rest
  | S i', y :: rest => y :: replaceAt i' x rest
  | _, [] => []
  end.

Definition update (file : string) (predicate : JSValue -> Result bool)
  (updates : JSValue) (fs : Files) : Result JSValue * Files :=
  match items <- asArray "findIndex" (read file fs) ;;
        found <- findIndex predicate items ;;
        Ok (items, found) with
  | Throw e => (Throw e, fs)
  | Ok (items, None) => (Ok JNull, fs)
  | Ok (items, Some i) =>
      let merged :=
        JObj (spreadInto (spreadInto [] (ownProps (nth i items JUndefined)))
                         (ownProps updates)) in
      match save file (JArr (replaceAt i merged items)) fs with
      | Ok fs' => (Ok merged, fs')
      | Throw e => (Throw e, fs)
      end
  end.

End JSONService.

(** [(s) => s.sessionId === id], the predicate of the session routes. *)
Definition hasSessionId (id : JSValue) (s : JSValue) : Result bool :=
  match s with
  | JNull =>
      Throw (TypeError "Cannot read properties of null (reading 'sessionId')")
  | JUndefined =>
      Throw (TypeError "Cannot read properties of undefined (reading 'sessionId')")
  | _ => Ok (strictEquals (getProp s "sessionId") id)
  end.

(* ================================================================== *)
(** ** The server: routes (server.js)

    A route is a function from the request body and the state it works on
    to the response it sends and the state it leaves.  [body] is the value
    handed to [res.json]. *)

Record Response : Type := mkResponse {
  statusCode : Z;
  body : JSValue
}.

(** [res.json(v)] and [res.status(500).json(v)] *)
Definition json (v : JSValue) : Response := {| statusCode := 200; body := v |}.
Definition json500 (v : JSValue) : Response := {| statusCode := 500; body := v |}.

Definition sorryReply : string :=
  "Sorry, I didn't receive your message properly. Please try again.".

Definition problemReply : string :=
  "Pasensya na, may problema sa AI. Maaari mo bang ulitin?".

(** [POST /api/ai/chat].  Whether the service settles before the 30 s timer
    of [Promise.race] is the environment's choice, [aiSettlesFirst]; the
    service call runs to its end either way, so the state returned is the
    one it leaves. *)
Definition chatRoute (api : API) (aiSettlesFirst : bool) (reqBody : JSValue)
  (s : Service) : Response * Service :=
  let problem := json (JObj [("response", JStr problemReply)]) in
  match reqBody with
  | JNull | JUndefined => (problem, s)
  | _ =>
      let message := getProp reqBody "message" in
      let context := getProp reqBody "context" in
      match context with
      | JUndefined | JNull | JStr _ =>
          if negb (ToBoolean message) || negb (typeofString message) then
            (json (JObj [("response", JStr sorryReply)]), s)
          else
            let (result, s') :=
              generateResponse api (ToString message)
                (ToString (js_or context (JStr ""))) s in
            match aiSettlesFirst, result with
            | true, Ok response => (json (JObj [("response", response)]), s')
            | _, _ => (problem, s')
            end
      | _ => (problem, s)
      end
  end.

(** [POST /api/ai/process] *)
Definition processRoute (api : API) (dateNow : Z) (reqBody : JSValue)
  (s : Service) (fs : Files) : Response * Service * Files :=
  let failed := json500 (JObj [("error", JStr "Processing failed")]) in
  match reqBody with
  | JNull | JUndefined => (failed, s, fs)
  | _ =>
      let sessionId := getProp reqBody "sessionId" in
      let fullTranscript := getProp reqBody "fullTranscript" in
      let category := getProp reqBody "category" in
      let (result, s') :=
        analyzeLegalSituation api (ToString fullTranscript) (ToString category) s in
      match result with
      | Throw _ => (failed, s', fs)
      | Ok analysis =>
          let summary :=
            JObj (spreadInto
                    (spreadInto [("sessionId", sessionId)] (ownProps analysis))
                    [("createdAt", JNum dateNow 0)]) in
          match JSONService.append "summaries" summary fs with
          | (Ok _, fs') => (json summary, s', fs')
          | (Throw _, fs') => (failed, s', fs')
          end
      end
  end.

(** [POST /api/session/start] *)
Definition sessionStartRoute (uuid : string) (dateNow : Z) (reqBody : JSValue)
  (fs : Files) : Response * Files :=
  let failed := json500 (JObj [("error", JStr "Failed to start session")]) in
  match reqBody with
  | JNull | JUndefined => (failed, fs)
  | _ =>
      let session :=
        JObj [ ("sessionId", JStr uuid);
               ("category", js_or (getProp reqBody "category") (JStr "GENERAL"));
               ("status", JStr "ACTIVE");
               ("startTime", JNum dateNow 0) ] in
      match JSONService.append "sessions" session fs with
      | (Ok _, fs') => (json session, fs')
      | (Throw _, fs') => (failed, fs')
      end
  end.

(** [(s) => s.sessionId === req.body.sessionId]: the body is read each time
    the predicate runs. *)
Definition matchesRequest (reqBody : JSValue) (s : JSValue) : Result bool :=
  match s with
  | JNull =>
      Throw (TypeError "Cannot read properties of null (reading 'sessionId')")
  | JUndefined =>
      Throw (TypeError "Cannot read properties of undefined (reading 'sessionId')")
  | _ =>
      match reqBody with
      | JNull =>
          Throw (TypeError "Cannot read properties of null (reading 'sessionId')")
      | JUndefined =>
          Throw (TypeError "Cannot read properties of undefined (reading 'sessionId')")
      | _ => Ok (strictEquals (getProp s "sessionId") (getProp reqBody "sessionId"))
      end
  end.

(** [POST /api/session/end].  The handler has no [try]: when the update
    throws, no response is sent ([None]). *)
Definition sessionEndRoute (dateNow : Z) (reqBody : JSValue) (fs : Files)
  : option Response * Files :=
  match JSONService.update "sessions" (matchesRequest reqBody)
          (JObj [("status", JStr "COMPLETED"); ("endTime", JNum dateNow 0)]) fs with
  | (Ok _, fs') => (Some (json (JObj [("success", JBool true)])), fs')
  | (Throw _, fs') => (None, fs')
  end.

(* ================================================================== *)
(** ** The repair script (fix-summaries.js) *)

Definition SUMMARIES_FILE : string := "data/summaries.json".

Definition addedWatchOutFor : JSValue :=
  JArr [ JStr "Document all interactions and keep copies of all documents";
         JStr "Be aware of deadlines and prescription periods";
         JStr "Seek legal advice if situation escalates" ].

(** One turn of the loop: the summary as the turn leaves it, and
    [needsUpdate].  Reading a property of [null] throws; an assignment to a
    property of a primitive does nothing, and one to a named property of an
    array does nothing that is written. *)
Definition fixSummary (summary : JSValue) : Result (JSValue * bool) :=
  match summary with
  | JNull =>
      Throw (TypeError "Cannot read properties of null (reading 'nextAction')")
  | JUndefined =>
      Throw (TypeError "Cannot read properties of undefined (reading 'nextAction')")
  | _ =>
      let nextAction := getProp summary "nextAction" in
      let fixAction := ToBoolean nextAction && typeofObject nextAction in
      let s1 := if fixAction
                then setProp summary "nextAction" (fixSummaries_nextAction nextAction)
                else summary in
      let addWatch := negb (ToBoolean (getProp s1 "watchOutFor")) in
      let s2 := if addWatch then setProp s1 "watchOutFor" addedWatchOutFor else s1 in
      Ok (s2, fixAction || addWatch)
  end.

(** The loop over the summaries: the summaries as it leaves them, and
    [fixed]. *)
Fixpoint fixEach (summaries : list JSValue) : Result (list JSValue * Z) :=
  match summaries with
  | [] => Ok ([], 0)
  | summary :: rest =>
      r <- fixSummary summary ;;
      more <- fixEach rest ;;
      Ok (fst r :: fst more, (if snd r then 1 else 0) + snd more)
  end.

(** [fixSummaries()]: whatever is thrown is caught and logged.  A file that
    holds a JSON string is iterated character by character, each of which
    counts as fixed; any other value that is not an array is not iterable. *)
Definition fixSummaries (fs : Files) : Files :=
  let write (summaries : JSValue) :=
    match JSON_stringify2 summaries with
    | Some text => writeFile SUMMARIES_FILE text fs
    | None => fs
    end in
  match readFile SUMMARIES_FILE fs with
  | None => fs
  | Some data =>
      match JSON_parse data with
      | Some (JArr summaries) =>
          match fixEach summaries with
          | Ok (fixedSummaries, fixed) =>
              if 0 <? fixed then write (JArr fixedSummaries) else fs
          | Throw _ => fs
          end
      | Some (JStr s) => if isEmpty s then fs else write (JStr s)
      | _ => fs
      end
  end.

(* ------------------------------------------------------------------ *)
(** ** Records that survive the file *)

Fixpoint distinct (keys : list string) : bool :=
  match keys with
  | [] => true
  | k :: rest => negb (existsb (String.eqb k) rest) && distinct rest
  end.

(** The values a store gives back as it was given them: no [undefined],
    which [JSON.stringify] drops or turns into [null]; numbers that are
    integers of at most 21 digits, which it writes digit by digit; objects
    whose names are distinct. *)
Fixpoint storable (v : JSValue) : bool :=
  match v with
  | JUndefined => false
  | JNull => true
  | JBool _ => true
  | JNum m e => (e =? 0) && Nat.leb (String.length (digitsOf (Z.abs m))) 21
  | JStr _ => true
  | JArr items => forallb storable items
  | JObj props =>
      distinct (map fst props) && forallb (fun p => storable (snd p)) props
  end.

(** What follows a value in the text [JSON.stringify] writes: nothing, a
    comma or a line break. *)
Definition delimited (rest : string) : bool :=
  match rest with
  | EmptyString => true
  | String c _ => Ascii.eqb c "," || Ascii.eqb c "010"
  end.

(* ------------------------------------------------------------------ *)
(** ** Scenarios of the server *)

(** A data directory with two sessions on file. *)
Definition twoSessions : Files :=
  [("data/sessions.json",
    jsonText "[{'sessionId':'a','status':'ACTIVE'},{'sessionId':'b','status':'ACTIVE'}]");
   ("data/summaries.json", "[]")].

(** A summaries file whose record has a structured [nextAction], and one
    where the [step] of that [nextAction] is itself an object. *)
Definition oldSummaries : Files :=
  [("data/summaries.json",
    jsonText "[{'sessionId':'a','nextAction':{'step':'Call PAO','timeline':'today'}}]")].

Definition oddSummaries : Files :=
  [("data/summaries.json",
    jsonText "[{'watchOutFor':[1],'nextAction':{'step':{'a':1}}}]")].

(* ================================================================== *)
(** * Properties *)

(** ** Strings *)

Lemma startsWith_app (p r : string) : startsWith (p ++ r) p = true.
Proof.
  induction p as [|a p IH]; simpl.
  - destruct r; reflexivity.
  - rewrite Ascii.eqb_refl. exact IH.
Qed.

Lemma startsWith_inv (s p : string) :
  startsWith s p = true -> exists r, s = (p ++ r)%string.
Proof.
  revert s. induction p as [|a p IH]; intros s H.
  - exists s. reflexivity.
  - destruct s as [|b s]; simpl in H; [discriminate|].
    apply andb_true_iff in H. destruct H as [Hab Hs].
    apply Ascii.eqb_eq in Hab. subst b.
    destruct (IH s Hs) as [r Hr]. exists r. simpl. now rewrite <- Hr.
Qed.

Lemma startsWith_nil (p : string) :
  startsWith EmptyString p = true -> p = EmptyString.
Proof. destruct p; simpl; [reflexivity | discriminate]. Qed.

Lemma includes_cons (c : ascii) (s needle : string) :
  includes (String c s) needle =
  startsWith (String c s) needle || includes s needle.
Proof. reflexivity. Qed.

(** [includes] decides the occurrence of a substring. *)
Lemma includes_occursIn (s needle : string) :
  includes s needle = true <-> occursIn needle s.
Proof.
  split.
  - induction s as [|c s IH]; intros H.
    + simpl in H. rewrite orb_false_r in H. apply startsWith_nil in H.
      subst needle. exists EmptyString, EmptyString. reflexivity.
    + rewrite includes_cons in H. apply orb_true_iff in H. destruct H as [H|H].
      * apply startsWith_inv in H. destruct H as [r Hr].
        exists EmptyString, r. exact Hr.
      * destruct (IH H) as [pre [post E]].
        exists (String c pre), post. simpl. now rewrite E.
  - intros [pre [post E]]. subst s.
    induction pre as [|c pre IH].
    + simpl append. destruct (needle ++ post)%string eqn:E.
      * destruct needle; simpl in *; [reflexivity | discriminate].
      * rewrite includes_cons, <- E, startsWith_app. reflexivity.
    + simpl append. rewrite includes_cons, IH. apply orb_true_r.
Qed.

(* ------------------------------------------------------------------ *)
(** ** Property lists *)

Section PropertyLists.

Context {A : Type}.
Implicit Types (l : list (string * A)) (k : string) (v : A).

Lemma lookup_assign_same k v l : lookup k (assign k v l) = Some v.
Proof.
  induction l as [|[k' v'] l IH]; simpl.
  - now rewrite String.eqb_refl.
  - destruct (String.eqb k k') eqn:E; simpl; rewrite E; [reflexivity | exact IH].
Qed.

Lemma lookup_assign_other k k' v l :
  k <> k' -> lookup k' (assign k v l) = lookup k' l.
Proof.
  intros Hne. induction l as [|[k0 v0] l IH]; simpl.
  - apply not_eq_sym in Hne. apply String.eqb_neq in Hne. now rewrite Hne.
  - destruct (String.eqb k k0) eqn:E; simpl.
    + apply String.eqb_eq in E. subst k0.
      apply not_eq_sym in Hne. apply String.eqb_neq in Hne. now rewrite Hne.
    + now rewrite IH.
Qed.

Lemma keys_assign k v l :
  lookup k l <> None -> map fst (assign k v l) = map fst l.
Proof.
  induction l as [|[k' v'] l IH]; simpl; intros H.
  - contradiction.
  - destruct (String.eqb k k') eqn:E; simpl; [reflexivity|].
    now rewrite IH.
Qed.

Lemma lookup_In k v l : lookup k l = Some v -> In (k, v) l.
Proof.
  induction l as [|[k' v'] l IH]; simpl; intros H; [discriminate|].
  destruct (String.eqb k k') eqn:E.
  - apply String.eqb_eq in E. injection H as ->. left. now subst.
  - right. now apply IH.
Qed.

Lemma In_lookup k v l :
  NoDup (map fst l) -> In (k, v) l -> lookup k l = Some v.
Proof.
  induction l as [|[k' v'] l IH]; simpl; intros Hnd Hin; [contradiction|].
  inversion Hnd as [|? ? Hnotin Hnd']; subst.
  destruct Hin as [E|Hin].
  - injection E as -> ->. now rewrite String.eqb_refl.
  - destruct (String.eqb k k') eqn:E.
    + apply String.eqb_eq in E. subst k'. exfalso. apply Hnotin.
      change k with (fst (k, v)). now apply in_map.
    + now apply IH.
Qed.

Lemma lookup_None_notin k l :
  lookup k l = None -> forall v, ~ In (k, v) l.
Proof.
  induction l as [|[k' v'] l IH]; simpl; intros H v Hin; [exact Hin|].
  destruct (String.eqb k k') eqn:E; [discriminate|].
  destruct Hin as [E'|Hin].
  - injection E' as -> _. now rewrite String.eqb_refl in E.
  - exact (IH H v Hin).
Qed.

End PropertyLists.

(* ------------------------------------------------------------------ *)
(** ** The stable sort *)

Section StableSort.

Context {A : Type} (key : A -> Z).

Local Abbreviation compare := (fun a b : A => key a - key b).
Local Abbreviation ordered := (fun a b : A => key a <= key b).

Lemma insertBy_perm x l : Permutation (insertBy compare x l) (x :: l).
Proof.
  induction l as [|y l IH]; simpl.
  - apply Permutation_refl.
  - destruct (compare x y <=? 0).
    + apply Permutation_refl.
    + eapply Permutation_trans; [apply perm_skip, IH | apply perm_swap].
Qed.

Lemma sortBy_perm l : Permutation (sortBy compare l) l.
Proof.
  induction l as [|x l IH]; simpl.
  - apply Permutation_refl.
  - eapply Permutation_trans; [apply insertBy_perm | now apply perm_skip].
Qed.

Lemma insertBy_sorted x l :
  StronglySorted ordered l -> StronglySorted ordered (insertBy compare x l).
Proof.
  induction 1 as [|y l Hs IH Hall]; simpl.
  - repeat constructor.
  - destruct (compare x y <=? 0) eqn:E.
    + apply Z.leb_le in E. cbv beta in E.
      constructor; [now constructor|].
      constructor; [cbv beta; lia|].
      eapply Forall_impl; [|exact Hall]. cbv beta. intros; lia.
    + apply Z.leb_gt in E. cbv beta in E.
      constructor; [exact IH|].
      eapply Permutation_Forall; [apply Permutation_sym, insertBy_perm|].
      constructor; [cbv beta; lia | exact Hall].
Qed.

Lemma sortBy_sorted l : StronglySorted ordered (sortBy compare l).
Proof.
  induction l as [|x l IH]; simpl; [constructor | now apply insertBy_sorted].
Qed.

(** Stability: the elements of one key keep their order. *)
Lemma insertBy_stable p x l :
  filter (fun a => key a =? p) (insertBy compare x l) =
  filter (fun a => key a =? p) (x :: l).
Proof.
  induction l as [|y l IH]; simpl; [reflexivity|].
  destruct (compare x y <=? 0) eqn:E; [reflexivity|].
  apply Z.leb_gt in E. cbv beta in E.
  simpl. rewrite IH. simpl.
  destruct (key x =? p) eqn:Ex, (key y =? p) eqn:Ey; try reflexivity.
  apply Z.eqb_eq in Ex, Ey. lia.
Qed.

Lemma sortBy_stable p l :
  filter (fun a => key a =? p) (sortBy compare l) =
  filter (fun a => key a =? p) l.
Proof.
  induction l as [|x l IH]; simpl; [reflexivity|].
  rewrite insertBy_stable. simpl. now rewrite IH.
Qed.

Lemma sortBy_In x l : In x (sortBy compare l) <-> In x l.
Proof.
  split; apply Permutation_in;
    [apply sortBy_perm | apply Permutation_sym, sortBy_perm].
Qed.

End StableSort.

(* ------------------------------------------------------------------ *)
(** ** The registry *)

Lemma usable_true (e : string * ProviderConfig) :
  usable e = true <-> enabled (snd e) = true /\ available (snd e) = true.
Proof. unfold usable. apply andb_true_iff. Qed.

Lemma listed_entries (s : Service) :
  fst (getAvailableProviders s) =
  map fst (sortBy byPriority (filter usable (providers s))).
Proof. reflexivity. Qed.

Lemma sortBy_byPriority_In (e : string * ProviderConfig) l :
  In e (sortBy byPriority l) <-> In e l.
Proof. exact (sortBy_In (fun e => priority (snd e)) e l). Qed.

Lemma sortBy_byFireAt_In (tm : Timer) l :
  In tm (sortBy byFireAt l) <-> In tm l.
Proof. exact (sortBy_In fireAt tm l). Qed.

Lemma isListed_iff (provider : string) (s : Service) :
  wellFormed s ->
  (isListed provider s <->
   exists config, lookup provider (providers s) = Some config /\
                  enabled config = true /\ available config = true).
Proof.
  intros Hwf. unfold isListed. rewrite listed_entries, in_map_iff. split.
  - intros [[k c] [Hk Hin]]. simpl in Hk. subst k.
    apply sortBy_byPriority_In, filter_In in Hin. destruct Hin as [Hin Hu].
    apply usable_true in Hu. exists c. split; [|exact Hu].
    now apply In_lookup.
  - intros [c [Hl [He Ha]]]. exists (provider, c). split; [reflexivity|].
    apply sortBy_byPriority_In, filter_In. split; [now apply lookup_In|].
    apply usable_true. now split.
Qed.


Lemma lookup_reEnable (k p : string) (s : Service) :
  lookup k (providers (reEnable p s)) =
  if String.eqb p k then option_map (setAvailable true) (lookup k (providers s))
  else lookup k (providers s).
Proof.
  unfold reEnable. destruct (String.eqb p k) eqn:E.
  - apply String.eqb_eq in E. subst p.
    destruct (lookup k (providers s)) as [c|] eqn:L; simpl.
    + apply lookup_assign_same.
    + exact L.
  - apply String.eqb_neq in E.
    destruct (lookup p (providers s)) as [c|]; simpl; [|reflexivity].
    now apply lookup_assign_other.
Qed.

Lemma keys_reEnable (p : string) (s : Service) :
  map fst (providers (reEnable p s)) = map fst (providers s).
Proof.
  unfold reEnable. destruct (lookup p (providers s)) eqn:L; simpl; [|reflexivity].
  apply keys_assign. now rewrite L.
Qed.

Lemma setAvailable_twice (b : bool) (o : option ProviderConfig) :
  option_map (setAvailable b) (option_map (setAvailable b) o) =
  option_map (setAvailable b) o.
Proof. destruct o; reflexivity. Qed.

Lemma runTimers_cons (tm : Timer) (l : list Timer) (s : Service) :
  runTimers (tm :: l) s = runTimers l (reEnable (target tm) s).
Proof. reflexivity. Qed.

Lemma keys_runTimers (fired : list Timer) (s : Service) :
  map fst (providers (runTimers fired s)) = map fst (providers s).
Proof.
  revert s. induction fired as [|tm l IH]; intros s; [reflexivity|].
  rewrite runTimers_cons, IH. apply keys_reEnable.
Qed.

Lemma lastError_runTimers (fired : list Timer) (s : Service) :
  lastError (runTimers fired s) = lastError s.
Proof.
  revert s. induction fired as [|tm l IH]; intros s; [reflexivity|].
  rewrite runTimers_cons, IH. unfold reEnable.
  now destruct (lookup (target tm) (providers s)).
Qed.

(** Running timers sets [available] on the entries they target and leaves
    every other entry alone. *)
Lemma lookup_runTimers (k : string) (fired : list Timer) (s : Service) :
  lookup k (providers (runTimers fired s)) =
  if existsb (fun tm => String.eqb (target tm) k) fired
  then option_map (setAvailable true) (lookup k (providers s))
  else lookup k (providers s).
Proof.
  revert s. induction fired as [|tm l IH]; intros s; [reflexivity|].
  rewrite runTimers_cons, IH, lookup_reEnable. simpl.
  destruct (String.eqb (target tm) k); simpl.
  - rewrite setAvailable_twice. now destruct (existsb _ l).
  - reflexivity.
Qed.

Lemma lookup_advance (k : string) (t : Z) (s : Service) :
  lookup k (providers (advance t s)) =
  if existsb (fun tm => String.eqb (target tm) k)
             (sortBy byFireAt (filter (isDue t) (timers s)))
  then option_map (setAvailable true) (lookup k (providers s))
  else lookup k (providers s).
Proof. unfold advance. simpl. apply lookup_runTimers. Qed.

Lemma advance_untouched (k : string) (t : Z) (s : Service) :
  (forall tm, In tm (timers s) -> target tm = k -> t < fireAt tm) ->
  lookup k (providers (advance t s)) = lookup k (providers s).
Proof.
  intros H. rewrite lookup_advance.
  destruct (existsb _ _) eqn:E; [|reflexivity].
  apply existsb_exists in E. destruct E as [tm [Hin Ht]].
  apply sortBy_byFireAt_In, filter_In in Hin. destruct Hin as [Hin Hdue].
  apply String.eqb_eq in Ht. unfold isDue in Hdue. apply Z.leb_le in Hdue.
  specialize (H tm Hin Ht). lia.
Qed.

Lemma advance_restored (k : string) (t : Z) (s : Service) :
  (exists tm, In tm (timers s) /\ target tm = k /\ fireAt tm <= t) ->
  lookup k (providers (advance t s)) =
  option_map (setAvailable true) (lookup k (providers s)).
Proof.
  intros [tm [Hin [Ht Hdue]]]. rewrite lookup_advance.
  destruct (existsb _ _) eqn:E; [reflexivity|].
  assert (X : existsb (fun tm => String.eqb (target tm) k)
                (sortBy byFireAt (filter (isDue t) (timers s))) = true).
  { apply existsb_exists. exists tm. split.
    - apply sortBy_byFireAt_In, filter_In. split; [exact Hin|].
      unfold isDue. now apply Z.leb_le.
    - now apply String.eqb_eq. }
  congruence.
Qed.

Lemma keys_advance (t : Z) (s : Service) :
  map fst (providers (advance t s)) = map fst (providers s).
Proof. unfold advance. simpl. apply keys_runTimers. Qed.

Lemma wellFormed_advance (t : Z) (s : Service) :
  wellFormed s -> wellFormed (advance t s).
Proof. unfold wellFormed. now rewrite keys_advance. Qed.


Lemma lookup_mark (k provider : string) (duration : option Z) (s : Service) :
  lookup k (providers (markProviderUnavailable provider duration s)) =
  if String.eqb provider k
  then option_map (setAvailable false) (lookup k (providers s))
  else lookup k (providers s).
Proof.
  unfold markProviderUnavailable. destruct (String.eqb provider k) eqn:E.
  - apply String.eqb_eq in E. subst provider.
    destruct (lookup k (providers s)) as [c|] eqn:L; simpl.
    + apply lookup_assign_same.
    + exact L.
  - apply String.eqb_neq in E.
    destruct (lookup provider (providers s)) as [c|]; simpl; [|reflexivity].
    now apply lookup_assign_other.
Qed.

Lemma keys_mark (provider : string) (duration : option Z) (s : Service) :
  map fst (providers (markProviderUnavailable provider duration s)) =
  map fst (providers s).
Proof.
  unfold markProviderUnavailable.
  destruct (lookup provider (providers s)) eqn:L; simpl; [|reflexivity].
  apply keys_assign. now rewrite L.
Qed.

Lemma timers_mark (provider : string) (d : Z) (s : Service) :
  registered provider s ->
  timers (markProviderUnavailable provider (Some d) s) =
  (timers s ++ [{| fireAt := now s + d; target := provider |}])%list.
Proof.
  unfold registered, markProviderUnavailable.
  destruct (lookup provider (providers s)); [reflexivity | contradiction].
Qed.



(** C7. [getAvailableProviders] returns the keys of exactly the entries with
    [enabled && available], in ascending order of [priority], entries of
    equal priority in the order of the registry, and it leaves the state as
    it found it. *)
Theorem getAvailableProviders_sorted_usable (s : Service) :
  snd (getAvailableProviders s) = s /\
  exists entries,
    fst (getAvailableProviders s) = map fst entries /\
    (forall e, In e entries <->
               In e (providers s) /\
               enabled (snd e) = true /\ available (snd e) = true) /\
    Permutation entries (filter usable (providers s)) /\
    StronglySorted (fun a b => priority (snd a) <= priority (snd b)) entries /\
    (forall p, filter (fun e => priority (snd e) =? p) entries =
               filter (fun e => priority (snd e) =? p)
                      (filter usable (providers s))).
Proof.
  split; [reflexivity|].
  exists (sortBy byPriority (filter usable (providers s))).
  split; [reflexivity|]. split; [|split; [|split]].
  - intros e. rewrite sortBy_byPriority_In, filter_In, usable_true. reflexivity.
  - exact (sortBy_perm (fun e => priority (snd e)) _).
  - exact (sortBy_sorted (fun e => priority (snd e)) _).
  - intros p. exact (sortBy_stable (fun e => priority (snd e)) p _).
Qed.







(* ------------------------------------------------------------------ *)
(** ** The candidate text of the [catch] branch *)


Lemma skipSpace_nonspace (s : string) :
  match firstChar s with
  | Some c => isWhiteSpace c = false
  | None => True
  end -> skipSpace s = s.
Proof. destruct s as [|c s]; simpl; [reflexivity|]. now intros ->. Qed.

Lemma firstChar_skipSpace (s : string) :
  match firstChar (skipSpace s) with
  | Some c => isWhiteSpace c = false
  | None => True
  end.
Proof.
  induction s as [|c s IH]; simpl; [exact I|].
  destruct (isWhiteSpace c) eqn:E; [exact IH | simpl; exact E].
Qed.

Lemma allSpace_takeSpace (s : string) : allSpace (takeSpace s) = true.
Proof.
  induction s as [|c s IH]; simpl; [reflexivity|].
  destruct (isWhiteSpace c) eqn:E; simpl; [now rewrite E | reflexivity].
Qed.

Lemma takeSpace_skipSpace (s : string) :
  s = (takeSpace s ++ skipSpace s)%string.
Proof.
  induction s as [|c s IH]; simpl; [reflexivity|].
  destruct (isWhiteSpace c); simpl; [now rewrite <- IH | reflexivity].
Qed.

Lemma skipSpace_allSpace_app (w r : string) :
  allSpace w = true -> skipSpace (w ++ r) = skipSpace r.
Proof.
  induction w as [|c w IH]; simpl; [reflexivity|].
  intros H. apply andb_true_iff in H. destruct H as [Hc Hw].
  rewrite Hc. now apply IH.
Qed.

Lemma trimEnd_lastChar (s : string) :
  match lastChar s with
  | Some c => isWhiteSpace c = false
  | None => True
  end -> trimEnd s = s.
Proof.
  induction s as [|c s IH]; simpl; [reflexivity|].
  destruct (lastChar s) as [x|] eqn:L.
  - intros H. rewrite (IH H). destruct s; [discriminate|].
    simpl. now rewrite andb_false_r.
  - intros H. destruct s as [|y s]; [|simpl in L; now destruct (lastChar s)].
    simpl. now rewrite H.
Qed.

Lemma lastChar_app (a b : string) :
  lastChar (a ++ b) = match lastChar b with
                      | Some c => Some c
                      | None => lastChar a
                      end.
Proof.
  induction a as [|c a IH]; simpl; [now destruct (lastChar b)|].
  rewrite IH. now destruct (lastChar b), (lastChar a).
Qed.

Lemma allSpace_lastChar (s : string) (c : ascii) :
  lastChar s = Some c -> isWhiteSpace c = false -> allSpace s = false.
Proof.
  induction s as [|x s IH]; simpl; [discriminate|].
  destruct (lastChar s) as [y|] eqn:L; intros E Hc.
  - injection E as ->. rewrite (IH eq_refl Hc). apply andb_false_r.
  - injection E as ->. now rewrite Hc.
Qed.

(** A text whose last character is neither a backtick nor white space has
    no closing fence to strip. *)
Lemma stripFenceEnd_lastChar (s : string) (c : ascii) :
  lastChar s = Some c -> isWhiteSpace c = false -> c <> "`"%char ->
  stripFenceEnd s = s.
Proof.
  intros L Hc Hb. induction s as [|x s IH]; [reflexivity|].
  assert (Hno : startsWith (String x s) "```" && allSpace (drop 3 (String x s)) = false).
  { destruct (startsWith (String x s) "```") eqn:S; [|reflexivity].
    apply startsWith_inv in S. destruct S as [r Hr]. rewrite Hr in L |- *.
    change (drop 3 ("```" ++ r)) with r. rewrite andb_true_l.
    rewrite lastChar_app in L.
    destruct (lastChar r) as [y|] eqn:Lr.
    - injection L as ->. now apply (allSpace_lastChar r c).
    - simpl in L. injection L as <-. now elim Hb. }
  change (stripFenceEnd (String x s))
    with (if startsWith (String x s) "```" && allSpace (drop 3 (String x s))
          then EmptyString else String x (stripFenceEnd s)).
  rewrite Hno. f_equal.
  destruct s as [|y s']; [reflexivity|].
  apply IH. simpl in L |- *. destruct (lastChar s'); congruence.
Qed.

Lemma append_assoc (a b c : string) : ((a ++ b) ++ c = a ++ (b ++ c))%string.
Proof. induction a as [|x a IH]; simpl; [reflexivity | now rewrite IH]. Qed.

Lemma startsWith_empty (s : string) : startsWith s EmptyString = true.
Proof. destruct s; reflexivity. Qed.

Lemma startsWith_trans (s g p : string) :
  startsWith s g = true -> startsWith g p = true -> startsWith s p = true.
Proof.
  intros H1 H2. apply startsWith_inv in H1, H2.
  destruct H1 as [r1 ->]. destruct H2 as [r2 ->].
  rewrite append_assoc. apply startsWith_app.
Qed.

Lemma startsWith_firstChar (s p : string) (c : ascii) :
  startsWith s (String c p) = true -> firstChar s = Some c.
Proof.
  destruct s as [|x s]; simpl; [discriminate|].
  intros H. apply andb_true_iff in H. destruct H as [H _].
  apply Ascii.eqb_eq in H. now subst.
Qed.

Lemma fromFirst_firstChar (c : ascii) (text s : string) :
  fromFirst c text = Some s -> firstChar s = Some c.
Proof.
  induction text as [|x text IH]; simpl; [discriminate|].
  destruct (Ascii.eqb x c) eqn:E; [|exact IH].
  intros H. injection H as <-. apply Ascii.eqb_eq in E. now subst.
Qed.

Lemma uptoLast_shape (c : ascii) (s w : string) :
  uptoLast c s = Some w -> lastChar w = Some c /\ firstChar w = firstChar s.
Proof.
  revert w. induction s as [|x s IH]; simpl; intros w; [discriminate|].
  destruct (uptoLast c s) as [t|] eqn:U.
  - intros H. injection H as <-. destruct (IH t eq_refl) as [L _].
    simpl. rewrite L. now split.
  - destruct (Ascii.eqb x c) eqn:E; [|discriminate].
    intros H. injection H as <-. apply Ascii.eqb_eq in E. subst x. now split.
Qed.

Lemma stripFences_no_fence (s : string) :
  startsWith s "```" = false -> stripFenceEnd s = s -> stripFences s = s.
Proof.
  intros H1 H2. unfold stripFences.
  destruct (startsWith s "```json") eqn:E; [|exact H2].
  assert (X : startsWith s "```" = true)
    by (apply (startsWith_trans s "```json"); [exact E | reflexivity]).
  congruence.
Qed.

(** The greedy brace span is parsed as it stands. *)
Lemma cleanText_braces (text : string) (m : string * option string) :
  matchBraces text = Some m -> cleanText m = fst m /\ snd m = None.
Proof.
  unfold matchBraces.
  destruct (fromFirst "{" text) as [s|] eqn:F; [|discriminate].
  destruct (uptoLast "}" s) as [whole|] eqn:U; [|discriminate].
  intros H. injection H as <-. split; [|reflexivity].
  destruct (uptoLast_shape _ _ _ U) as [L Fc].
  rewrite (fromFirst_firstChar _ _ _ F) in Fc.
  unfold cleanText, contentToParse. simpl.
  assert (S3 : startsWith whole "```" = false).
  { destruct (startsWith whole "```") eqn:S; [|reflexivity].
    apply startsWith_firstChar in S. rewrite Fc in S. discriminate. }
  rewrite stripFences_no_fence; [|exact S3|].
  - unfold trim. rewrite skipSpace_nonspace by (now rewrite Fc).
    apply trimEnd_lastChar. now rewrite L.
  - apply (stripFenceEnd_lastChar whole "}"); [exact L | reflexivity | discriminate].
Qed.

Lemma lazyUntilFence_eq (s : string) :
  lazyUntilFence s =
  if startsWith (skipSpace s) "```" then Some (EmptyString, takeSpace s)
  else
    match s with
    | EmptyString => None
    | String c r =>
        match lazyUntilFence r with
        | Some (g, w) => Some (String c g, w)
        | None => None
        end
    end.
Proof. destruct s; reflexivity. Qed.

Lemma lazyUntilFence_prefix (s g w : string) :
  lazyUntilFence s = Some (g, w) -> startsWith s g = true.
Proof.
  revert g w. induction s as [|c r IH]; intros g w; rewrite lazyUntilFence_eq.
  - destruct (startsWith _ _); [|discriminate].
    intros H. now injection H as <- _.
  - destruct (startsWith _ _).
    + intros H. now injection H as <- _.
    + destruct (lazyUntilFence r) as [[g' w']|] eqn:L; [|discriminate].
      intros H. injection H as <- _. simpl.
      rewrite Ascii.eqb_refl. exact (IH g' w' eq_refl).
Qed.

(** The lazy group holds no fence, and ends before the white space that
    precedes the closing fence. *)
Lemma lazyUntilFence_group (s g w : string) :
  lazyUntilFence s = Some (g, w) ->
  startsWith g "```" = false /\ stripFenceEnd g = g /\ trimEnd g = g /\
  allSpace w = true /\
  (g <> EmptyString -> firstChar g = firstChar s).
Proof.
  revert g w. induction s as [|c r IH]; intros g w; rewrite lazyUntilFence_eq.
  - destruct (startsWith _ _); [|discriminate].
    intros H. injection H as <- <-. repeat split; reflexivity || congruence.
  - destruct (startsWith (skipSpace (String c r)) "```") eqn:T.
    + intros H. injection H as <- <-.
      repeat split;
        reflexivity || congruence || apply (allSpace_takeSpace (String c r)).
    + destruct (lazyUntilFence r) as [[g' w']|] eqn:L; [|discriminate].
      intros H. injection H as <- <-.
      destruct (IH g' w' eq_refl) as [_ [Hs [Ht [Hw _]]]].
      assert (Hno : startsWith (String c g') "```" = false).
      { destruct (startsWith (String c g') "```") eqn:S; [|reflexivity].
        assert (P : startsWith (String c r) (String c g') = true).
        { simpl. rewrite Ascii.eqb_refl. exact (lazyUntilFence_prefix _ _ _ L). }
        pose proof (startsWith_trans _ _ _ P S) as Q.
        pose proof (startsWith_firstChar _ _ _ S) as Fc. simpl in Fc.
        injection Fc as ->.
        change (skipSpace (String "`" r)) with (String "`" r) in T.
        congruence. }
      split; [exact Hno|]. split; [|split; [|split; [exact Hw | reflexivity]]].
      * change (stripFenceEnd (String c g'))
          with (if startsWith (String c g') "```" && allSpace (drop 3 (String c g'))
                then EmptyString else String c (stripFenceEnd g')).
        now rewrite Hno, Hs.
      * simpl. rewrite Ht.
        destruct (isWhiteSpace c) eqn:Wc; [|reflexivity].
        destruct g' as [|y g'']; [|reflexivity].
        exfalso. rewrite lazyUntilFence_eq in L.
        destruct (startsWith (skipSpace r) "```") eqn:T'.
        -- simpl in T. rewrite Wc in T. congruence.
        -- destruct r; [discriminate|].
           destruct (lazyUntilFence r) as [[? ?]|]; discriminate.
Qed.

(** The interior of a [json] fence is parsed as it stands. *)
Lemma cleanText_fence (text : string) (m : string * option string) :
  matchJsonFence text = Some m ->
  exists g, snd m = Some g /\ cleanText m = g.
Proof.
  unfold matchJsonFence.
  destruct (afterFirst "```json" text) as [r|]; [|discriminate].
  destruct (lazyUntilFence (skipSpace r)) as [[g w]|] eqn:L; [|discriminate].
  intros H. injection H as <-. exists g. split; [reflexivity|].
  destruct (lazyUntilFence_group _ _ _ L) as [Hno [Hs [Ht [Hw Hf]]]].
  unfold cleanText, contentToParse. cbn [fst snd].
  destruct g as [|c g']; cbn [isEmpty].
  - unfold stripFences. cbn [startsWith drop Ascii.eqb Bool.eqb andb].
    rewrite startsWith_empty.
    change (EmptyString ++ w ++ "```")%string with (w ++ "```")%string.
    rewrite (skipSpace_allSpace_app (takeSpace r) (w ++ "```"))
      by apply allSpace_takeSpace.
    rewrite (skipSpace_allSpace_app w "```") by exact Hw.
    reflexivity.
  - rewrite stripFences_no_fence by assumption.
    unfold trim. rewrite skipSpace_nonspace; [exact Ht|].
    rewrite Hf by discriminate. apply firstChar_skipSpace.
Qed.

(** The [catch] branch parses one candidate: the interior of the first
    [json] fence when the text has one, else the greedy brace span. *)
Lemma recoverJSON_candidate (text : string) :
  recoverJSON text =
  match candidate text with
  | Some c =>
      match parsesTo c with
      | Some v => v
      | None => fallbackAnalysis
      end
  | None => fallbackAnalysis
  end.
Proof.
  unfold recoverJSON, candidate, jsonFenceInterior, greedySpan, findCandidate.
  destruct (matchJsonFence text) as [m|] eqn:F.
  - destruct (cleanText_fence _ _ F) as [g [Hg Hc]].
    destruct m as [w o]. simpl in Hg. subst o. rewrite Hc.
    unfold parsesTo. now destruct (_ <- parseJSON g ;; _).
  - destruct (matchBraces text) as [m|] eqn:B; simpl; [|reflexivity].
    destruct (cleanText_braces _ _ B) as [Hc _]. rewrite Hc.
    unfold parsesTo. now destruct (_ <- parseJSON (fst m) ;; _).
Qed.



(* ------------------------------------------------------------------ *)
(** ** The flattening of [nextAction] *)

Lemma isEmpty_template (a b : string) :
  isEmpty (a ++ " (Timeline: " ++ b ++ ")") = false.
Proof. destruct a; reflexivity. Qed.

(** What the [||] chain computes: [step] itself when it is truthy, else the
    template; the fixed literal is never reached. *)
Lemma nextAction_chain (step timeline : JSValue) :
  js_or
    (js_or step (JStr (ToString step ++ " (Timeline: " ++ ToString timeline ++ ")")))
    (JStr "Seek legal counsel immediately") =
  if ToBoolean step then step
  else JStr (ToString step ++ " (Timeline: " ++ ToString timeline ++ ")").
Proof.
  unfold js_or. destruct (ToBoolean step) eqn:E.
  - now rewrite E.
  - cbn [ToBoolean]. now rewrite isEmpty_template.
Qed.

(** The normalisation of an object whose [nextAction] is structured. *)
Lemma normalizeNextAction_structured
  (props : list (string * JSValue)) (nextAction : JSValue) :
  lookup "nextAction" props = Some nextAction ->
  ToBoolean nextAction && typeofObject nextAction = true ->
  normalizeNextAction (JObj props) =
  Ok (JObj (assign "nextAction"
              (if ToBoolean (getProp nextAction "step")
               then getProp nextAction "step"
               else JStr (ToString (getProp nextAction "step") ++ " (Timeline: "
                          ++ ToString (getProp nextAction "timeline") ++ ")"))
              props)).
Proof.
  intros Hl Hobj. unfold normalizeNextAction. cbn [getProp].
  rewrite Hl, Hobj. cbv zeta. now rewrite nextAction_chain.
Qed.

(** C1.  The flattening keeps [step] alone whenever [step] is truthy, so the
    timeline of the specification's own example is dropped; and with no
    [step] the result is the template filled with [undefined], never the
    fixed literal.  The fix-summaries script does append the timeline. *)
Theorem nextAction_timeline_is_dropped :
  _extractJSON
    (JStr (jsonText "{'nextAction':{'step':'Call PAO','timeline':'within 24h'}}")) =
  Ok (JObj [("nextAction", JStr "Call PAO")]) /\
  flattenNextAction_spec
    (JObj [("step", JStr "Call PAO"); ("timeline", JStr "within 24h")]) =
  JStr "Call PAO (Timeline: within 24h)" /\
  fixSummaries_nextAction
    (JObj [("step", JStr "Call PAO"); ("timeline", JStr "within 24h")]) =
  JStr "Call PAO (Timeline: within 24h)" /\
  _extractJSON (JStr (jsonText "{'nextAction':{'step':'Call PAO'}}")) =
  Ok (JObj [("nextAction", JStr "Call PAO")]) /\
  _extractJSON (JStr (jsonText "{'nextAction':{}}")) =
  Ok (JObj [("nextAction", JStr "undefined (Timeline: undefined)")]) /\
  flattenNextAction_spec (JObj []) = JStr "Seek legal counsel immediately".
Proof. repeat split; reflexivity. Qed.

(* ------------------------------------------------------------------ *)
(** ** Failure classification *)

Lemma isBalanceError_iff (error : JSError) :
  _isBalanceError error = true <->
  occursIn "insufficient" (errorMessageOf error) \/
  occursIn "quota" (errorMessageOf error) \/
  occursIn "balance" (errorMessageOf error) \/
  strictEqualsInt (errorCodeOf error) 429 = true \/
  strictEqualsInt (errorCodeOf error) 402 = true.
Proof.
  unfold _isBalanceError. rewrite !orb_true_iff, !includes_occursIn. tauto.
Qed.


(** C3.  [_isBalanceError] misses three of the cases the specification
    lists: a message about billing, a message saying the limit is exceeded,
    and the error code [insufficient_quota].  The Groq-only copy of the
    method classifies all three as balance errors. *)
Theorem isBalanceError_misses_billing :
  _isBalanceError (Error "Billing hard limit has been reached") = false /\
  _isBalanceError (Error "Monthly limit exceeded") = false /\
  _isBalanceError {| message := Some "Request failed";
                     status := JUndefined;
                     code := JStr "insufficient_quota" |} = false /\
  GroqOnly._isBalanceError (Error "Billing hard limit has been reached") = true /\
  GroqOnly._isBalanceError (Error "Monthly limit exceeded") = true /\
  GroqOnly._isBalanceError {| message := Some "Request failed";
                              status := JUndefined;
                              code := JStr "insufficient_quota" |} = true.
Proof. repeat split; reflexivity. Qed.

(* ------------------------------------------------------------------ *)
(** ** The [catch] block *)

Lemma recordFailure_eq (provider : string) (error : JSError) (s : Service) :
  recordFailure provider error s =
  markProviderUnavailable provider (Some (cooldownOf error))
    (withLastError (assign provider (message error) (lastError s)) s).
Proof. unfold recordFailure, cooldownOf. now destruct (_isBalanceError error). Qed.

Lemma lastError_mark (provider : string) (duration : option Z) (s : Service) :
  lastError (markProviderUnavailable provider duration s) = lastError s.
Proof.
  unfold markProviderUnavailable. now destruct (lookup provider (providers s)).
Qed.

Lemma now_mark (provider : string) (duration : option Z) (s : Service) :
  now (markProviderUnavailable provider duration s) = now s.
Proof.
  unfold markProviderUnavailable. now destruct (lookup provider (providers s)).
Qed.

Lemma keys_recordFailure (provider : string) (error : JSError) (s : Service) :
  map fst (providers (recordFailure provider error s)) = map fst (providers s).
Proof. rewrite recordFailure_eq, keys_mark. reflexivity. Qed.

Lemma lookup_recordFailure (k provider : string) (error : JSError) (s : Service) :
  lookup k (providers (recordFailure provider error s)) =
  if String.eqb provider k
  then option_map (setAvailable false) (lookup k (providers s))
  else lookup k (providers s).
Proof. rewrite recordFailure_eq, lookup_mark. reflexivity. Qed.

Lemma registered_recordFailure (k provider : string) (error : JSError) (s : Service) :
  registered k s -> registered k (recordFailure provider error s).
Proof.
  unfold registered. rewrite lookup_recordFailure.
  destruct (String.eqb provider k); [|easy].
  now destruct (lookup k (providers s)).
Qed.

Lemma providerName_registered (provider : string) (s : Service) :
  registered provider s -> exists n, providerName provider s = Ok n.
Proof.
  unfold registered, providerName.
  destruct (lookup provider (providers s)) as [c|]; [|contradiction].
  intros _. now exists (name c).
Qed.

Lemma catchBlock_registered (provider : string) (error : JSError) (s : Service) :
  registered provider s ->
  catchBlock provider error s = Ok (recordFailure provider error s).
Proof.
  intros H. unfold catchBlock.
  destruct (providerName_registered _ _ H) as [n ->]. reflexivity.
Qed.

(** What the [catch] block leaves behind. *)
Lemma recordFailure_effect (provider : string) (error : JSError) (s : Service) :
  registered provider s ->
  lookup provider (lastError (recordFailure provider error s)) =
    Some (message error) /\
  (forall k, k <> provider ->
     lookup k (lastError (recordFailure provider error s)) = lookup k (lastError s)) /\
  availability provider (recordFailure provider error s) = Some false /\
  (forall k, k <> provider ->
     lookup k (providers (recordFailure provider error s)) = lookup k (providers s)) /\
  timers (recordFailure provider error s) =
    (timers s ++ [{| fireAt := now s + cooldownOf error; target := provider |}])%list.
Proof.
  intros Hreg. rewrite recordFailure_eq. repeat split.
  - rewrite lastError_mark. apply lookup_assign_same.
  - intros k Hk. rewrite lastError_mark. simpl.
    apply lookup_assign_other. congruence.
  - unfold availability. rewrite lookup_mark, String.eqb_refl. simpl.
    unfold registered in Hreg. now destruct (lookup provider (providers s)).
  - intros k Hk. rewrite lookup_mark. simpl.
    apply not_eq_sym, String.eqb_neq in Hk. now rewrite Hk.
  - now rewrite timers_mark.
Qed.



(** C8.  When the first provider tried succeeds, each entry point returns
    that result and the state it started from: registry, [lastError] and
    timers are untouched. *)
Theorem first_attempt_success_leaves_state
  (api : API) (provider : string) (rest : list string) (s : Service) :
  fst (getAvailableProviders s) = provider :: rest ->
  (forall fullTranscript category summary,
      summaryAttempt api fullTranscript category provider s = Ok (Some summary) ->
      generateFinalSummary api fullTranscript category s = (Ok summary, s)) /\
  (forall transcript category result,
      analysisAttempt api transcript category provider s = Ok result ->
      analyzeLegalSituation api transcript category s = (Ok result, s)) /\
  (forall userMessage context result,
      responseAttempt api userMessage context provider s = Ok result ->
      generateResponse api userMessage context s = (Ok result, s)).
Proof.
  intros Hps. repeat split; intros a b r Hok.
  - unfold generateFinalSummary. simpl in Hps |- *. rewrite Hps. simpl.
    now rewrite Hok.
  - unfold analyzeLegalSituation. simpl in Hps |- *. rewrite Hps. simpl.
    now rewrite Hok.
  - unfold generateResponse. simpl in Hps |- *. rewrite Hps. simpl.
    now rewrite Hok.
Qed.

Lemma first_attempt_success_leaves_state_witness :
  fst (getAvailableProviders configured) = ["groq"] /\
  generateResponse (resolving (JStr "Kumusta po?")) "hello" "" configured =
  (Ok (JStr "Kumusta po?"), configured).
Proof.
  split; [reflexivity|].
  apply (first_attempt_success_leaves_state
           (resolving (JStr "Kumusta po?")) "groq" [] configured eq_refl).
  reflexivity.
Defined.




(* ------------------------------------------------------------------ *)
(** ** Outcomes of the entry points *)

Lemma In_lookup_registered {A : Type} (k : string) (v : A) (l : list (string * A)) :
  In (k, v) l -> lookup k l <> None.
Proof.
  induction l as [|[k' v'] l IH]; simpl; [easy|].
  intros [E|Hin].
  - injection E as -> _. now rewrite String.eqb_refl.
  - destruct (String.eqb k k'); [discriminate | now apply IH].
Qed.

Lemma listed_registered (provider : string) (s : Service) :
  isListed provider s -> registered provider s.
Proof.
  unfold isListed. rewrite listed_entries, in_map_iff.
  intros [[k c] [Hk Hin]]. simpl in Hk. subst k.
  apply sortBy_byPriority_In, filter_In in Hin. destruct Hin as [Hin _].
  exact (In_lookup_registered _ _ _ Hin).
Qed.

Lemma all_listed_registered (s : Service) :
  Forall (fun p => registered p s) (fst (getAvailableProviders s)).
Proof. apply Forall_forall. intros p Hp. now apply listed_registered. Qed.

Lemma Forall_registered_recordFailure
  (ps : list string) (provider : string) (error : JSError) (s : Service) :
  Forall (fun p => registered p s) ps ->
  Forall (fun p => registered p (recordFailure provider error s)) ps.
Proof.
  intros H. eapply Forall_impl; [|exact H].
  intros p Hp. now apply registered_recordFailure.
Qed.

Lemma validated_reply (result : JSValue) :
  negb (ToBoolean result) || negb (typeofString result) = false ->
  exists reply, result = JStr reply /\ reply <> EmptyString.
Proof.
  destruct result; simpl; try discriminate;
    try (rewrite orb_true_r; discriminate).
  intros H. exists s. split; [reflexivity|].
  rewrite orb_false_r in H. destruct s; [discriminate | congruence].
Qed.

(** The conversational loop always ends with a reply: a validated provider
    reply or the apology for total failure. *)
Lemma responseLoop_replies
  (api : API) (userMessage context : string) (ps : list string) (s : Service) :
  Forall (fun p => registered p s) ps ->
  exists reply s',
    responseLoop api userMessage context ps s = (Ok (JStr reply), s') /\
    reply <> EmptyString.
Proof.
  revert s. induction ps as [|p ps IH]; intros s Hall; simpl.
  - exists allFailedReply, s. split; [reflexivity | discriminate].
  - inversion Hall as [|? ? Hp Hps]; subst.
    destruct (responseAttempt api userMessage context p s) as [result|error] eqn:A.
    + unfold responseAttempt in A.
      destruct (providerName p s); simpl in A; [|discriminate].
      destruct (_generateResponseWithProvider api p userMessage context s) as [v|];
        simpl in A; [|discriminate].
      destruct (negb (ToBoolean v) || negb (typeofString v)) eqn:V; [discriminate|].
      injection A as <-. destruct (validated_reply v V) as [reply [-> Hne]].
      now exists reply, s.
    + rewrite (catchBlock_registered _ _ _ Hp).
      apply IH. now apply Forall_registered_recordFailure.
Qed.

(** [generateResponse] never raises. *)
Lemma generateResponse_never_raises
  (api : API) (userMessage context : string) (s : Service) :
  exists reply s',
    generateResponse api userMessage context s = (Ok (JStr reply), s').
Proof.
  unfold generateResponse.
  pose proof (all_listed_registered s) as Hall.
  destruct (getAvailableProviders s) as [ps s0] eqn:G.
  assert (Hs : s0 = s) by (unfold getAvailableProviders in G; congruence).
  subst s0. simpl in Hall. destruct ps as [|p ps].
  - now exists noServiceReply, s.
  - destruct (responseLoop_replies api userMessage context (p :: ps) s Hall)
      as [reply [s' [H _]]].
    now exists reply, s'.
Qed.

Lemma no_provider_outcomes (api : API) (a b : string) (s : Service) :
  fst (getAvailableProviders s) = [] ->
  generateResponse api a b s = (Ok (JStr noServiceReply), s) /\
  generateFinalSummary api a b s =
    (Throw (Error "No AI providers available for summarization"), s) /\
  analyzeLegalSituation api a b s = (Throw (Error "No AI providers available"), s).
Proof.
  intros H. unfold generateResponse, generateFinalSummary, analyzeLegalSituation.
  simpl in H |- *. rewrite H. now repeat split.
Qed.

(** The summary loop ends with a summary or, when the providers are
    exhausted, with an error that quotes the [lastError] map. *)
Lemma summaryLoop_outcome
  (api : API) (fullTranscript category : string) (ps : list string) (s : Service) :
  Forall (fun p => registered p s) ps ->
  exists r s',
    summaryLoop api fullTranscript category ps s = (r, s') /\
    ((exists summary, r = Ok summary) \/
     r = Throw (Error ("Failed to generate summary with all providers. Last errors: "
                         ++ JSON_stringify (lastError s')))).
Proof.
  revert s. induction ps as [|p ps IH]; intros s Hall; simpl.
  - exists (Throw (Error ("Failed to generate summary with all providers. Last errors: "
                            ++ JSON_stringify (lastError s)))), s.
    split; [reflexivity | now right].
  - inversion Hall as [|? ? Hp Hps]; subst.
    destruct (summaryAttempt api fullTranscript category p s) as [[summary|]|error].
    + exists (Ok summary), s. split; [reflexivity|]. left. now exists summary.
    + now apply IH.
    + rewrite (catchBlock_registered _ _ _ Hp).
      apply IH. now apply Forall_registered_recordFailure.
Qed.

(** The analysis loop ends with a result or, when the providers are
    exhausted, with an error whose message is fixed. *)
Lemma analysisLoop_outcome
  (api : API) (transcript category : string) (ps : list string) (s : Service) :
  Forall (fun p => registered p s) ps ->
  exists r s',
    analysisLoop api transcript category ps s = (r, s') /\
    ((exists result, r = Ok result) \/ r = Throw (Error "All AI providers failed")).
Proof.
  revert s. induction ps as [|p ps IH]; intros s Hall; simpl.
  - exists (Throw (Error "All AI providers failed")), s.
    split; [reflexivity | now right].
  - inversion Hall as [|? ? Hp Hps]; subst.
    destruct (analysisAttempt api transcript category p s) as [result|error].
    + exists (Ok result), s. split; [reflexivity|]. left. now exists result.
    + rewrite (catchBlock_registered _ _ _ Hp).
      apply IH. now apply Forall_registered_recordFailure.
Qed.

(** C6.  With its one provider failing, [generateResponse] answers with the
    apology and [generateFinalSummary] raises an error that quotes the
    [lastError] map, but the error [analyzeLegalSituation] raises says only
    that all providers failed: the map, which holds the failure, is not in
    it. *)
Theorem analysis_exhaustion_error_omits_lastError :
  fst (analyzeLegalSituation (rejecting (Error "boom")) "transcript" "labor" configured) =
    Throw (Error "All AI providers failed") /\
  lastError
    (snd (analyzeLegalSituation (rejecting (Error "boom")) "transcript" "labor" configured)) =
    [("groq", Some "boom")] /\
  fst (generateFinalSummary (rejecting (Error "boom")) "transcript" "labor" configured) =
    Throw (Error ("Failed to generate summary with all providers. Last errors: "
                    ++ jsonText "{'groq':'boom'}")) /\
  fst (generateResponse (rejecting (Error "boom")) "hello" "" configured) =
    Ok (JStr allFailedReply) /\
  fst (generateResponse (rejecting (Error "boom")) "hello" "" (newService None)) =
    Ok (JStr noServiceReply).
Proof. repeat split; reflexivity. Qed.

(* ------------------------------------------------------------------ *)
(** ** A summary that succeeds changes nothing

    Only [groq] is ever called by [generateFinalSummary]; every other key is
    passed over.  So a successful summary was the first attempt, whatever
    the position of [groq] in the list. *)

Lemma NoDup_keys_filter {A : Type} (f : string * A -> bool) (l : list (string * A)) :
  NoDup (map fst l) -> NoDup (map fst (filter f l)).
Proof.
  induction l as [|x l IH]; simpl; intros H; [constructor|].
  inversion H as [|? ? Hnotin Hnd]; subst.
  destruct (f x); simpl; [|now apply IH].
  constructor; [|now apply IH].
  intros Hin. apply Hnotin. apply in_map_iff in Hin.
  destruct Hin as [y [Hy Hin]]. apply filter_In in Hin.
  apply in_map_iff. exists y. now split.
Qed.

Lemma listed_NoDup (s : Service) :
  wellFormed s -> NoDup (fst (getAvailableProviders s)).
Proof.
  intros Hwf. rewrite listed_entries.
  eapply Permutation_NoDup.
  - apply Permutation_map, Permutation_sym.
    exact (sortBy_perm (fun e => priority (snd e)) _).
  - now apply NoDup_keys_filter.
Qed.

Lemma summaryAttempt_other (api : API) (a b provider : string) (s : Service) :
  provider <> "groq" ->
  summaryAttempt api a b provider s = Ok None \/
  (exists e, summaryAttempt api a b provider s = Throw e /\
             catchBlock provider e s = Throw e).
Proof.
  intros Hne. apply String.eqb_neq in Hne.
  unfold summaryAttempt, catchBlock, providerName.
  destruct (lookup provider (providers s)); simpl.
  - left. now rewrite Hne.
  - right. eexists. split; reflexivity.
Qed.

Lemma summaryLoop_without_groq
  (api : API) (a b : string) (ps : list string) (s : Service) :
  ~ In "groq" ps ->
  exists e s', summaryLoop api a b ps s = (Throw e, s').
Proof.
  induction ps as [|p ps IH]; intros Hnot; simpl.
  - eexists. eexists. reflexivity.
  - assert (Hp : p <> "groq") by (intros ->; apply Hnot; now left).
    assert (Hps : ~ In "groq" ps) by (intros H; apply Hnot; now right).
    destruct (summaryAttempt_other api a b p s Hp) as [-> | [e [-> ->]]].
    + now apply IH.
    + now exists e, s.
Qed.

Lemma summaryLoop_success_frame
  (api : API) (a b : string) (ps : list string) (s s' : Service) (r : JSValue) :
  NoDup ps ->
  summaryLoop api a b ps s = (Ok r, s') -> s' = s.
Proof.
  revert s. induction ps as [|p ps IH]; intros s Hnd; simpl; [discriminate|].
  inversion Hnd as [|? ? Hnotin Hnd']; subst.
  destruct (summaryAttempt api a b p s) as [[summary|]|error] eqn:A.
  - now intros [= _ <-].
  - now apply IH.
  - destruct (catchBlock p error s) as [s1|e] eqn:C; [|discriminate].
    intros H. exfalso.
    destruct (String.eqb p "groq") eqn:E.
    + apply String.eqb_eq in E. subst p.
      destruct (summaryLoop_without_groq api a b ps s1 Hnotin) as [e [s2 X]].
      congruence.
    + apply String.eqb_neq in E.
      destruct (summaryAttempt_other api a b p s E) as [X | [e [X Y]]]; congruence.
Qed.

Lemma generateFinalSummary_success_frame
  (api : API) (a b : string) (s s' : Service) (r : JSValue) :
  wellFormed s ->
  generateFinalSummary api a b s = (Ok r, s') -> s' = s.
Proof.
  intros Hwf. unfold generateFinalSummary.
  pose proof (listed_NoDup s Hwf) as Hnd. simpl in Hnd |- *.
  destruct (map fst (sortBy byPriority (filter usable (providers s)))) as [|p ps];
    [discriminate|].
  now apply summaryLoop_success_frame.
Qed.

(* ------------------------------------------------------------------ *)
(** ** What the service never changes *)

Lemma configuration_assign (k : string) (b : bool) (c : ProviderConfig)
  (l : list (string * ProviderConfig)) :
  lookup k l = Some c ->
  map (fun e => (fst e, (name (snd e), client (snd e), enabled (snd e),
                         priority (snd e))))
      (assign k (setAvailable b c) l) =
  map (fun e => (fst e, (name (snd e), client (snd e), enabled (snd e),
                         priority (snd e)))) l.
Proof.
  induction l as [|[k' c'] l IH]; simpl; [discriminate|].
  destruct (String.eqb k k') eqn:E; simpl.
  - now intros [= ->].
  - intros H. now rewrite IH.
Qed.

Lemma configuration_reEnable (p : string) (s : Service) :
  configuration (reEnable p s) = configuration s.
Proof.
  unfold reEnable, configuration.
  destruct (lookup p (providers s)) eqn:L; [|reflexivity].
  now apply configuration_assign.
Qed.

Lemma configuration_mark (p : string) (d : option Z) (s : Service) :
  configuration (markProviderUnavailable p d s) = configuration s.
Proof.
  unfold markProviderUnavailable, configuration.
  destruct (lookup p (providers s)) eqn:L; [|reflexivity].
  now apply configuration_assign.
Qed.

Lemma configuration_runTimers (fired : list Timer) (s : Service) :
  configuration (runTimers fired s) = configuration s.
Proof.
  revert s. induction fired as [|tm l IH]; intros s; [reflexivity|].
  rewrite runTimers_cons, IH. apply configuration_reEnable.
Qed.

Lemma configuration_advance (t : Z) (s : Service) :
  configuration (advance t s) = configuration s.
Proof. exact (configuration_runTimers _ s). Qed.

Lemma configuration_recordFailure (p : string) (e : JSError) (s : Service) :
  configuration (recordFailure p e s) = configuration s.
Proof. rewrite recordFailure_eq, configuration_mark. reflexivity. Qed.

Lemma catchBlock_inv (p : string) (e : JSError) (s s' : Service) :
  catchBlock p e s = Ok s' -> s' = recordFailure p e s.
Proof.
  unfold catchBlock. destruct (providerName p s); simpl; [|discriminate].
  now intros [= <-].
Qed.

(** An invariant of the three loops: a relation between the state before
    and the state after that holds when nothing happens, and that the catch
    block cannot break, holds across each entry point. *)
Lemma summaryLoop_invariant (P : Service -> Service -> Prop)
  (P_refl : forall s, P s s)
  (P_step : forall p e s s', P (recordFailure p e s) s' -> P s s')
  (api : API) (a b : string) (ps : list string) (s : Service) :
  P s (snd (summaryLoop api a b ps s)).
Proof.
  revert s. induction ps as [|p ps IH]; intros s; simpl; [apply P_refl|].
  destruct (summaryAttempt api a b p s) as [[v|]|e]; simpl;
    [apply P_refl | apply IH |].
  destruct (catchBlock p e s) as [s1|e1] eqn:C; simpl; [|apply P_refl].
  apply catchBlock_inv in C. subst s1. eapply P_step, IH.
Qed.

Lemma analysisLoop_invariant (P : Service -> Service -> Prop)
  (P_refl : forall s, P s s)
  (P_step : forall p e s s', P (recordFailure p e s) s' -> P s s')
  (api : API) (a b : string) (ps : list string) (s : Service) :
  P s (snd (analysisLoop api a b ps s)).
Proof.
  revert s. induction ps as [|p ps IH]; intros s; simpl; [apply P_refl|].
  destruct (analysisAttempt api a b p s) as [v|e]; simpl; [apply P_refl|].
  destruct (catchBlock p e s) as [s1|e1] eqn:C; simpl; [|apply P_refl].
  apply catchBlock_inv in C. subst s1. eapply P_step, IH.
Qed.

Lemma responseLoop_invariant (P : Service -> Service -> Prop)
  (P_refl : forall s, P s s)
  (P_step : forall p e s s', P (recordFailure p e s) s' -> P s s')
  (api : API) (a b : string) (ps : list string) (s : Service) :
  P s (snd (responseLoop api a b ps s)).
Proof.
  revert s. induction ps as [|p ps IH]; intros s; simpl; [apply P_refl|].
  destruct (responseAttempt api a b p s) as [v|e]; simpl; [apply P_refl|].
  destruct (catchBlock p e s) as [s1|e1] eqn:C; simpl; [|apply P_refl].
  apply catchBlock_inv in C. subst s1. eapply P_step, IH.
Qed.

Lemma entry_points_invariant (P : Service -> Service -> Prop)
  (P_refl : forall s, P s s)
  (P_step : forall p e s s', P (recordFailure p e s) s' -> P s s')
  (api : API) (a b : string) (s : Service) :
  P s (snd (generateFinalSummary api a b s)) /\
  P s (snd (analyzeLegalSituation api a b s)) /\
  P s (snd (generateResponse api a b s)).
Proof.
  unfold generateFinalSummary, analyzeLegalSituation, generateResponse. simpl.
  destruct (map fst (sortBy byPriority (filter usable (providers s)))) as [|p ps].
  - simpl. auto.
  - repeat split;
      [apply summaryLoop_invariant | apply analysisLoop_invariant
       | apply responseLoop_invariant]; assumption.
Qed.

(** Nothing the service does adds, removes, reorders, enables, disables or
    reprioritises a provider: only [available] ever changes. *)
Theorem configuration_is_invariant (api : API) (a b : string) (s : Service) :
  configuration (snd (generateFinalSummary api a b s)) = configuration s /\
  configuration (snd (analyzeLegalSituation api a b s)) = configuration s /\
  configuration (snd (generateResponse api a b s)) = configuration s /\
  (forall p d, configuration (markProviderUnavailable p d s) = configuration s) /\
  (forall t, configuration (advance t s) = configuration s) /\
  configuration (snd (getProviderStatus s)) = configuration s.
Proof.
  destruct (entry_points_invariant
              (fun s s' => configuration s' = configuration s)
              (fun s => eq_refl)
              (fun p e s s' H =>
                 eq_trans H (configuration_recordFailure p e s))
              api a b s) as [H1 [H2 H3]].
  repeat split; try assumption.
  - intros p d. apply configuration_mark.
  - intros t. apply configuration_advance.
Qed.

Lemma lastError_recordFailure (p : string) (e : JSError) (s : Service) :
  lastError (recordFailure p e s) = assign p (message e) (lastError s).
Proof. rewrite recordFailure_eq, lastError_mark. reflexivity. Qed.

Lemma lastError_advance (t : Z) (s : Service) :
  lastError (advance t s) = lastError s.
Proof. exact (lastError_runTimers _ s). Qed.

(** [lastError] is never cleared: a key that has an entry keeps one through
    every call, successful or not, and neither marking nor the passage of
    time touches the map. *)
Theorem lastError_is_never_cleared (api : API) (a b : string) (s : Service) :
  (forall k, lookup k (lastError s) <> None ->
     lookup k (lastError (snd (generateFinalSummary api a b s))) <> None /\
     lookup k (lastError (snd (analyzeLegalSituation api a b s))) <> None /\
     lookup k (lastError (snd (generateResponse api a b s))) <> None) /\
  (forall p d, lastError (markProviderUnavailable p d s) = lastError s) /\
  (forall t, lastError (advance t s) = lastError s) /\
  lastError (snd (getProviderStatus s)) = lastError s.
Proof.
  split; [|split; [|split]].
  - intros k Hk.
    destruct (entry_points_invariant
                (fun s s' => lookup k (lastError s) <> None ->
                             lookup k (lastError s') <> None)
                (fun s H => H)) with (api := api) (a := a) (b := b) (s := s)
      as [H1 [H2 H3]]; [|now auto].
    intros p e s0 s' H H0. apply H. rewrite lastError_recordFailure.
    destruct (String.eqb p k) eqn:E.
    + apply String.eqb_eq in E. subst p. now rewrite lookup_assign_same.
    + apply String.eqb_neq in E. now rewrite lookup_assign_other.
  - intros p d. apply lastError_mark.
  - intros t. apply lastError_advance.
  - reflexivity.
Qed.

(** [generateResponse] always resolves, and to a string that is not empty:
    a provider's validated reply or one of the two apologies. *)
Theorem generateResponse_always_replies
  (api : API) (userMessage context : string) (s : Service) :
  exists reply s',
    generateResponse api userMessage context s = (Ok (JStr reply), s') /\
    reply <> EmptyString.
Proof.
  unfold generateResponse.
  pose proof (all_listed_registered s) as Hall. simpl in Hall |- *.
  destruct (map fst (sortBy byPriority (filter usable (providers s)))) as [|p ps].
  - exists noServiceReply, s. split; [reflexivity | discriminate].
  - exact (responseLoop_replies api userMessage context (p :: ps) s Hall).
Qed.


(* ------------------------------------------------------------------ *)
(** ** Results are never [null] *)

Lemma normalizeNextAction_not_nullish (parsed v : JSValue) :
  normalizeNextAction parsed = Ok v -> isNullish v = false.
Proof.
  unfold normalizeNextAction.
  destruct parsed; try discriminate;
    destruct (ToBoolean _ && typeofObject _); intros [= <-]; reflexivity.
Qed.

Lemma parsesTo_not_nullish (text : string) (v : JSValue) :
  parsesTo text = Some v -> isNullish v = false.
Proof.
  unfold parsesTo. destruct (parseJSON text) as [p|]; simpl; [|discriminate].
  destruct (normalizeNextAction p) eqn:N; [|discriminate].
  intros [= <-]. exact (normalizeNextAction_not_nullish _ _ N).
Qed.

Lemma extractJSON_not_nullish (text v : JSValue) :
  _extractJSON text = Ok v -> isNullish v = false.
Proof.
  unfold _extractJSON.
  destruct (parseJSON (ToString text)) as [p|] eqn:PJ; simpl.
  - destruct (normalizeNextAction p) eqn:N.
    + intros [= <-]. exact (normalizeNextAction_not_nullish _ _ N).
    + destruct text; try discriminate. intros [= <-].
      rewrite recoverJSON_candidate.
      destruct (candidate s) as [c|]; [|reflexivity].
      destruct (parsesTo c) eqn:Pc; [|reflexivity].
      exact (parsesTo_not_nullish _ _ Pc).
  - destruct text; try discriminate. intros [= <-].
    rewrite recoverJSON_candidate.
    destruct (candidate s) as [c|]; [|reflexivity].
    destruct (parsesTo c) eqn:Pc; [|reflexivity].
    exact (parsesTo_not_nullish _ _ Pc).
Qed.

Lemma summaryLoop_not_nullish
  (api : API) (a b : string) (ps : list string) (s s' : Service) (r : JSValue) :
  summaryLoop api a b ps s = (Ok r, s') -> isNullish r = false.
Proof.
  revert s. induction ps as [|p ps IH]; intros s; simpl; [discriminate|].
  destruct (summaryAttempt api a b p s) as [[v|]|e] eqn:A.
  - intros [= <- _]. unfold summaryAttempt in A.
    destruct (providerName p s); simpl in A; [|discriminate].
    destruct (String.eqb p "groq"); [|discriminate].
    destruct (groqCompletion api _ s) as [text|]; simpl in A; [|discriminate].
    destruct text as [| | | | t | |]; try discriminate.
    destruct (_extractJSON (JStr t)) as [summary|] eqn:X; simpl in A;
      [|discriminate].
    apply extractJSON_not_nullish in X.
    destruct summary; try discriminate; now injection A as <-.
  - apply IH.
  - destruct (catchBlock p e s) as [s1|]; [apply IH | discriminate].
Qed.

Lemma analysisLoop_not_nullish
  (api : API) (a b : string) (ps : list string) (s s' : Service) (r : JSValue) :
  analysisLoop api a b ps s = (Ok r, s') -> isNullish r = false.
Proof.
  revert s. induction ps as [|p ps IH]; intros s; simpl; [discriminate|].
  destruct (analysisAttempt api a b p s) as [v|e] eqn:A.
  - intros [= <- _]. unfold analysisAttempt, _analyzeLegalWithProvider in A.
    destruct (providerName p s); simpl in A; [|discriminate].
    destruct (String.eqb p "groq"); [|discriminate].
    destruct (groqCompletion api _ s) as [content|]; simpl in A; [|discriminate].
    exact (extractJSON_not_nullish _ _ A).
  - destruct (catchBlock p e s) as [s1|]; [apply IH | discriminate].
Qed.

(** Neither structured entry point ever resolves to [null] or [undefined]:
    a [null] parsed from the model's text is turned into the fixed literal
    (or, when the completion itself has no text, into a provider failure). *)
Theorem structured_results_are_not_null
  (api : API) (a b : string) (s s' : Service) (r : JSValue) :
  (generateFinalSummary api a b s = (Ok r, s') -> isNullish r = false) /\
  (analyzeLegalSituation api a b s = (Ok r, s') -> isNullish r = false) /\
  _extractJSON (JStr "null") = Ok fallbackAnalysis.
Proof.
  unfold generateFinalSummary, analyzeLegalSituation. simpl.
  destruct (map fst (sortBy byPriority (filter usable (providers s)))) as [|p ps].
  - split; [discriminate|]. split; [discriminate | reflexivity].
  - split; [apply summaryLoop_not_nullish|].
    split; [apply analysisLoop_not_nullish | reflexivity].
Qed.

(* ------------------------------------------------------------------ *)
(** ** A service without a key *)

Lemma none_listed_when_disabled (s : Service) :
  (forall e, In e (providers s) -> enabled (snd e) = false) ->
  fst (getAvailableProviders s) = [].
Proof.
  intros H. rewrite listed_entries.
  assert (E : filter usable (providers s) = []).
  { induction (providers s) as [|e l IH]; [reflexivity|]. simpl.
    unfold usable at 1. rewrite (H e (or_introl eq_refl)). simpl.
    apply IH. intros e' Hin. apply H. now right. }
  now rewrite E.
Qed.

Lemma enabled_from_configuration (s s0 : Service) :
  configuration s = configuration s0 ->
  (forall e, In e (providers s0) -> enabled (snd e) = false) ->
  forall e, In e (providers s) -> enabled (snd e) = false.
Proof.
  unfold configuration. intros Hc H0 e Hin.
  apply (in_map (fun e => (fst e, (name (snd e), client (snd e), enabled (snd e),
                                   priority (snd e))))) in Hin.
  rewrite Hc in Hin. apply in_map_iff in Hin.
  destruct Hin as [e0 [E Hin0]]. injection E as _ _ _ He _.
  rewrite <- He. now apply H0.
Qed.

(** Built without a key, or with an empty one, the service never reaches
    the API: in every state with the configuration of that service (every
    state the service can get to) the three entry points answer on their
    no-provider path, whatever the API would do, and change nothing. *)
Theorem without_key_no_call_is_made
  (key : option string) (api : API) (a b : string) (s : Service) :
  key = None \/ key = Some EmptyString ->
  configuration s = configuration (newService key) ->
  generateResponse api a b s = (Ok (JStr noServiceReply), s) /\
  generateFinalSummary api a b s =
    (Throw (Error "No AI providers available for summarization"), s) /\
  analyzeLegalSituation api a b s = (Throw (Error "No AI providers available"), s).
Proof.
  intros Hkey Hc. apply no_provider_outcomes.
  apply none_listed_when_disabled.
  apply (enabled_from_configuration s (newService key) Hc).
  intros e Hin. destruct Hkey as [-> | ->]; simpl in Hin;
    destruct Hin as [<- | []]; reflexivity.
Qed.

Lemma without_key_no_call_is_made_witness :
  configuration (advance 5 (newService None)) = configuration (newService None) /\
  generateResponse (resolving (JStr "Kumusta")) "hello" "" (advance 5 (newService None)) =
    (Ok (JStr noServiceReply), advance 5 (newService None)).
Proof.
  split; [reflexivity|].
  apply (without_key_no_call_is_made None (resolving (JStr "Kumusta")) "hello" ""
           (advance 5 (newService None)) (or_introl eq_refl) eq_refl).
Defined.

(* ------------------------------------------------------------------ *)
(** ** The diagnostic snapshot *)

Lemma lastErrorOf_recordFailure (p : string) (e : JSError) (s : Service) :
  lastErrorOf p (recordFailure p e s) =
  match message e with
  | Some m => if isEmpty m then JNull else JStr m
  | None => JNull
  end.
Proof.
  unfold lastErrorOf. rewrite lastError_recordFailure, lookup_assign_same.
  destruct (message e) as [m|]; [|reflexivity]. now destruct m.
Qed.

(** [getProviderStatus] lists every entry of the registry, usable or not, in
    registry order, and changes nothing.  After a failed attempt the row of
    the failed provider shows it unavailable, with the recorded message, or
    [null] when the error had no message or an empty one, and with name,
    [enabled] and priority as configured. *)
Theorem status_reports_failure
  (p : string) (e : JSError) (s : Service) (config : ProviderConfig) :
  lookup p (providers s) = Some config ->
  exists rows,
    getProviderStatus (recordFailure p e s) = (JArr rows, recordFailure p e s) /\
    map (fun row => getProp row "provider") rows = map JStr (map fst (providers s)) /\
    In (JObj [ ("provider", JStr p);
               ("name", JStr (name config));
               ("enabled", JBool (enabled config));
               ("available", JBool false);
               ("priority", JNum (priority config) 0);
               ("lastError", match message e with
                             | Some m => if isEmpty m then JNull else JStr m
                             | None => JNull
                             end) ]) rows.
Proof.
  intros Hc. eexists. split; [reflexivity|]. split.
  - rewrite map_map. cbn [statusRow getProp lookup String.eqb].
    rewrite <- (keys_recordFailure p e s), map_map. reflexivity.
  - assert (L : lookup p (providers (recordFailure p e s)) =
                Some (setAvailable false config)).
    { now rewrite lookup_recordFailure, String.eqb_refl, Hc. }
    apply lookup_In in L.
    apply (in_map (statusRow (recordFailure p e s))) in L.
    unfold statusRow at 1 in L. cbn [fst snd setAvailable name enabled available priority] in L.
    rewrite lastErrorOf_recordFailure in L. exact L.
Qed.

Lemma status_reports_failure_witness :
  lookup "groq" (providers configured) =
    Some {| name := "Groq (Llama)"; client := true; enabled := true;
            priority := 1; available := true |} /\
  exists rows,
    getProviderStatus (recordFailure "groq" (Error "Rate limit reached") configured) =
      (JArr rows, recordFailure "groq" (Error "Rate limit reached") configured) /\
    map (fun row => getProp row "provider") rows = [JStr "groq"] /\
    In (JObj [ ("provider", JStr "groq");
               ("name", JStr "Groq (Llama)");
               ("enabled", JBool true);
               ("available", JBool false);
               ("priority", JNum 1 0);
               ("lastError", JStr "Rate limit reached") ]) rows.
Proof.
  split; [reflexivity|].
  exact (status_reports_failure "groq" (Error "Rate limit reached") configured _
           eq_refl).
Defined.

(* ------------------------------------------------------------------ *)
(** ** Which providers are called, and what exhaustion leaves *)

Lemma summaryLoop_passes_over
  (api : API) (a b : string) (ps : list string) (s : Service) :
  ~ In "groq" ps ->
  Forall (fun p => registered p s) ps ->
  summaryLoop api a b ps s =
  (Throw (Error ("Failed to generate summary with all providers. Last errors: "
                   ++ JSON_stringify (lastError s))), s).
Proof.
  induction ps as [|p ps IH]; intros Hnot Hall; simpl; [reflexivity|].
  inversion Hall as [|? ? Hp Hps]; subst.
  assert (Hne : String.eqb p "groq" = false).
  { apply String.eqb_neq. intros ->. apply Hnot. now left. }
  unfold summaryAttempt.
  destruct (providerName_registered _ _ Hp) as [n ->]. simpl. rewrite Hne.
  apply IH; [|exact Hps]. intros H. apply Hnot. now right.
Qed.

(** [generateFinalSummary] calls the API for [groq] and for no other key.
    When [groq] is not among the available providers it raises without a
    call, whatever other providers are available: the result does not depend
    on the API, the state is unchanged (no provider is marked, nothing is
    recorded), and the error quotes [lastError] as it was. *)
Theorem summary_without_groq_makes_no_call
  (api : API) (a b : string) (s : Service) :
  ~ isListed "groq" s ->
  generateFinalSummary api a b s =
  (Throw (Error
     match fst (getAvailableProviders s) with
     | [] => "No AI providers available for summarization"
     | _ :: _ =>
         "Failed to generate summary with all providers. Last errors: "
         ++ JSON_stringify (lastError s)
     end), s).
Proof.
  intros Hnot. unfold generateFinalSummary.
  pose proof (all_listed_registered s) as Hall.
  unfold isListed in Hnot. simpl in Hnot, Hall |- *.
  destruct (map fst (sortBy byPriority (filter usable (providers s)))) as [|p ps];
    [reflexivity|].
  now apply summaryLoop_passes_over.
Qed.

Lemma summary_without_groq_makes_no_call_witness :
  ~ isListed "groq" geminiOnly /\
  fst (getAvailableProviders geminiOnly) = ["gemini"] /\
  generateFinalSummary (resolving (JStr "{}")) "transcript" "labor" geminiOnly =
  (Throw (Error ("Failed to generate summary with all providers. Last errors: "
                   ++ jsonText "{'groq':'stale'}")), geminiOnly).
Proof.
  assert (H : ~ isListed "groq" geminiOnly).
  { unfold isListed. simpl. intros [E | []]. discriminate. }
  split; [exact H|]. split; [reflexivity|].
  exact (summary_without_groq_makes_no_call (resolving (JStr "{}"))
           "transcript" "labor" geminiOnly H).
Defined.

Lemma wellFormed_recordFailure (p : string) (e : JSError) (s : Service) :
  wellFormed s -> wellFormed (recordFailure p e s).
Proof. unfold wellFormed. now rewrite keys_recordFailure. Qed.

Lemma isListed_recordFailure (k p : string) (e : JSError) (s : Service) :
  wellFormed s ->
  isListed k (recordFailure p e s) -> isListed k s /\ k <> p.
Proof.
  intros Hwf H.
  apply (isListed_iff _ _ (wellFormed_recordFailure p e s Hwf)) in H.
  destruct H as [c [Hc [He Ha]]]. rewrite lookup_recordFailure in Hc.
  destruct (String.eqb p k) eqn:E.
  - destruct (lookup k (providers s)); [|discriminate].
    injection Hc as <-. discriminate.
  - apply String.eqb_neq in E. split; [|congruence].
    apply (isListed_iff _ _ Hwf). now exists c.
Qed.

Lemma nothing_listed (s : Service) (ps : list string) :
  (forall k, isListed k s -> In k ps) -> ps = [] ->
  fst (getAvailableProviders s) = [].
Proof.
  intros H ->. unfold isListed in H.
  destruct (fst (getAvailableProviders s)) as [|x l]; [reflexivity|].
  destruct (H x (or_introl eq_refl)).
Qed.

Lemma analysisLoop_exhausted
  (api : API) (a b : string) (ps : list string) (s s' : Service) (e : JSError) :
  wellFormed s ->
  Forall (fun p => registered p s) ps ->
  (forall k, isListed k s -> In k ps) ->
  analysisLoop api a b ps s = (Throw e, s') ->
  fst (getAvailableProviders s') = [].
Proof.
  revert s. induction ps as [|p ps IH]; intros s Hwf Hall Hsub; simpl.
  - intros [= _ <-]. now apply (nothing_listed s []).
  - inversion Hall as [|? ? Hp Hps]; subst.
    destruct (analysisAttempt api a b p s) as [v|err]; [discriminate|].
    rewrite (catchBlock_registered _ _ _ Hp).
    apply IH.
    + now apply wellFormed_recordFailure.
    + now apply Forall_registered_recordFailure.
    + intros k Hk. apply (isListed_recordFailure _ _ _ _ Hwf) in Hk.
      destruct Hk as [Hk Hne]. destruct (Hsub k Hk) as [E | Hin];
        [congruence | exact Hin].
Qed.

Lemma responseAttempt_rejected
  (api : API) (a b p : string) (s : Service) :
  (forall req, exists e, api req = Rejected e) ->
  exists e, responseAttempt api a b p s = Throw e.
Proof.
  intros Hrej. unfold responseAttempt, _generateResponseWithProvider, groqCompletion.
  destruct (providerName p s); simpl; [|eauto].
  destruct (String.eqb p "groq"); simpl; [|eauto].
  destruct (lookup "groq" (providers s)) as [c|]; simpl; [|eauto].
  destruct (client c); simpl; [|eauto].
  destruct (Hrej (ChatRequest a b)) as [e ->]. simpl. eauto.
Qed.

Lemma responseLoop_exhausted
  (api : API) (a b : string) (ps : list string) (s : Service) :
  (forall req, exists e, api req = Rejected e) ->
  wellFormed s ->
  Forall (fun p => registered p s) ps ->
  (forall k, isListed k s -> In k ps) ->
  fst (responseLoop api a b ps s) = Ok (JStr allFailedReply) /\
  fst (getAvailableProviders (snd (responseLoop api a b ps s))) = [].
Proof.
  intros Hrej. revert s.
  induction ps as [|p ps IH]; intros s Hwf Hall Hsub; simpl.
  - split; [reflexivity | now apply (nothing_listed s [])].
  - inversion Hall as [|? ? Hp Hps]; subst.
    destruct (responseAttempt_rejected api a b p s Hrej) as [err ->].
    rewrite (catchBlock_registered _ _ _ Hp).
    apply IH.
    + now apply wellFormed_recordFailure.
    + now apply Forall_registered_recordFailure.
    + intros k Hk. apply (isListed_recordFailure _ _ _ _ Hwf) in Hk.
      destruct Hk as [Hk Hne]. destruct (Hsub k Hk) as [E | Hin];
        [congruence | exact Hin].
Qed.

(** Exhaustion empties the available list.  When [analyzeLegalSituation]
    raises, and when [generateResponse] runs against an API that rejects
    every request, every provider that was available has been marked, so
    until a cooldown timer runs the next call of either takes its
    no-provider path without reaching the API. *)
Theorem exhaustion_leaves_no_provider
  (api : API) (a b : string) (s : Service) :
  wellFormed s ->
  (forall e s',
      analyzeLegalSituation api a b s = (Throw e, s') ->
      fst (getAvailableProviders s') = [] /\
      forall api' a' b',
        analyzeLegalSituation api' a' b' s' =
          (Throw (Error "No AI providers available"), s') /\
        generateResponse api' a' b' s' = (Ok (JStr noServiceReply), s')) /\
  ((forall req, exists e, api req = Rejected e) ->
   fst (getAvailableProviders (snd (generateResponse api a b s))) = [] /\
   (fst (generateResponse api a b s) = Ok (JStr noServiceReply) \/
    fst (generateResponse api a b s) = Ok (JStr allFailedReply))).
Proof.
  intros Hwf. split.
  - intros e s' H.
    assert (E : fst (getAvailableProviders s') = []).
    { unfold analyzeLegalSituation in H.
      pose proof (all_listed_registered s) as Hall.
      assert (Hsub : forall k, isListed k s -> In k (fst (getAvailableProviders s)))
        by (intros k Hk; exact Hk).
      simpl in H, Hall, Hsub.
      destruct (map fst (sortBy byPriority (filter usable (providers s))))
        as [|p ps] eqn:L.
      - injection H as _ <-. simpl. now rewrite L.
      - now apply (analysisLoop_exhausted api a b (p :: ps) s s' e). }
    split; [exact E|]. intros api' a' b'.
    destruct (no_provider_outcomes api' a' b' s' E) as [H1 [_ H3]]. now split.
  - intros Hrej. unfold generateResponse.
    pose proof (all_listed_registered s) as Hall.
    assert (Hsub : forall k, isListed k s -> In k (fst (getAvailableProviders s)))
      by (intros k Hk; exact Hk).
    simpl in Hall, Hsub |- *.
    destruct (map fst (sortBy byPriority (filter usable (providers s))))
      as [|p ps] eqn:L.
    + simpl. rewrite L. split; [reflexivity | now left].
    + destruct (responseLoop_exhausted api a b (p :: ps) s Hrej Hwf Hall Hsub)
        as [H1 H2].
      split; [exact H2 | now right].
Qed.

Lemma exhaustion_leaves_no_provider_witness :
  wellFormed configured /\
  fst (getAvailableProviders configured) = ["groq"] /\
  fst (getAvailableProviders
         (snd (generateResponse (rejecting (Error "boom")) "hello" "" configured))) = [].
Proof.
  assert (Hwf : wellFormed configured).
  { unfold wellFormed. simpl. constructor; [intros [] | constructor]. }
  split; [exact Hwf|]. split; [reflexivity|].
  destruct (exhaustion_leaves_no_provider (rejecting (Error "boom")) "hello" ""
              configured Hwf) as [_ H].
  destruct H as [H _]; [|exact H].
  intros req. now exists (Error "boom").
Defined.

(* ------------------------------------------------------------------ *)
(** ** Cooldowns *)

(** After a failed attempt on a provider that is enabled and has no other
    restoration pending, the provider is off the available list for exactly
    the cooldown of the failure, one hour for a balance error and one minute
    otherwise, and on it from then on, provided nothing else fails
    meanwhile. *)
Theorem cooldown_after_failure
  (p : string) (e : JSError) (s : Service) (config : ProviderConfig) :
  wellFormed s ->
  lookup p (providers s) = Some config ->
  enabled config = true ->
  (forall tm, In tm (timers s) -> target tm <> p) ->
  forall t,
    isListed p (advance t (recordFailure p e s)) <->
    now s + (if _isBalanceError e then 3600000 else 60000) <= t.
Proof.
  intros Hwf Hc Hen Hfree t.
  assert (Hreg : registered p s) by (unfold registered; now rewrite Hc).
  destruct (recordFailure_effect p e s Hreg) as [_ [_ [_ [_ Ht]]]].
  assert (L : lookup p (providers (recordFailure p e s)) =
              Some (setAvailable false config)).
  { now rewrite lookup_recordFailure, String.eqb_refl, Hc. }
  assert (Hwf' : wellFormed (advance t (recordFailure p e s))).
  { now apply wellFormed_advance, wellFormed_recordFailure. }
  change (if _isBalanceError e then 3600000 else 60000) with (cooldownOf e).
  split.
  - intros Hl. destruct (Z.le_gt_cases (now s + cooldownOf e) t) as [H|H];
      [exact H | exfalso].
    apply (isListed_iff _ _ Hwf') in Hl. destruct Hl as [c [Hl [_ Ha]]].
    rewrite advance_untouched, L in Hl.
    + injection Hl as <-. discriminate.
    + intros tm Hin Htm. rewrite Ht in Hin. apply in_app_or in Hin.
      destruct Hin as [Hin | [<- | []]]; [|exact H].
      exfalso. exact (Hfree tm Hin Htm).
  - intros Hle. apply (isListed_iff _ _ Hwf').
    exists (setAvailable true (setAvailable false config)). split; [|now split].
    rewrite advance_restored, L; [reflexivity|].
    exists {| fireAt := now s + cooldownOf e; target := p |}.
    rewrite Ht. split; [apply in_or_app; right; now left | now split].
Qed.

Lemma cooldown_after_failure_witness :
  wellFormed configured /\
  (isListed "groq"
     (advance 3600000 (recordFailure "groq" (Error "Insufficient balance") configured)) <->
   now configured + (if _isBalanceError (Error "Insufficient balance")
                     then 3600000 else 60000) <= 3600000).
Proof.
  assert (Hwf : wellFormed configured).
  { unfold wellFormed. simpl. constructor; [intros [] | constructor]. }
  split; [exact Hwf|].
  apply (cooldown_after_failure "groq" (Error "Insufficient balance") configured _
           Hwf eq_refl eq_refl).
  intros tm [].
Defined.

(* ------------------------------------------------------------------ *)
(** ** Marking removes one key from the available list *)

Lemma insertBy_all_above {A : Type} (key : A -> Z) (x : A) (l : list A) :
  Forall (fun z => key x <= key z) l ->
  insertBy (fun a b => key a - key b) x l = x :: l.
Proof.
  destruct l as [|y l]; [reflexivity|]. intros H. simpl.
  inversion H as [|? ? Hy _]; subst.
  destruct (key x - key y <=? 0) eqn:E; [reflexivity|].
  apply Z.leb_gt in E. lia.
Qed.

Lemma filter_insertBy {A : Type} (key : A -> Z) (g : A -> bool) (x : A) (l : list A) :
  StronglySorted (fun a b => key a <= key b) l ->
  filter g (insertBy (fun a b => key a - key b) x l) =
  if g x then insertBy (fun a b => key a - key b) x (filter g l) else filter g l.
Proof.
  induction 1 as [|y l Hs IH Hall]; simpl.
  - now destruct (g x).
  - destruct (key x - key y <=? 0) eqn:E.
    + apply Z.leb_le in E. simpl. destruct (g x) eqn:Gx; [|reflexivity].
      symmetry. apply insertBy_all_above.
      assert (F : Forall (fun z => key x <= key z) (y :: l)).
      { constructor; [lia|]. eapply Forall_impl; [|exact Hall].
        cbv beta. intros; lia. }
      apply Forall_forall. intros z Hz.
      apply (proj1 (Forall_forall _ _) F z).
      destruct (g y); [destruct Hz as [<- | Hz]; [now left | right] | right];
        apply filter_In in Hz; exact (proj1 Hz).
    + simpl. rewrite IH. destruct (g y) eqn:Gy, (g x) eqn:Gx; simpl;
        try rewrite E; reflexivity.
Qed.

(** Filtering commutes with the stable sort. *)
Lemma filter_sortBy {A : Type} (key : A -> Z) (g : A -> bool) (l : list A) :
  filter g (sortBy (fun a b => key a - key b) l) =
  sortBy (fun a b => key a - key b) (filter g l).
Proof.
  induction l as [|x l IH]; [reflexivity|]. simpl.
  rewrite filter_insertBy by apply sortBy_sorted.
  rewrite IH. now destruct (g x).
Qed.

Lemma filter_usable_assign (p : string) (c : ProviderConfig)
  (l : list (string * ProviderConfig)) :
  NoDup (map fst l) -> lookup p l = Some c ->
  filter usable (assign p (setAvailable false c) l) =
  filter (fun e => negb (String.eqb (fst e) p)) (filter usable l).
Proof.
  induction l as [|[k c'] l IH]; simpl; intros Hnd Hl; [discriminate|].
  inversion Hnd as [|? ? Hnotin Hnd']; subst.
  destruct (String.eqb p k) eqn:E.
  - apply String.eqb_eq in E. subst k. injection Hl as ->.
    simpl. unfold usable at 1. simpl. rewrite andb_false_r.
    assert (R : forall m : list (string * ProviderConfig),
                ~ In p (map fst m) ->
                filter (fun e => negb (String.eqb (fst e) p)) m = m).
    { induction m as [|[k0 c0] m IHm]; [reflexivity|]. simpl. intros Hn.
      destruct (String.eqb k0 p) eqn:E0.
      - apply String.eqb_eq in E0. subst k0. exfalso. apply Hn. now left.
      - simpl. rewrite IHm; [reflexivity|]. intros H. apply Hn. now right. }
    assert (Hn' : ~ In p (map fst (filter usable l))).
    { intros H. apply Hnotin. apply in_map_iff in H.
      destruct H as [y [Hy Hin]]. apply filter_In in Hin.
      apply in_map_iff. exists y. now split. }
    destruct (usable (p, c)); simpl.
    + rewrite String.eqb_refl. simpl. now rewrite R.
    + now rewrite R.
  - simpl. destruct (usable (k, c')) eqn:U; simpl.
    + rewrite String.eqb_sym, E. simpl. now rewrite IH.
    + now apply IH.
Qed.

Lemma map_fst_filter_key {A : Type} (g : string -> bool) (l : list (string * A)) :
  map fst (filter (fun e => g (fst e)) l) = filter g (map fst l).
Proof.
  induction l as [|[k v] l IH]; [reflexivity|]. simpl.
  destruct (g k); simpl; now rewrite IH.
Qed.

Lemma filter_sortBy_byPriority (g : string * ProviderConfig -> bool)
  (l : list (string * ProviderConfig)) :
  filter g (sortBy byPriority l) = sortBy byPriority (filter g l).
Proof. exact (filter_sortBy (fun e => priority (snd e)) g l). Qed.

(** [markProviderUnavailable] takes exactly its key off the available list:
    the other providers stay listed, in the same order. *)
Theorem marking_removes_one_key
  (p : string) (d : option Z) (s : Service) :
  wellFormed s ->
  fst (getAvailableProviders (markProviderUnavailable p d s)) =
  filter (fun k => negb (String.eqb k p)) (fst (getAvailableProviders s)).
Proof.
  intros Hwf. rewrite !listed_entries.
  rewrite <- (map_fst_filter_key (fun k => negb (String.eqb k p))).
  rewrite filter_sortBy_byPriority.
  unfold markProviderUnavailable.
  destruct (lookup p (providers s)) as [c|] eqn:L; simpl.
  - now rewrite (filter_usable_assign p c _ Hwf L).
  - f_equal. f_equal. symmetry.
    assert (R : forall m : list (string * ProviderConfig),
                lookup p m = None ->
                filter (fun e => negb (String.eqb (fst e) p)) (filter usable m) =
                filter usable m).
    { induction m as [|[k0 c0] m IHm]; [reflexivity|]. simpl.
      destruct (String.eqb p k0) eqn:E0; [discriminate|]. intros Hm.
      destruct (usable (k0, c0)); simpl; [|now apply IHm].
      rewrite String.eqb_sym, E0. simpl. now rewrite IHm. }
    now apply R.
Qed.

Lemma marking_removes_one_key_witness :
  wellFormed geminiOnly /\
  fst (getAvailableProviders (markProviderUnavailable "gemini" None geminiOnly)) =
  filter (fun k => negb (String.eqb k "gemini")) (fst (getAvailableProviders geminiOnly)).
Proof.
  assert (Hwf : wellFormed geminiOnly).
  { unfold wellFormed. simpl.
    constructor; [intros [E | []]; discriminate|].
    constructor; [intros [] | constructor]. }
  split; [exact Hwf|].
  exact (marking_removes_one_key "gemini" None geminiOnly Hwf).
Defined.

(* ------------------------------------------------------------------ *)
(** ** What [_extractJSON] recovers *)

Lemma parsesTo_None_extract (text : string) :
  parsesTo text = None -> _extractJSON (JStr text) = Ok (recoverJSON text).
Proof.
  unfold parsesTo, _extractJSON. cbn [ToString].
  now destruct (parsed <- parseJSON text ;; normalizeNextAction parsed).
Qed.

Lemma afterFirst_eq (needle s : string) :
  afterFirst needle s =
  if startsWith s needle then Some (drop (String.length needle) s)
  else
    match s with
    | EmptyString => None
    | String _ r => afterFirst needle r
    end.
Proof. destruct s; reflexivity. Qed.









Lemma afterFirst_absent (needle s : string) :
  includes s needle = false -> afterFirst needle s = None.
Proof.
  induction s as [|c s IH]; intros H; rewrite afterFirst_eq.
  - destruct needle; [discriminate | reflexivity].
  - rewrite includes_cons in H. apply orb_false_iff in H.
    destruct H as [-> H]. now apply IH.
Qed.

Lemma matchJsonFence_absent (text : string) :
  includes text "```json" = false -> matchJsonFence text = None.
Proof.
  intros H. unfold matchJsonFence. now rewrite (afterFirst_absent _ _ H).
Qed.


Lemma fromFirst_absent (c : ascii) (s : string) :
  hasChar c s = false -> fromFirst c s = None.
Proof.
  induction s as [|x s IH]; simpl; intros H; [reflexivity|].
  apply orb_false_iff in H. destruct H as [-> H]. now apply IH.
Qed.

Lemma uptoLast_absent (c : ascii) (s : string) :
  hasChar c s = false -> uptoLast c s = None.
Proof.
  induction s as [|x s IH]; simpl; intros H; [reflexivity|].
  apply orb_false_iff in H. destruct H as [Hx H]. now rewrite (IH H), Hx.
Qed.





(** A text that is not JSON, opens no [json] fence and lacks an opening or a
    closing brace yields the fixed literal. *)
Theorem text_without_candidate_gives_fallback (text : string) :
  parsesTo text = None ->
  includes text "```json" = false ->
  hasChar "{" text = false \/ hasChar "}" text = false ->
  _extractJSON (JStr text) = Ok fallbackAnalysis.
Proof.
  intros Hwhole Hf Hb.
  rewrite (parsesTo_None_extract _ Hwhole), recoverJSON_candidate.
  unfold candidate, jsonFenceInterior, greedySpan, matchBraces.
  rewrite (matchJsonFence_absent _ Hf).
  destruct Hb as [Hb | Hb].
  - now rewrite (fromFirst_absent _ _ Hb).
  - destruct (fromFirst "{" text) as [s|] eqn:F; [|reflexivity].
    assert (Hs : hasChar "}" s = false).
    { clear Hwhole Hf. revert s F. induction text as [|x text IH]; simpl;
        intros s F; [discriminate|].
      simpl in Hb. apply orb_false_iff in Hb. destruct Hb as [Hx Hb].
      destruct (Ascii.eqb x "{").
      - injection F as <-. simpl. now rewrite Hx, Hb.
      - now apply IH. }
    now rewrite (uptoLast_absent _ _ Hs).
Qed.

Lemma text_without_candidate_gives_fallback_witness :
  parsesTo "Pasensya na, hindi ko alam." = None /\
  _extractJSON (JStr "Pasensya na, hindi ko alam.") = Ok fallbackAnalysis.
Proof.
  split; [reflexivity|].
  exact (text_without_candidate_gives_fallback "Pasensya na, hindi ko alam."
           eq_refl eq_refl (or_introl eq_refl)).
Defined.



(* ------------------------------------------------------------------ *)
(** ** Edges of the classification *)

Lemma lowerChar_twice (c : ascii) : lowerChar (lowerChar c) = lowerChar c.
Proof. destruct c as [[] [] [] [] [] [] [] []]; reflexivity. Qed.

Lemma toLowerCase_twice (s : string) : toLowerCase (toLowerCase s) = toLowerCase s.
Proof.
  induction s as [|c s IH]; simpl; [reflexivity|].
  now rewrite lowerChar_twice, IH.
Qed.

(** The classification reads [code] only when [status] is falsy: a status
    such as 500 hides a 429 in [code], while without a status that 429
    decides.  The letter case of the message never matters. *)
Theorem classification_edges :
  (forall e c', ToBoolean (status e) = true ->
     _isBalanceError {| message := message e; status := status e; code := c' |} =
     _isBalanceError e) /\
  (forall e, ToBoolean (status e) = false ->
     strictEqualsInt (code e) 429 = true \/ strictEqualsInt (code e) 402 = true ->
     _isBalanceError e = true) /\
  (forall m st c,
     _isBalanceError {| message := Some (toLowerCase m); status := st; code := c |} =
     _isBalanceError {| message := Some m; status := st; code := c |}) /\
  _isBalanceError {| message := Some "Internal error";
                     status := JNum 500 0; code := JNum 429 0 |} = false.
Proof.
  split; [|split; [|split; [|reflexivity]]].
  - intros e c' Hs. unfold _isBalanceError, errorCodeOf, errorMessageOf, js_or.
    simpl. now rewrite Hs.
  - intros e Hs Hc. apply isBalanceError_iff. right. right. right.
    unfold errorCodeOf, js_or. rewrite Hs.
    assert (T : ToBoolean (code e) = true).
    { destruct (code e) as [| | | m x | | |];
        try (destruct Hc; discriminate).
      cbn [ToBoolean strictEqualsInt] in Hc |- *.
      destruct (m =? 0) eqn:Z0; [|reflexivity]. apply Z.eqb_eq in Z0. subst m.
      exfalso. destruct (0 <=? x) eqn:Ex.
      - destruct Hc as [H | H]; apply Z.eqb_eq in H; lia.
      - apply Z.leb_gt in Ex.
        assert (P : 0 < 10 ^ (- x)) by (apply Z.pow_pos_nonneg; lia).
        destruct Hc as [H | H]; apply Z.eqb_eq in H; lia. }
    cbv iota. rewrite T. exact Hc.
  - intros m st c. unfold _isBalanceError, errorMessageOf. simpl.
    now rewrite toLowerCase_twice.
Qed.

(* ================================================================== *)
(** * The server (server.js) *)

(** ** Own properties *)

Lemma lookup_app {A : Type} (k : string) (l1 l2 : list (string * A)) :
  lookup k (l1 ++ l2)%list =
  match lookup k l1 with
  | Some v => Some v
  | None => lookup k l2
  end.
Proof.
  induction l1 as [|[k' v'] l1 IH]; cbn [lookup app]; [reflexivity|].
  destruct (String.eqb k k'); [reflexivity | exact IH].
Qed.

Lemma lookup_insertProp_same (k : string) (v : JSValue) (props : list (string * JSValue)) :
  lookup k props = None -> lookup k (insertProp k v props) = Some v.
Proof.
  induction props as [|[k' v'] props IH]; intros H.
  - cbn [insertProp]. destruct (arrayIndex k); cbn [lookup]; now rewrite String.eqb_refl.
  - cbn [lookup] in H. destruct (String.eqb k k') eqn:E; [discriminate|].
    cbn [insertProp].
    destruct (arrayIndex k) as [i|].
    + destruct (arrayIndex k') as [j|].
      * destruct (j <? i); cbn [lookup]; rewrite ?E, ?String.eqb_refl; auto.
      * cbn [lookup]. now rewrite String.eqb_refl.
    + cbn [lookup]. rewrite E. auto.
Qed.

Lemma lookup_insertProp_other (k k0 : string) (v : JSValue)
  (props : list (string * JSValue)) :
  k <> k0 -> lookup k (insertProp k0 v props) = lookup k props.
Proof.
  intros Hne. apply String.eqb_neq in Hne.
  induction props as [|[k' v'] props IH].
  - cbn [insertProp]. destruct (arrayIndex k0); cbn [lookup]; now rewrite Hne.
  - cbn [insertProp].
    destruct (arrayIndex k0) as [i|].
    + destruct (arrayIndex k') as [j|].
      * destruct (j <? i); cbn [lookup]; rewrite ?Hne, ?IH; reflexivity.
      * cbn [lookup]. now rewrite Hne.
    + cbn [lookup]. now rewrite IH.
Qed.

Lemma lookup_defineProp_same (k : string) (v : JSValue) (props : list (string * JSValue)) :
  lookup k (defineProp k v props) = Some v.
Proof.
  unfold defineProp. destruct (lookup k props) eqn:E.
  - apply lookup_assign_same.
  - now apply lookup_insertProp_same.
Qed.

Lemma lookup_defineProp_other (k k0 : string) (v : JSValue)
  (props : list (string * JSValue)) :
  k <> k0 -> lookup k (defineProp k0 v props) = lookup k props.
Proof.
  intros Hne. unfold defineProp. destruct (lookup k0 props).
  - now apply lookup_assign_other.
  - now apply lookup_insertProp_other.
Qed.

(** After a spread, a name holds the value of the last member of that name
    in the source, or else what it held before. *)
Lemma lookup_spreadInto (k : string) (more props : list (string * JSValue)) :
  lookup k (spreadInto props more) =
  match lookup k (rev more) with
  | Some v => Some v
  | None => lookup k props
  end.
Proof.
  unfold spreadInto. revert props.
  induction more as [|[k0 v0] more IH]; intros props; [reflexivity|].
  cbn [fold_left fst snd rev]. rewrite IH, lookup_app.
  destruct (lookup k (rev more)); [reflexivity|].
  cbn [lookup]. destruct (String.eqb k k0) eqn:E.
  - apply String.eqb_eq in E. subst. apply lookup_defineProp_same.
  - apply String.eqb_neq in E. now apply lookup_defineProp_other.
Qed.

Lemma lookup_notin {A : Type} (k : string) (l : list (string * A)) :
  ~ In k (map fst l) -> lookup k l = None.
Proof.
  induction l as [|[k' v'] l IH]; intros H; [reflexivity|].
  cbn [lookup]. destruct (String.eqb k k') eqn:E.
  - apply String.eqb_eq in E. subst. exfalso. apply H. now left.
  - apply IH. intros HIn. apply H. now right.
Qed.

(** When the names are distinct, the last member of a name is the only one. *)
Lemma lookup_rev {A : Type} (k : string) (l : list (string * A)) :
  NoDup (map fst l) -> lookup k (rev l) = lookup k l.
Proof.
  induction l as [|[k' v'] l IH]; intros H; [reflexivity|].
  inversion H as [|? ? Hnot Hrest]; subst.
  cbn [rev lookup]. rewrite lookup_app, (IH Hrest). cbn [lookup].
  destruct (String.eqb k k') eqn:E.
  - apply String.eqb_eq in E. subst. now rewrite (lookup_notin _ _ Hnot).
  - now destruct (lookup k l).
Qed.

(* ------------------------------------------------------------------ *)
(** ** The chat route *)

Lemma generateResponse_resolves
  (api : API) (userMessage context : string) (s : Service) :
  exists reply s',
    generateResponse api userMessage context s = (Ok (JStr reply), s') /\
    reply <> EmptyString.
Proof.
  unfold generateResponse.
  pose proof (all_listed_registered s) as Hall. simpl in Hall |- *.
  destruct (map fst (sortBy byPriority (filter usable (providers s)))) as [|p ps].
  - exists noServiceReply, s. split; [reflexivity | discriminate].
  - exact (responseLoop_replies api userMessage context (p :: ps) s Hall).
Qed.

(** [POST /api/ai/chat] always answers with status 200 and a [response]
    that is a string and not empty: whatever the request body holds,
    whatever the API does and whether or not the 30 s timer wins the race. *)
Theorem chat_route_always_answers
  (api : API) (aiSettlesFirst : bool) (reqBody : JSValue) (s : Service) :
  exists reply,
    fst (chatRoute api aiSettlesFirst reqBody s)
      = json (JObj [("response", JStr reply)]) /\
    reply <> EmptyString.
Proof.
  assert (Hp : problemReply <> EmptyString) by discriminate.
  assert (Hs : sorryReply <> EmptyString) by discriminate.
  unfold chatRoute.
  destruct reqBody as [| | b | m e | t | items | props];
    try (exists problemReply; split; [reflexivity | exact Hp]);
    try (exists sorryReply; split; [reflexivity | exact Hs]).
  set (body := JObj props).
  destruct (getProp body "context") as [| | b | m e | c | items | ps];
    try (exists problemReply; split; [reflexivity | exact Hp]);
    (destruct (negb (ToBoolean (getProp body "message"))
               || negb (typeofString (getProp body "message")));
     [exists sorryReply; split; [reflexivity | exact Hs]|]);
    match goal with
    | |- context [generateResponse api ?a ?b s] =>
        destruct (generateResponse_resolves api a b s) as (reply & s' & E & Hne);
        rewrite E
    end;
    (destruct aiSettlesFirst;
     [exists reply; split; [reflexivity | exact Hne]
     |exists problemReply; split; [reflexivity | exact Hp]]).
Qed.

(** A request whose [message] is missing, empty or not a string, or
    whose [context] is neither absent nor a string, is answered without the
    service being called: the answer does not depend on the API or on the
    timer, and the service is left as it was. *)
Theorem chat_route_validates_before_calling
  (api api' : API) (first first' : bool) (reqBody : JSValue) (s : Service) :
  ToBoolean (getProp reqBody "message") && typeofString (getProp reqBody "message")
    = false \/
  isNullish (getProp reqBody "context") || typeofString (getProp reqBody "context")
    = false ->
  chatRoute api first reqBody s = chatRoute api' first' reqBody s /\
  snd (chatRoute api first reqBody s) = s.
Proof.
  intros H. unfold chatRoute.
  destruct reqBody as [| | b | m e | t | items | props]; try (split; reflexivity).
  set (body := JObj props) in *.
  destruct (getProp body "context") as [| | b | m e | c | items | ps];
    try (split; reflexivity);
    (destruct H as [H|H]; [|discriminate H]);
    (destruct (ToBoolean (getProp body "message")); cbn [andb] in H;
     [rewrite H|]; cbn [negb orb]; split; reflexivity).
Qed.

Lemma chat_route_validates_before_calling_witness :
  chatRoute (resolving (JStr "Kumusta")) true
            (JObj [("message", JNum 5 0)]) configured
    = chatRoute (rejecting (Error "down")) false
                (JObj [("message", JNum 5 0)]) configured /\
  snd (chatRoute (resolving (JStr "Kumusta")) true
                 (JObj [("message", JNum 5 0)]) configured) = configured.
Proof.
  apply chat_route_validates_before_calling. left. reflexivity.
Defined.

(* ------------------------------------------------------------------ *)
(** ** The stored records *)

Lemma stringify_array (items : list JSValue) :
  exists text, JSON_stringify2 (JArr items) = Some text.
Proof. unfold JSON_stringify2. cbn [ordered stringifyAt]. eauto. Qed.

Lemma read_unreadable (file path : string) (fs : Files) :
  DB_FILES file = Some path ->
  readFile path fs = None \/
  (exists data, readFile path fs = Some data /\ JSON_parse data = None) ->
  JSONService.read file fs = JArr [].
Proof.
  intros HF H. unfold JSONService.read. rewrite HF.
  destruct H as [H | (data & H & HP)]; rewrite H; [reflexivity|].
  now rewrite HP.
Qed.

(** A store whose file is missing, or does not hold JSON, is started over
    without notice: [append] answers with the item and replaces the file by
    an array of that one item. *)
Theorem append_restarts_unreadable_store
  (file path : string) (item : JSValue) (fs : Files) :
  DB_FILES file = Some path ->
  readFile path fs = None \/
  (exists data, readFile path fs = Some data /\ JSON_parse data = None) ->
  exists text,
    JSON_stringify2 (JArr [item]) = Some text /\
    JSONService.append file item fs = (Ok item, writeFile path text fs).
Proof.
  intros HF H. destruct (stringify_array [item]) as [text Ht].
  exists text. split; [exact Ht|].
  unfold JSONService.append. rewrite (read_unreadable file path fs HF H).
  cbn [JSONService.asArray app]. unfold JSONService.save. now rewrite HF, Ht.
Qed.

Lemma append_restarts_unreadable_store_witness :
  exists text,
    JSON_stringify2 (JArr [JStr "first"]) = Some text /\
    JSONService.append "sessions" (JStr "first")
      [("data/sessions.json", "[1, 2")]
    = (Ok (JStr "first"),
       writeFile "data/sessions.json" text [("data/sessions.json", "[1, 2")]).
Proof.
  apply append_restarts_unreadable_store; [reflexivity|].
  right. exists "[1, 2". split; reflexivity.
Defined.

Lemma append_outcome
  (file path : string) (item : JSValue) (fs : Files) :
  DB_FILES file = Some path ->
  (exists items text,
     JSONService.read file fs = JArr items /\
     JSON_stringify2 (JArr (items ++ [item])) = Some text /\
     JSONService.append file item fs = (Ok item, writeFile path text fs)) \/
  ((forall items, JSONService.read file fs <> JArr items) /\
   exists e, JSONService.append file item fs = (Throw e, fs)).
Proof.
  intros HF. unfold JSONService.append.
  destruct (JSONService.read file fs) as [| | b | m e | t | items | props] eqn:R;
    try (right; split; [discriminate | cbn [JSONService.asArray]; eauto]).
  left. destruct (stringify_array (items ++ [item])) as [text Ht].
  exists items, text. split; [reflexivity|]. split; [exact Ht|].
  cbn [JSONService.asArray]. unfold JSONService.save. now rewrite HF, Ht.
Qed.

(** [append] succeeds exactly when what the store reads as is an array, and
    then writes that array with the item at its end; on any other JSON
    value (an object, a number, ..) it throws and writes nothing. *)
Theorem append_needs_an_array
  (file path : string) (item : JSValue) (fs : Files) :
  DB_FILES file = Some path ->
  (exists items text,
     JSONService.read file fs = JArr items /\
     JSON_stringify2 (JArr (items ++ [item])) = Some text /\
     JSONService.append file item fs = (Ok item, writeFile path text fs)) \/
  ((forall items, JSONService.read file fs <> JArr items) /\
   exists e, JSONService.append file item fs = (Throw e, fs)).
Proof.
  intros HF. unfold JSONService.append.
  destruct (JSONService.read file fs) as [| | b | m e | t | items | props] eqn:R;
    try (right; split; [discriminate | cbn [JSONService.asArray]; eauto]).
  left. destruct (stringify_array (items ++ [item])) as [text Ht].
  exists items, text. split; [reflexivity|]. split; [exact Ht|].
  cbn [JSONService.asArray]. unfold JSONService.save. now rewrite HF, Ht.
Qed.

Lemma append_needs_an_array_witness :
  (exists items text,
     JSONService.read "summaries" [("data/summaries.json", "{}")] = JArr items /\
     JSON_stringify2 (JArr (items ++ [JNull])) = Some text /\
     JSONService.append "summaries" JNull [("data/summaries.json", "{}")]
       = (Ok JNull,
          writeFile "data/summaries.json" text [("data/summaries.json", "{}")])) \/
  ((forall items,
      JSONService.read "summaries" [("data/summaries.json", "{}")] <> JArr items) /\
   exists e,
     JSONService.append "summaries" JNull [("data/summaries.json", "{}")]
       = (Throw e, [("data/summaries.json", "{}")])).
Proof.
  apply append_needs_an_array. reflexivity.
Defined.


Lemma findIndex_first
  (predicate : JSValue -> Result bool) (items : list JSValue) (i : nat) :
  JSONService.findIndex predicate items = Ok (Some i) ->
  (i < length items)%nat /\
  predicate (nth i items JUndefined) = Ok true /\
  forall j, (j < i)%nat -> predicate (nth j items JUndefined) = Ok false.
Proof.
  revert i. induction items as [|x items IH]; intros i; [discriminate|].
  cbn [JSONService.findIndex].
  destruct (predicate x) as [[|]|e] eqn:P; cbn [bind].
  - intros [= <-]. cbn [length nth]. split; [lia|]. split; [exact P|].
    intros j Hj. lia.
  - destruct (JSONService.findIndex predicate items) as [[i'|]|e] eqn:F;
      cbn [bind option_map]; intros [= <-].
    destruct (IH i' eq_refl) as (Hlt & Hhit & Hbefore).
    cbn [length nth]. split; [lia|]. split; [exact Hhit|].
    intros [|j] Hj; [exact P | apply Hbefore; lia].
  - discriminate.
Qed.

Lemma length_replaceAt (i : nat) (x : JSValue) (items : list JSValue) :
  length (JSONService.replaceAt i x items) = length items.
Proof.
  revert i. induction items as [|y items IH]; intros [|i];
    cbn [JSONService.replaceAt length]; auto.
Qed.

Lemma nth_replaceAt_same (i : nat) (x : JSValue) (items : list JSValue) :
  (i < length items)%nat ->
  nth i (JSONService.replaceAt i x items) JUndefined = x.
Proof.
  revert i. induction items as [|y items IH]; intros [|i] H;
    cbn [length] in H; try lia; cbn [JSONService.replaceAt nth]; [reflexivity|].
  apply IH. lia.
Qed.

Lemma nth_replaceAt_other (i j : nat) (x : JSValue) (items : list JSValue) :
  j <> i ->
  nth j (JSONService.replaceAt i x items) JUndefined = nth j items JUndefined.
Proof.
  revert i j. induction items as [|y items IH]; intros [|i] [|j] H;
    cbn [JSONService.replaceAt nth]; try reflexivity; try congruence.
  apply IH. congruence.
Qed.

(** [update] rewrites the first record the predicate accepts and no other:
    the array keeps its length, the record at that index becomes the merge
    and is what [update] returns, and in the merge every name holds the
    value [updates] gives it (the last member of that name), or else the one
    the record had. *)
Theorem update_rewrites_first_match
  (file path : string) (predicate : JSValue -> Result bool)
  (updates : JSValue) (fs : Files) (items : list JSValue) (i : nat) :
  DB_FILES file = Some path ->
  JSONService.read file fs = JArr items ->
  JSONService.findIndex predicate items = Ok (Some i) ->
  exists merged items' text,
    JSONService.update file predicate updates fs
      = (Ok (JObj merged), writeFile path text fs) /\
    JSON_stringify2 (JArr items') = Some text /\
    length items' = length items /\
    nth i items' JUndefined = JObj merged /\
    (forall j, j <> i -> nth j items' JUndefined = nth j items JUndefined) /\
    predicate (nth i items JUndefined) = Ok true /\
    (forall j, (j < i)%nat -> predicate (nth j items JUndefined) = Ok false) /\
    (forall k,
       lookup k merged =
       match lookup k (rev (ownProps updates)) with
       | Some v => Some v
       | None => lookup k (rev (ownProps (nth i items JUndefined)))
       end).
Proof.
  intros HF HR HI.
  destruct (findIndex_first predicate items i HI) as (Hlt & Hhit & Hbefore).
  set (merged := spreadInto (spreadInto [] (ownProps (nth i items JUndefined)))
                            (ownProps updates)).
  set (items' := JSONService.replaceAt i (JObj merged) items).
  destruct (stringify_array items') as [text Ht].
  exists merged, items', text.
  split.
  { unfold JSONService.update. rewrite HR. cbn [JSONService.asArray bind]. rewrite HI.
    cbn [bind]. fold merged. fold items'.
    unfold JSONService.save. now rewrite HF, Ht. }
  split; [exact Ht|].
  split; [apply length_replaceAt|].
  split; [now apply nth_replaceAt_same|].
  split; [intros j Hj; now apply nth_replaceAt_other|].
  split; [exact Hhit|].
  split; [exact Hbefore|].
  intros k. unfold merged. rewrite !lookup_spreadInto. cbn [lookup].
  destruct (lookup k (rev (ownProps updates))); [reflexivity|].
  now destruct (lookup k (rev (ownProps (nth i items JUndefined)))).
Qed.



Lemma update_rewrites_first_match_witness :
  exists merged items' text,
    JSONService.update "sessions" (hasSessionId (JStr "b"))
      (JObj [("status", JStr "COMPLETED")]) twoSessions
      = (Ok (JObj merged), writeFile "data/sessions.json" text twoSessions) /\
    JSON_stringify2 (JArr items') = Some text /\
    lookup "status" merged = Some (JStr "COMPLETED") /\
    lookup "sessionId" merged = Some (JStr "b").
Proof.
  destruct (update_rewrites_first_match "sessions" "data/sessions.json"
              (hasSessionId (JStr "b")) (JObj [("status", JStr "COMPLETED")])
              twoSessions
              [JObj [("sessionId", JStr "a"); ("status", JStr "ACTIVE")];
               JObj [("sessionId", JStr "b"); ("status", JStr "ACTIVE")]]
              1%nat eq_refl eq_refl eq_refl)
    as (merged & items' & text & HU & HT & _ & _ & _ & _ & _ & HK).
  exists merged, items', text.
  split; [exact HU|]. split; [exact HT|].
  split; [exact (HK "status") | exact (HK "sessionId")].
Defined.


(* ------------------------------------------------------------------ *)
(** ** The process route *)

(** [POST /api/ai/process] has two outcomes.  Either it answers 200 with
    a summary whose [createdAt] is the time of the server, and that summary
    is the record appended to the summaries; or it answers 500 with the
    fixed error body and the files are as before: a failed analysis, or a
    summaries store that is not an array, leaves nothing behind. *)
Theorem process_route_outcomes
  (api : API) (dateNow : Z) (reqBody : JSValue) (s : Service) (fs : Files) :
  let '(r, _, fs') := processRoute api dateNow reqBody s fs in
  (exists summary,
     r = json (JObj summary) /\
     lookup "createdAt" summary = Some (JNum dateNow 0) /\
     JSONService.append "summaries" (JObj summary) fs = (Ok (JObj summary), fs')) \/
  (r = json500 (JObj [("error", JStr "Processing failed")]) /\ fs' = fs).
Proof.
  unfold processRoute.
  assert (Hmain : forall body,
    let '(r, _, fs') :=
      (let (result, s') :=
         analyzeLegalSituation api (ToString (getProp body "fullTranscript"))
           (ToString (getProp body "category")) s in
       match result with
       | Throw _ => (json500 (JObj [("error", JStr "Processing failed")]), s', fs)
       | Ok analysis =>
           match JSONService.append "summaries"
                   (JObj (spreadInto
                            (spreadInto [("sessionId", getProp body "sessionId")]
                               (ownProps analysis))
                            [("createdAt", JNum dateNow 0)])) fs with
           | (Ok _, fs') =>
               (json (JObj (spreadInto
                              (spreadInto [("sessionId", getProp body "sessionId")]
                                 (ownProps analysis))
                              [("createdAt", JNum dateNow 0)])), s', fs')
           | (Throw _, fs') =>
               (json500 (JObj [("error", JStr "Processing failed")]), s', fs')
           end
       end) in
    (exists summary,
       r = json (JObj summary) /\
       lookup "createdAt" summary = Some (JNum dateNow 0) /\
       JSONService.append "summaries" (JObj summary) fs = (Ok (JObj summary), fs')) \/
    (r = json500 (JObj [("error", JStr "Processing failed")]) /\ fs' = fs)).
  { intros body.
    destruct (analyzeLegalSituation api _ _ s) as [[analysis|e] s'];
      [|right; split; reflexivity].
    set (summary := spreadInto _ [("createdAt", JNum dateNow 0)]).
    destruct (append_outcome "summaries" "data/summaries.json"
                (JObj summary) fs eq_refl)
      as [(items & text & _ & _ & HA) | (_ & e & HA)]; rewrite HA.
    - left. exists summary. split; [reflexivity|]. split; [|exact HA].
      unfold summary. now rewrite lookup_spreadInto.
    - right. split; reflexivity. }
  destruct reqBody as [| | b | m e | t | items | props];
    try (right; split; reflexivity); apply Hmain.
Qed.



(* ------------------------------------------------------------------ *)
(** ** Where a summary comes from *)

Lemma summaryLoop_success_source
  (api : API) (a b : string) (ps : list string) (s s' : Service) (r : JSValue) :
  summaryLoop api a b ps s = (Ok r, s') ->
  In "groq" ps /\
  exists text,
    api (SummaryRequest a b) = Resolved (JStr text) /\
    _extractJSON (JStr text) = Ok r.
Proof.
  revert s. induction ps as [|p ps IH]; intros s; cbn [summaryLoop]; [discriminate|].
  destruct (summaryAttempt api a b p s) as [[summary|]|error] eqn:A.
  - intros [= <- _]. unfold summaryAttempt in A.
    destruct (providerName p s); cbn [bind] in A; [|discriminate].
    destruct (String.eqb p "groq") eqn:E; [|discriminate].
    apply String.eqb_eq in E. subst p. split; [now left|].
    unfold groqCompletion in A.
    destruct (lookup "groq" (providers s)) as [config|]; [|discriminate].
    destruct (client config); [|discriminate].
    destruct (api (SummaryRequest a b)) as [content|e]; [|discriminate].
    cbn [bind] in A.
    destruct content as [| | x | m e | text | items | props]; try discriminate.
    exists text. split; [reflexivity|].
    destruct (_extractJSON (JStr text)) as [v|e]; cbn [bind] in A; [|discriminate].
    destruct v; try discriminate; now injection A as <-.
  - intros H. destruct (IH s H) as [HIn Hsrc]. split; [now right | exact Hsrc].
  - destruct (catchBlock p error s) as [s1|e]; [|discriminate].
    intros H. destruct (IH s1 H) as [HIn Hsrc]. split; [now right | exact Hsrc].
Qed.

(** A summary is always Groq's: when [generateFinalSummary] resolves, Groq
    was among the available providers, the API answered the summary prompt
    with a string, the result is what [_extractJSON] makes of that string,
    and the service is as it was before the call. *)
Theorem summary_is_groqs_answer
  (api : API) (a b : string) (s s' : Service) (r : JSValue) :
  wellFormed s ->
  generateFinalSummary api a b s = (Ok r, s') ->
  s' = s /\
  isListed "groq" s /\
  exists text,
    api (SummaryRequest a b) = Resolved (JStr text) /\
    _extractJSON (JStr text) = Ok r.
Proof.
  intros Hwf H. split; [exact (generateFinalSummary_success_frame api a b s s' r Hwf H)|].
  unfold generateFinalSummary in H. unfold isListed.
  destruct (getAvailableProviders s) as [available s0].
  cbn [fst]. destruct available as [|p ps]; [discriminate|].
  exact (summaryLoop_success_source api a b (p :: ps) s0 s' r H).
Qed.

Lemma summary_is_groqs_answer_witness :
  configured = configured /\
  isListed "groq" configured /\
  exists text,
    resolving (JStr (jsonText "{'situation':'x'}")) (SummaryRequest "t" "labor")
      = Resolved (JStr text) /\
    _extractJSON (JStr text) = Ok (JObj [("situation", JStr "x")]).
Proof.
  apply (summary_is_groqs_answer
           (resolving (JStr (jsonText "{'situation':'x'}"))) "t" "labor"
           configured configured (JObj [("situation", JStr "x")])).
  - unfold wellFormed. vm_compute. repeat constructor; intros H; inversion H.
  - reflexivity.
Defined.


(* ================================================================== *)
(** * What is written can be read back *)

(** ** Strings *)

Lemma parseChars_escapeJSON (s rest : string) :
  parseChars (escapeJSON s ++ String dquote rest) = Some (s, rest).
Proof.
  induction s as [|c s IH]; [reflexivity|].
  transitivity
    (match parseChars (escapeJSON s ++ String dquote rest) with
     | Some (u, r) => Some (String c u, r)
     | None => None
     end); [|now rewrite IH].
  clear IH.
  destruct c as [[] [] [] [] [] [] [] []]; reflexivity.
Qed.

(* ------------------------------------------------------------------ *)
(** ** Numbers *)

Lemma stripZerosEnd_spec (s : string) :
  (String.length (stripZerosEnd s) <= String.length s)%nat /\
  (stripZerosEnd s
   ++ repeatChar "0" (String.length s - String.length (stripZerosEnd s)))%string = s.
Proof.
  induction s as [|c s [IHl IHe]]; [split; reflexivity|].
  cbn [stripZerosEnd].
  destruct (Ascii.eqb c "0" && isEmpty (stripZerosEnd s)) eqn:E.
  - apply andb_true_iff in E as [Ec Et]. apply Ascii.eqb_eq in Ec. subst c.
    destruct (stripZerosEnd s); [|discriminate].
    cbn [String.length append] in *. split; [lia|].
    rewrite Nat.sub_0_r in *. cbn [repeatChar]. now rewrite IHe.
  - cbn [String.length append]. split; [lia|].
    replace (S (String.length s) - S (String.length (stripZerosEnd s)))%nat
      with (String.length s - String.length (stripZerosEnd s))%nat by lia.
    now rewrite IHe.
Qed.

(** An integer of at most 21 digits is written as its digits. *)
Lemma Number_toString_integer (m : Z) :
  m <> 0 ->
  (String.length (digitsOf (Z.abs m)) <= 21)%nat ->
  Number_toString m 0 =
  ((if (m <? 0)%Z then "-" else "") ++ digitsOf (Z.abs m))%string.
Proof.
  intros Hm Hlen. unfold Number_toString.
  destruct (m =? 0) eqn:E; [lia|]. cbv zeta.
  destruct (stripZerosEnd_spec (digitsOf (Z.abs m))) as [Hl He].
  set (all := digitsOf (Z.abs m)) in *.
  set (ds := stripZerosEnd all) in *.
  replace ((Z.of_nat (String.length ds) <=? Z.of_nat (String.length all) + 0)
           && (Z.of_nat (String.length all) + 0 <=? 21)) with true
    by (symmetry; apply andb_true_iff; split; lia).
  replace (Z.to_nat (Z.of_nat (String.length all) + 0 - Z.of_nat (String.length ds)))
    with (String.length all - String.length ds)%nat by lia.
  now rewrite He.
Qed.

Lemma readDigits_uint (d : Decimal.uint) (acc : positive) (count : Z) (rest : string) :
  match rest with
  | String c _ => isDigit c = false
  | EmptyString => True
  end ->
  readDigits (NilEmpty.string_of_uint d ++ rest) (Z.pos acc) count =
  (Z.pos (Pos.of_uint_acc d acc),
   count + Z.of_nat (String.length (NilEmpty.string_of_uint d)), rest).
Proof.
  intros Hrest. revert acc count.
  induction d as [|d IH|d IH|d IH|d IH|d IH|d IH|d IH|d IH|d IH|d IH];
    intros acc count;
    cbn [NilEmpty.string_of_uint append Pos.of_uint_acc String.length].
  - destruct rest as [|c rest]; cbn [readDigits]; [f_equal; f_equal; lia|].
    rewrite Hrest. f_equal. f_equal. lia.
  - change (readDigits (NilEmpty.string_of_uint d ++ rest) (Z.pos acc * 10 + 0) (count + 1)
            = (Z.pos (Pos.of_uint_acc d (10 * acc)),
               count + Z.of_nat (S (String.length (NilEmpty.string_of_uint d))), rest)).
    replace (Z.pos acc * 10 + 0) with (Z.pos (10 * acc)) by lia.
    rewrite IH. f_equal. f_equal. lia.
  - change (readDigits (NilEmpty.string_of_uint d ++ rest) (Z.pos acc * 10 + 1) (count + 1)
            = (Z.pos (Pos.of_uint_acc d (1 + 10 * acc)),
               count + Z.of_nat (S (String.length (NilEmpty.string_of_uint d))), rest)).
    replace (Z.pos acc * 10 + 1) with (Z.pos (1 + 10 * acc)) by lia.
    rewrite IH. f_equal. f_equal. lia.
  - change (readDigits (NilEmpty.string_of_uint d ++ rest) (Z.pos acc * 10 + 2) (count + 1)
            = (Z.pos (Pos.of_uint_acc d (2 + 10 * acc)),
               count + Z.of_nat (S (String.length (NilEmpty.string_of_uint d))), rest)).
    replace (Z.pos acc * 10 + 2) with (Z.pos (2 + 10 * acc)) by lia.
    rewrite IH. f_equal. f_equal. lia.
  - change (readDigits (NilEmpty.string_of_uint d ++ rest) (Z.pos acc * 10 + 3) (count + 1)
            = (Z.pos (Pos.of_uint_acc d (3 + 10 * acc)),
               count + Z.of_nat (S (String.length (NilEmpty.string_of_uint d))), rest)).
    replace (Z.pos acc * 10 + 3) with (Z.pos (3 + 10 * acc)) by lia.
    rewrite IH. f_equal. f_equal. lia.
  - change (readDigits (NilEmpty.string_of_uint d ++ rest) (Z.pos acc * 10 + 4) (count + 1)
            = (Z.pos (Pos.of_uint_acc d (4 + 10 * acc)),
               count + Z.of_nat (S (String.length (NilEmpty.string_of_uint d))), rest)).
    replace (Z.pos acc * 10 + 4) with (Z.pos (4 + 10 * acc)) by lia.
    rewrite IH. f_equal. f_equal. lia.
  - change (readDigits (NilEmpty.string_of_uint d ++ rest) (Z.pos acc * 10 + 5) (count + 1)
            = (Z.pos (Pos.of_uint_acc d (5 + 10 * acc)),
               count + Z.of_nat (S (String.length (NilEmpty.string_of_uint d))), rest)).
    replace (Z.pos acc * 10 + 5) with (Z.pos (5 + 10 * acc)) by lia.
    rewrite IH. f_equal. f_equal. lia.
  - change (readDigits (NilEmpty.string_of_uint d ++ rest) (Z.pos acc * 10 + 6) (count + 1)
            = (Z.pos (Pos.of_uint_acc d (6 + 10 * acc)),
               count + Z.of_nat (S (String.length (NilEmpty.string_of_uint d))), rest)).
    replace (Z.pos acc * 10 + 6) with (Z.pos (6 + 10 * acc)) by lia.
    rewrite IH. f_equal. f_equal. lia.
  - change (readDigits (NilEmpty.string_of_uint d ++ rest) (Z.pos acc * 10 + 7) (count + 1)
            = (Z.pos (Pos.of_uint_acc d (7 + 10 * acc)),
               count + Z.of_nat (S (String.length (NilEmpty.string_of_uint d))), rest)).
    replace (Z.pos acc * 10 + 7) with (Z.pos (7 + 10 * acc)) by lia.
    rewrite IH. f_equal. f_equal. lia.
  - change (readDigits (NilEmpty.string_of_uint d ++ rest) (Z.pos acc * 10 + 8) (count + 1)
            = (Z.pos (Pos.of_uint_acc d (8 + 10 * acc)),
               count + Z.of_nat (S (String.length (NilEmpty.string_of_uint d))), rest)).
    replace (Z.pos acc * 10 + 8) with (Z.pos (8 + 10 * acc)) by lia.
    rewrite IH. f_equal. f_equal. lia.
  - change (readDigits (NilEmpty.string_of_uint d ++ rest) (Z.pos acc * 10 + 9) (count + 1)
            = (Z.pos (Pos.of_uint_acc d (9 + 10 * acc)),
               count + Z.of_nat (S (String.length (NilEmpty.string_of_uint d))), rest)).
    replace (Z.pos acc * 10 + 9) with (Z.pos (9 + 10 * acc)) by lia.
    rewrite IH. f_equal. f_equal. lia.
Qed.

Lemma nzhead_not_zero (d u : Decimal.uint) : Decimal.nzhead d <> Decimal.D0 u.
Proof. induction d; cbn [Decimal.nzhead]; try discriminate. exact IHd. Qed.

(** The decimal of a positive number does not begin with a zero. *)
Lemma to_uint_head (p : positive) :
  match Pos.to_uint p with
  | Decimal.Nil => False
  | Decimal.D0 _ => False
  | _ => True
  end.
Proof.
  pose proof (DecimalN.Unsigned.to_of (Pos.to_uint p)) as H.
  unfold N.of_uint in H. rewrite DecimalPos.Unsigned.of_to in H.
  cbn [N.to_uint] in H.
  pose proof (DecimalPos.Unsigned.to_uint_nonzero p) as Hz.
  destruct (Pos.to_uint p) as [|u|u|u|u|u|u|u|u|u|u] eqn:E; try exact I.
  - discriminate H.
  - unfold Decimal.unorm in H. cbn [Decimal.nzhead] in H.
    pose proof (nzhead_not_zero u) as Hn.
    destruct (Decimal.nzhead u) eqn:E'; try discriminate H.
    + injection H as ->. now elim Hz.
    + now elim (Hn u0).
Qed.

Lemma digitsOf_pos (p : positive) :
  digitsOf (Z.pos p) = NilEmpty.string_of_uint (Pos.to_uint p).
Proof.
  unfold digitsOf. cbn [Z.to_N N.to_uint]. unfold NilZero.string_of_uint.
  pose proof (to_uint_head p) as H.
  now destruct (Pos.to_uint p).
Qed.

(** The digits of a positive number open a number literal that denotes
    it. *)
Lemma parseNumber_digits (neg : bool) (p : positive) (rest : string) :
  delimited rest = true ->
  parseNumber ((if neg then "-" else "") ++ digitsOf (Z.pos p) ++ rest) =
  Some (JNum (if neg then Z.neg p else Z.pos p) 0, rest).
Proof.
  intros Hrest. rewrite digitsOf_pos.
  assert (Hd : match rest with
               | String c _ => isDigit c = false
               | EmptyString => True
               end).
  { destruct rest as [|c rest]; [exact I|]. cbn [delimited] in Hrest.
    apply orb_true_iff in Hrest as [H|H]; apply Ascii.eqb_eq in H; now subst c. }
  pose proof (DecimalPos.Unsigned.of_to p) as Hof.
  pose proof (to_uint_head p) as Hh.
  destruct (Pos.to_uint p) as [|u|u|u|u|u|u|u|u|u|u] eqn:E; try contradiction;
    cbn [Pos.of_uint] in Hof; injection Hof as Hof;
    cbn [NilEmpty.string_of_uint].
  all: destruct neg; unfold parseNumber; cbn [append];
    match goal with
    | |- context [readDigits (String ?c ?t) 0 0] =>
        let k := eval vm_compute in (Z.to_pos (charCode c - 48)) in
        change (readDigits (String c t) 0 0) with (readDigits t (Z.pos k) (0 + 1))
    end;
    rewrite (readDigits_uint _ _ _ _ Hd), Hof;
    cbv beta iota zeta;
    (destruct rest as [|c rest']; [reflexivity|]);
    cbn [delimited] in Hrest;
    apply orb_true_iff in Hrest as [H|H]; apply Ascii.eqb_eq in H; subst c;
    reflexivity.
Qed.

Lemma digitsOf_head (p : positive) :
  exists c r, digitsOf (Z.pos p) = String c r /\ isDigit c = true.
Proof.
  rewrite digitsOf_pos. pose proof (to_uint_head p) as H.
  destruct (Pos.to_uint p); try contradiction;
    cbn [NilEmpty.string_of_uint]; eexists; eexists; split; reflexivity.
Qed.

Lemma parseNumber_Number_toString (m : Z) (rest : string) :
  delimited rest = true ->
  (String.length (digitsOf (Z.abs m)) <= 21)%nat ->
  parseNumber (Number_toString m 0 ++ rest) = Some (JNum m 0, rest).
Proof.
  intros Hrest Hlen. destruct m as [|p|p].
  - change (Number_toString 0 0) with "0".
    destruct rest as [|c rest']; [reflexivity|].
    cbn [delimited] in Hrest.
    apply orb_true_iff in Hrest as [H|H]; apply Ascii.eqb_eq in H; subst c;
      reflexivity.
  - rewrite Number_toString_integer by (try discriminate; exact Hlen).
    exact (parseNumber_digits false p rest Hrest).
  - rewrite Number_toString_integer by (try discriminate; exact Hlen).
    change (Z.neg p <? 0) with true. rewrite append_assoc.
    exact (parseNumber_digits true p rest Hrest).
Qed.

(** The first character of a number. *)
Lemma Number_toString_head (m : Z) :
  (String.length (digitsOf (Z.abs m)) <= 21)%nat ->
  exists c r, Number_toString m 0 = String c r /\
              isDigit c || Ascii.eqb c "-" = true.
Proof.
  intros Hlen. destruct m as [|p|p].
  - exists "0"%char, EmptyString. split; reflexivity.
  - rewrite Number_toString_integer by (try discriminate; exact Hlen).
    destruct (digitsOf_head p) as (c & r & E & Hc).
    exists c, r. change (Z.abs (Z.pos p)) with (Z.pos p).
    change (Z.pos p <? 0) with false. cbn [append]. split; [exact E|].
    now rewrite Hc.
  - rewrite Number_toString_integer by (try discriminate; exact Hlen).
    change (Z.neg p <? 0) with true. cbn [append].
    eexists. eexists. split; reflexivity.
Qed.

(* ------------------------------------------------------------------ *)
(** ** The shape of the text *)

Lemma append_nil_r (s : string) : (s ++ "")%string = s.
Proof. induction s as [|c s IH]; cbn [append]; [reflexivity | now rewrite IH]. Qed.

Lemma length_append (a b : string) :
  String.length (a ++ b) = (String.length a + String.length b)%nat.
Proof. induction a as [|c a IH]; cbn [append String.length]; [reflexivity | now rewrite IH]. Qed.

Lemma repeatChar_app (c : ascii) (n m : nat) :
  (repeatChar c n ++ repeatChar c m)%string = repeatChar c (n + m).
Proof. induction n as [|n IH]; cbn [repeatChar append Nat.add]; [reflexivity | now rewrite IH]. Qed.

Lemma skipJSONSpace_indent (n : nat) (s : string) :
  skipJSONSpace (repeatChar " " n ++ s) = skipJSONSpace s.
Proof. induction n as [|n IH]; [reflexivity | exact IH]. Qed.

Lemma skipJSONSpace_break (n : nat) (s : string) :
  skipJSONSpace (newline ++ repeatChar " " n ++ s) = skipJSONSpace s.
Proof. exact (skipJSONSpace_indent n s). Qed.

Lemma parseValue_skips (fuel : nat) (s1 s2 : string) :
  skipJSONSpace s1 = skipJSONSpace s2 ->
  parseValue fuel s1 = parseValue fuel s2.
Proof. intros H. destruct fuel; [reflexivity|]. cbn [parseValue]. now rewrite H. Qed.

Lemma parseMembers_skips (fuel : nat) (s1 s2 : string) (acc : list (string * JSValue)) :
  skipJSONSpace s1 = skipJSONSpace s2 ->
  parseMembers fuel s1 acc = parseMembers fuel s2 acc.
Proof. intros H. destruct fuel; [reflexivity|]. cbn [parseMembers]. now rewrite H. Qed.

(* ------------------------------------------------------------------ *)
(** ** The parser, one construct at a time *)

Lemma parseValue_number (f : nat) (c : ascii) (r : string) :
  isDigit c || Ascii.eqb c "-" = true ->
  parseValue (S f) (String c r) = parseNumber (String c r).
Proof.
  intros H. destruct c as [[] [] [] [] [] [] [] []]; try discriminate H; reflexivity.
Qed.

Lemma parseValue_string (f : nat) (r : string) :
  parseValue (S f) (String dquote r) =
  match parseChars r with
  | Some (t, rest) => Some (JStr t, rest)
  | None => None
  end.
Proof. reflexivity. Qed.

Lemma parseValue_array (f : nat) (r : string) (c : ascii) (r' : string) :
  skipJSONSpace r = String c r' -> c <> "]"%char ->
  parseValue (S f) (String "[" r) = parseElements f (String c r') [].
Proof.
  intros H Hc.
  change (parseValue (S f) (String "[" r))
    with (match skipJSONSpace r with
          | String "]" r0 => Some (JArr [], r0)
          | r1 => parseElements f r1 []
          end).
  rewrite H.
  destruct c as [[] [] [] [] [] [] [] []]; try reflexivity. now elim Hc.
Qed.

Lemma parseValue_object (f : nat) (r : string) (c : ascii) (r' : string) :
  skipJSONSpace r = String c r' -> c <> "}"%char ->
  parseValue (S f) (String "{" r) = parseMembers f (String c r') [].
Proof.
  intros H Hc.
  change (parseValue (S f) (String "{" r))
    with (match skipJSONSpace r with
          | String "}" r0 => Some (JObj [], r0)
          | r1 => parseMembers f r1 []
          end).
  rewrite H.
  destruct c as [[] [] [] [] [] [] [] []]; try reflexivity. now elim Hc.
Qed.

Lemma parseElements_step (f : nat) (s : string) (acc : list JSValue) :
  parseElements (S f) s acc =
  match parseValue f s with
  | Some (v, r) =>
      match skipJSONSpace r with
      | String "," r' => parseElements f r' (acc ++ [v])
      | String "]" r' => Some (JArr (acc ++ [v]), r')
      | _ => None
      end
  | None => None
  end.
Proof. reflexivity. Qed.

Lemma parseMembers_step (f : nat) (r : string) (acc : list (string * JSValue)) :
  parseMembers (S f) (String dquote r) acc =
  match parseChars r with
  | Some (k, r1) =>
      match skipJSONSpace r1 with
      | String ":" r2 =>
          match parseValue f r2 with
          | Some (v, r3) =>
              match skipJSONSpace r3 with
              | String "," r' => parseMembers f r' (assign k v acc)
              | String "}" r' => Some (JObj (assign k v acc), r')
              | _ => None
              end
          | None => None
          end
      | _ => None
      end
  | None => None
  end.
Proof. reflexivity. Qed.

(* ------------------------------------------------------------------ *)
(** ** Values *)

Lemma JSValue_nested_ind (P : JSValue -> Prop) :
  P JUndefined -> P JNull -> (forall b, P (JBool b)) ->
  (forall m e, P (JNum m e)) -> (forall s, P (JStr s)) ->
  (forall items, Forall P items -> P (JArr items)) ->
  (forall props, Forall (fun p => P (snd p)) props -> P (JObj props)) ->
  forall v, P v.
Proof.
  intros HU HN HB HNum HS HA HO.
  fix IH 1. intros [| | b | m e | s | items | props].
  - exact HU.
  - exact HN.
  - apply HB.
  - apply HNum.
  - apply HS.
  - apply HA.
    exact ((fix all (l : list JSValue) : Forall P l :=
              match l with
              | [] => Forall_nil P
              | x :: rest => Forall_cons x (IH x) (all rest)
              end) items).
  - apply HO.
    exact ((fix all (l : list (string * JSValue)) : Forall (fun p => P (snd p)) l :=
              match l with
              | [] => Forall_nil _
              | p :: rest => Forall_cons p (IH (snd p)) (all rest)
              end) props).
Qed.

Lemma stringifyAt_JArr (indent : string) (items : list JSValue) :
  stringifyAt indent (JArr items) =
  let parts := map (fun x => match stringifyAt (indent ++ "  ") x with
                             | Some t => t
                             | None => "null"
                             end) items in
  Some match parts with
       | [] => "[]"
       | _ :: _ =>
           ("[" ++ newline ++ (indent ++ "  ")
            ++ joinWith ("," ++ newline ++ (indent ++ "  ")) parts
            ++ newline ++ indent ++ "]")%string
       end.
Proof. reflexivity. Qed.

Lemma stringifyAt_JObj (indent : string) (props : list (string * JSValue)) :
  stringifyAt indent (JObj props) =
  let parts := flat_map (fun p => match stringifyAt (indent ++ "  ") (snd p) with
                                  | Some t => [(quoteJSON (fst p) ++ ": " ++ t)%string]
                                  | None => []
                                  end) props in
  Some match parts with
       | [] => "{}"
       | _ :: _ =>
           ("{" ++ newline ++ (indent ++ "  ")
            ++ joinWith ("," ++ newline ++ (indent ++ "  ")) parts
            ++ newline ++ indent ++ "}")%string
       end.
Proof.
  cbn [stringifyAt]. cbv zeta.
  match goal with
  | |- context [match ?f props with _ => _ end] =>
      assert (E : forall l, f l =
                flat_map (fun p => match stringifyAt (indent ++ "  ") (snd p) with
                                   | Some t => [(quoteJSON (fst p) ++ ": " ++ t)%string]
                                   | None => []
                                   end) l)
        by (induction l as [|[k x] l IHl]; [reflexivity|];
            cbn [flat_map fst snd];
            destruct (stringifyAt (indent ++ "  ") x); cbn [app]; now rewrite <- IHl);
      rewrite E
  end.
  reflexivity.
Qed.

Lemma storable_text (indent : string) (v : JSValue) :
  storable v = true -> exists t, stringifyAt indent v = Some t.
Proof.
  destruct v as [| | [|] | m e | s | items | props]; try discriminate; intros _.
  - now exists "null".
  - now exists "true".
  - now exists "false".
  - eexists. reflexivity.
  - eexists. reflexivity.
  - rewrite stringifyAt_JArr. cbv zeta. eauto.
  - rewrite stringifyAt_JObj. cbv zeta. eauto.
Qed.

Lemma number_head (c : ascii) :
  isDigit c || Ascii.eqb c "-" = true ->
  isJSONSpace c = false /\ c <> "]"%char /\ c <> "}"%char.
Proof.
  destruct c as [[] [] [] [] [] [] [] []]; try discriminate; intros _;
    (split; [reflexivity | split; discriminate]).
Qed.

(** A value's text begins with a character that is neither white space nor
    a closing bracket. *)
Lemma stringifyAt_head (indent : string) (v : JSValue) (t : string) :
  storable v = true -> stringifyAt indent v = Some t ->
  exists c r, t = String c r /\
    isJSONSpace c = false /\ c <> "]"%char /\ c <> "}"%char.
Proof.
  destruct v as [| | [|] | m e | s | items | props]; try discriminate.
  - intros _ [= <-]. exists "n"%char. eexists.
    split; [reflexivity|]. split; [reflexivity|]. split; discriminate.
  - intros _ [= <-]. exists "t"%char. eexists.
    split; [reflexivity|]. split; [reflexivity|]. split; discriminate.
  - intros _ [= <-]. exists "f"%char. eexists.
    split; [reflexivity|]. split; [reflexivity|]. split; discriminate.
  - cbn [storable stringifyAt]. intros H [= <-].
    apply andb_true_iff in H as [He Hl]. apply Z.eqb_eq in He. subst e.
    apply Nat.leb_le in Hl.
    destruct (Number_toString_head m Hl) as (c & r & E & Hc).
    exists c, r. split; [exact E | now apply number_head].
  - intros _ [= <-]. exists dquote. eexists.
    split; [reflexivity|]. split; [reflexivity|]. split; discriminate.
  - intros _. rewrite stringifyAt_JArr. cbv zeta. intros [= <-].
    exists "["%char.
    destruct (map _ items); eexists;
      (split; [reflexivity|]; split; [reflexivity|]; split; discriminate).
  - intros _. rewrite stringifyAt_JObj. cbv zeta. intros [= <-].
    exists "{"%char.
    destruct (flat_map _ props); eexists;
      (split; [reflexivity|]; split; [reflexivity|]; split; discriminate).
Qed.

Lemma parseElements_skips (fuel : nat) (s1 s2 : string) (acc : list JSValue) :
  skipJSONSpace s1 = skipJSONSpace s2 ->
  parseElements fuel s1 acc = parseElements fuel s2 acc.
Proof.
  intros H. destruct fuel; [reflexivity|].
  now rewrite !parseElements_step, (parseValue_skips fuel s1 s2 H).
Qed.

Lemma assign_fresh {A : Type} (k : string) (v : A) (l : list (string * A)) :
  lookup k l = None -> assign k v l = (l ++ [(k, v)])%list.
Proof.
  induction l as [|[k' v'] l IH]; cbn [lookup assign app]; [reflexivity|].
  destruct (String.eqb k k'); [discriminate|]. intros H. now rewrite IH.
Qed.

Lemma member_shape (k tx R : string) :
  ((quoteJSON k ++ ": " ++ tx) ++ R)%string =
  String dquote (escapeJSON k ++ String dquote (String ":" (String " " (tx ++ R)))).
Proof.
  unfold quoteJSON. cbn [append]. now rewrite !append_assoc.
Qed.

Lemma joinWith_cons (sep x y : string) (l : list string) :
  joinWith sep (x :: y :: l) = (x ++ sep ++ joinWith sep (y :: l))%string.
Proof. reflexivity. Qed.

Local Abbreviation reads v :=
  (forall (n fuel : nat) (rest t : string),
     storable v = true ->
     stringifyAt (repeatChar " " n) v = Some t ->
     (String.length t < fuel)%nat ->
     delimited rest = true ->
     parseValue fuel (t ++ rest) = Some (v, rest)).

Local Abbreviation textAt indent :=
  (fun x : JSValue => match stringifyAt indent x with
                      | Some t => t
                      | None => "null"
                      end).

Local Abbreviation memberAt indent :=
  (fun p : string * JSValue =>
     (quoteJSON (fst p) ++ ": " ++ textAt indent (snd p))%string).

Local Abbreviation breakAt n := ("," ++ newline ++ repeatChar " " n)%string.

Lemma parseElements_texts (n : nat) (items : list JSValue) :
  Forall (fun x => reads x) items ->
  forallb storable items = true -> items <> [] ->
  forall (f : nat) (acc : list JSValue) (rest : string),
    (String.length (joinWith (breakAt (n + 2))
                      (map (textAt (repeatChar " " (n + 2))) items)) + 1 < f)%nat ->
    parseElements f
      (joinWith (breakAt (n + 2)) (map (textAt (repeatChar " " (n + 2))) items)
       ++ newline ++ repeatChar " " n ++ "]" ++ rest) acc
    = Some (JArr (acc ++ items), rest).
Proof.
  intros HF. induction HF as [|x items Hx HF IH]; intros Hs Hne f acc rest Hf;
    [contradiction|].
  cbn [forallb] in Hs. apply andb_true_iff in Hs as [Hsx Hsi].
  destruct (storable_text (repeatChar " " (n + 2)) x Hsx) as [tx Etx].
  destruct f as [|f]; [lia|]. rewrite parseElements_step.
  destruct items as [|y items].
  - cbn [map joinWith] in Hf |- *. rewrite Etx in Hf |- *.
    rewrite (Hx (n + 2)%nat f (newline ++ repeatChar " " n ++ "]" ++ rest)%string
               tx Hsx Etx ltac:(lia) eq_refl).
    rewrite skipJSONSpace_break. reflexivity.
  - cbn [map] in Hf |- *. rewrite joinWith_cons in Hf |- *.
    rewrite Etx in Hf |- *.
    set (J := joinWith (breakAt (n + 2))
                (textAt (repeatChar " " (n + 2)) y
                 :: map (textAt (repeatChar " " (n + 2))) items)) in *.
    rewrite !length_append in Hf. cbn [String.length append] in Hf.
    rewrite !append_assoc.
    rewrite (Hx (n + 2)%nat f
               ("," ++ newline ++ repeatChar " " (n + 2)
                ++ J ++ newline ++ repeatChar " " n ++ "]" ++ rest)%string
               tx Hsx Etx ltac:(lia) eq_refl).
    change (skipJSONSpace ("," ++ newline ++ repeatChar " " (n + 2)
                           ++ J ++ newline ++ repeatChar " " n ++ "]" ++ rest))
      with (String "," (newline ++ repeatChar " " (n + 2)
                        ++ J ++ newline ++ repeatChar " " n ++ "]" ++ rest)).
    cbv iota.
    rewrite (parseElements_skips f _ _ _ (skipJSONSpace_break (n + 2) _)).
    pose proof (IH Hsi ltac:(discriminate) f (acc ++ [x])%list rest) as IH'.
    cbn [map] in IH'. fold J in IH'. rewrite IH' by lia.
    now rewrite <- app_assoc.
Qed.

Lemma parseMembers_texts (n : nat) (props : list (string * JSValue)) :
  Forall (fun p => reads (snd p)) props ->
  forallb (fun p => storable (snd p)) props = true -> props <> [] ->
  forall (f : nat) (acc : list (string * JSValue)) (rest : string),
    NoDup (map fst (acc ++ props)) ->
    (String.length (joinWith (breakAt (n + 2))
                      (map (memberAt (repeatChar " " (n + 2))) props)) + 1 < f)%nat ->
    parseMembers f
      (joinWith (breakAt (n + 2)) (map (memberAt (repeatChar " " (n + 2))) props)
       ++ newline ++ repeatChar " " n ++ "}" ++ rest) acc
    = Some (JObj (acc ++ props), rest).
Proof.
  intros HF. induction HF as [|[k x] props Hx HF IH];
    intros Hs Hne f acc rest Hnd Hf; [contradiction|].
  cbn [forallb snd] in Hs, Hx. apply andb_true_iff in Hs as [Hsx Hsi].
  destruct (storable_text (repeatChar " " (n + 2)) x Hsx) as [tx Etx].
  assert (Hfresh : lookup k acc = None).
  { apply lookup_notin. rewrite map_app in Hnd. cbn [map fst] in Hnd.
    apply NoDup_remove_2 in Hnd. intros HIn. apply Hnd, in_or_app. now left. }
  assert (Hnd' : NoDup (map fst ((acc ++ [(k, x)]) ++ props))).
  { now rewrite <- app_assoc. }
  destruct f as [|f]; [lia|].
  destruct props as [|q props].
  - cbn [map joinWith fst snd] in Hf |- *. rewrite Etx in Hf |- *.
    rewrite member_shape, parseMembers_step, parseChars_escapeJSON.
    rewrite !length_append in Hf. cbn [String.length] in Hf.
    change (skipJSONSpace (String ":" (String " "
              (tx ++ newline ++ repeatChar " " n ++ "}" ++ rest))))
      with (String ":" (String " " (tx ++ newline ++ repeatChar " " n ++ "}" ++ rest))).
    cbv iota.
    rewrite (parseValue_skips f (String " " (tx ++ newline ++ repeatChar " " n ++ "}" ++ rest))
               (tx ++ newline ++ repeatChar " " n ++ "}" ++ rest) eq_refl).
    rewrite (Hx (n + 2)%nat f (newline ++ repeatChar " " n ++ "}" ++ rest)%string
               tx Hsx Etx ltac:(lia) eq_refl).
    rewrite skipJSONSpace_break.
    change (skipJSONSpace ("}" ++ rest)) with (String "}" rest). cbv iota.
    now rewrite (assign_fresh k x acc Hfresh).
  - cbn [map] in Hf |- *. rewrite joinWith_cons in Hf |- *.
    cbn [fst snd] in Hf |- *. rewrite Etx in Hf |- *.
    set (J := joinWith (breakAt (n + 2))
                (memberAt (repeatChar " " (n + 2)) q
                 :: map (memberAt (repeatChar " " (n + 2))) props)) in *.
    rewrite !length_append in Hf. cbn [String.length append] in Hf.
    rewrite (append_assoc (quoteJSON k ++ ": " ++ tx)).
    rewrite member_shape, parseMembers_step, parseChars_escapeJSON.
    rewrite !append_assoc.
    match goal with
    | |- context [skipJSONSpace (String ":" ?X)] =>
        change (skipJSONSpace (String ":" X)) with (String ":" X)
    end.
    cbv iota.
    match goal with
    | |- context [parseValue f (String " " ?X)] =>
        rewrite (parseValue_skips f (String " " X) X eq_refl)
    end.
    rewrite (Hx (n + 2)%nat f
               ("," ++ newline ++ repeatChar " " (n + 2)
                ++ J ++ newline ++ repeatChar " " n ++ "}" ++ rest)%string
               tx Hsx Etx ltac:(lia) eq_refl).
    change (skipJSONSpace ("," ++ newline ++ repeatChar " " (n + 2)
                           ++ J ++ newline ++ repeatChar " " n ++ "}" ++ rest))
      with (String "," (newline ++ repeatChar " " (n + 2)
                        ++ J ++ newline ++ repeatChar " " n ++ "}" ++ rest)).
    cbv iota.
    rewrite (parseMembers_skips f _ _ _ (skipJSONSpace_break (n + 2) _)).
    rewrite (assign_fresh k x acc Hfresh).
    pose proof (IH Hsi ltac:(discriminate) f (acc ++ [(k, x)])%list rest Hnd') as IH'.
    cbn [map] in IH'. fold J in IH'. rewrite IH' by lia.
    now rewrite <- app_assoc.
Qed.

Lemma distinct_NoDup (keys : list string) : distinct keys = true <-> NoDup keys.
Proof.
  induction keys as [|k keys IH]; cbn [distinct].
  - split; [constructor | reflexivity].
  - rewrite andb_true_iff, negb_true_iff, IH. split.
    + intros [Hk Hn]. constructor; [|exact Hn]. intros HIn.
      assert (existsb (String.eqb k) keys = true); [|congruence].
      apply existsb_exists. exists k. split; [exact HIn | apply String.eqb_refl].
    + intros H. inversion H as [|? ? Hk Hn]; subst. split; [|exact Hn].
      destruct (existsb (String.eqb k) keys) eqn:E; [|reflexivity].
      apply existsb_exists in E as (k' & HIn & Hk'). apply String.eqb_eq in Hk'.
      subst k'. contradiction.
Qed.

Lemma flat_map_members (indent : string) (props : list (string * JSValue)) :
  forallb (fun p => storable (snd p)) props = true ->
  flat_map (fun p => match stringifyAt indent (snd p) with
                     | Some t => [(quoteJSON (fst p) ++ ": " ++ t)%string]
                     | None => []
                     end) props
  = map (memberAt indent) props.
Proof.
  induction props as [|[k x] props IH]; [reflexivity|].
  cbn [forallb flat_map map fst snd]. intros H.
  apply andb_true_iff in H as [Hx Hp].
  destruct (storable_text indent x Hx) as [tx Etx]. rewrite Etx.
  cbn [app]. now rewrite IH.
Qed.

Lemma joinWith_head (sep : string) (c : ascii) (r : string) (l : list string) :
  exists r', joinWith sep (String c r :: l) = String c r'.
Proof. destruct l; eexists; reflexivity. Qed.

Lemma parseValue_literal (f : nat) (rest : string) :
  parseValue (S f) ("null" ++ rest) = Some (JNull, rest) /\
  parseValue (S f) ("true" ++ rest) = Some (JBool true, rest) /\
  parseValue (S f) ("false" ++ rest) = Some (JBool false, rest).
Proof.
  repeat split; cbn [parseValue append];
    match goal with
    | |- context [skipJSONSpace ?X] => change (skipJSONSpace X) with X
    end;
    cbv iota; cbn [startsWith]; rewrite ?startsWith_empty; reflexivity.
Qed.

Lemma indent_deeper (n : nat) :
  (repeatChar " " n ++ "  ")%string = repeatChar " " (n + 2).
Proof. now rewrite <- repeatChar_app. Qed.

(** The parser reads the text of a storable value back as that value, and
    stops where the text ends. *)
Lemma parseValue_stringifyAt (v : JSValue) : reads v.
Proof.
  induction v as [| | b | m e | s | items IH | props IH] using JSValue_nested_ind;
    intros n fuel rest t Hs Ht Hf Hd.
  - discriminate Hs.
  - injection Ht as <-. destruct fuel; [cbn in Hf; lia|].
    apply parseValue_literal.
  - destruct b; injection Ht as <-; (destruct fuel; [cbn in Hf; lia|]);
      apply parseValue_literal.
  - cbn [storable] in Hs. apply andb_true_iff in Hs as [He Hl].
    apply Z.eqb_eq in He. subst e. apply Nat.leb_le in Hl.
    cbn [stringifyAt] in Ht. injection Ht as <-.
    destruct (Number_toString_head m Hl) as (c & r & E & Hc).
    destruct fuel as [|f]; [lia|].
    pose proof (parseNumber_Number_toString m rest Hd Hl) as HP.
    rewrite E in HP |- *. cbn [append] in HP |- *.
    now rewrite (parseValue_number f c _ Hc).
  - injection Ht as <-. destruct fuel as [|f]; [lia|].
    unfold quoteJSON. cbn [append]. rewrite append_assoc. cbn [append].
    now rewrite parseValue_string, parseChars_escapeJSON.
  - cbn [storable] in Hs.
    destruct items as [|x items].
    { injection Ht as <-. destruct fuel; [cbn in Hf; lia|]. reflexivity. }
    set (J := joinWith (breakAt (n + 2))
                (map (textAt (repeatChar " " (n + 2))) (x :: items))).
    assert (Et : t = ("[" ++ newline ++ repeatChar " " (n + 2) ++ J
                      ++ newline ++ repeatChar " " n ++ "]")%string).
    { rewrite stringifyAt_JArr in Ht. cbv zeta in Ht.
      rewrite indent_deeper in Ht. injection Ht as <-. reflexivity. }
    assert (Hx : storable x = true)
      by (cbn [forallb] in Hs; now apply andb_true_iff in Hs).
    destruct (storable_text (repeatChar " " (n + 2)) x Hx) as [tx Etx].
    destruct (stringifyAt_head _ x tx Hx Etx) as (c & r & -> & Hc & Hc1 & Hc2).
    assert (EJ : exists rJ, J = String c rJ).
    { unfold J. cbn [map]. rewrite Etx. apply joinWith_head. }
    destruct EJ as [rJ EJ].
    pose proof (parseElements_texts n (x :: items) IH Hs ltac:(discriminate)) as HE.
    fold J in HE.
    subst t. rewrite !length_append in Hf.
    change (String.length newline) with 1%nat in Hf.
    cbn [String.length] in Hf.
    destruct fuel as [|f]; [lia|].
    rewrite !append_assoc.
    change (("[" ++ newline ++ repeatChar " " (n + 2) ++ J
             ++ newline ++ repeatChar " " n ++ "]" ++ rest)%string)
      with (String "[" (newline ++ repeatChar " " (n + 2) ++ J
                        ++ newline ++ repeatChar " " n ++ "]" ++ rest)).
    rewrite (parseValue_array f _ c
               (rJ ++ newline ++ repeatChar " " n ++ "]" ++ rest)).
    + change (String c (rJ ++ newline ++ repeatChar " " n ++ "]" ++ rest))
        with (String c rJ ++ newline ++ repeatChar " " n ++ "]" ++ rest)%string.
      rewrite <- EJ. exact (HE f [] rest ltac:(lia)).
    + rewrite skipJSONSpace_break, EJ. cbn [append skipJSONSpace]. now rewrite Hc.
    + exact Hc1.
  - cbn [storable] in Hs. apply andb_true_iff in Hs as [Hk Hs].
    apply distinct_NoDup in Hk.
    destruct props as [|[k x] props].
    { injection Ht as <-. destruct fuel; [cbn in Hf; lia|]. reflexivity. }
    set (J := joinWith (breakAt (n + 2))
                (map (memberAt (repeatChar " " (n + 2))) ((k, x) :: props))).
    assert (Et : t = ("{" ++ newline ++ repeatChar " " (n + 2) ++ J
                      ++ newline ++ repeatChar " " n ++ "}")%string).
    { rewrite stringifyAt_JObj in Ht. cbv zeta in Ht.
      rewrite indent_deeper, (flat_map_members _ _ Hs) in Ht.
      injection Ht as <-. reflexivity. }
    assert (EJ : exists rJ, J = String dquote rJ).
    { unfold J. cbn [map]. unfold quoteJSON. apply joinWith_head. }
    destruct EJ as [rJ EJ].
    pose proof (parseMembers_texts n ((k, x) :: props) IH Hs ltac:(discriminate)) as HE.
    fold J in HE.
    subst t. rewrite !length_append in Hf.
    change (String.length newline) with 1%nat in Hf.
    cbn [String.length] in Hf.
    destruct fuel as [|f]; [lia|].
    rewrite !append_assoc.
    change (("{" ++ newline ++ repeatChar " " (n + 2) ++ J
             ++ newline ++ repeatChar " " n ++ "}" ++ rest)%string)
      with (String "{" (newline ++ repeatChar " " (n + 2) ++ J
                        ++ newline ++ repeatChar " " n ++ "}" ++ rest)).
    rewrite (parseValue_object f _ dquote
               (rJ ++ newline ++ repeatChar " " n ++ "}" ++ rest)).
    + change (String dquote (rJ ++ newline ++ repeatChar " " n ++ "}" ++ rest))
        with (String dquote rJ ++ newline ++ repeatChar " " n ++ "}" ++ rest)%string.
      rewrite <- EJ. exact (HE f [] rest Hk ltac:(lia)).
    + rewrite skipJSONSpace_break, EJ. reflexivity.
    + discriminate.
Qed.

Lemma JSON_parse_stringifyAt (v : JSValue) (t : string) :
  storable v = true -> stringifyAt "" v = Some t -> JSON_parse t = Some v.
Proof.
  intros Hs Ht. unfold JSON_parse.
  pose proof (parseValue_stringifyAt v 0%nat (String.length t + 2)%nat "" t
                Hs Ht ltac:(lia) eq_refl) as H.
  rewrite append_nil_r in H. now rewrite H.
Qed.

(* ------------------------------------------------------------------ *)
(** ** The order of the members *)

Lemma ordered_JObj (props : list (string * JSValue)) :
  ordered (JObj props) =
  JObj (fold_left (fun acc p => defineProp (fst p) (ordered (snd p)) acc) props []).
Proof.
  cbn [ordered]. f_equal. generalize (@nil (string * JSValue)) as acc.
  induction props as [|[k x] props IH]; intros acc; [reflexivity|].
  cbn [fold_left fst snd]. now rewrite <- IH.
Qed.

Lemma insertProp_perm (k : string) (v : JSValue) (l : list (string * JSValue)) :
  Permutation (insertProp k v l) ((k, v) :: l).
Proof.
  induction l as [|[k' v'] l IH]; cbn [insertProp].
  - destruct (arrayIndex k); apply Permutation_refl.
  - destruct (arrayIndex k) as [i|].
    + destruct (arrayIndex k') as [j|]; [|apply Permutation_refl].
      destruct (j <? i); [|apply Permutation_refl].
      eapply perm_trans; [apply perm_skip, IH | apply perm_swap].
    + eapply perm_trans; [apply perm_skip, IH | apply perm_swap].
Qed.

Lemma spread_perm (g : JSValue -> JSValue) (props acc : list (string * JSValue)) :
  NoDup (map fst (acc ++ props)) ->
  Permutation
    (fold_left (fun a p => defineProp (fst p) (g (snd p)) a) props acc)
    (acc ++ map (fun p => (fst p, g (snd p))) props).
Proof.
  revert acc. induction props as [|[k x] props IH]; intros acc Hnd.
  - cbn [fold_left map]. rewrite app_nil_r. apply Permutation_refl.
  - cbn [fold_left map fst snd].
    assert (Hfresh : lookup k acc = None).
    { apply lookup_notin. rewrite map_app in Hnd. cbn [map fst] in Hnd.
      apply NoDup_remove_2 in Hnd. intros HIn. apply Hnd, in_or_app. now left. }
    unfold defineProp at 2. rewrite Hfresh.
    pose proof (insertProp_perm k (g x) acc) as HP.
    eapply perm_trans.
    + apply IH. rewrite map_app.
      eapply Permutation_NoDup; [|exact Hnd].
      rewrite map_app. cbn [map fst].
      eapply perm_trans; [apply Permutation_sym, Permutation_middle|].
      change (k :: map fst acc ++ map fst props)%list
        with ((k :: map fst acc) ++ map fst props)%list.
      apply Permutation_app_tail.
      apply Permutation_sym. exact (Permutation_map fst HP).
    + eapply perm_trans; [apply Permutation_app_tail, HP|].
      apply (Permutation_middle acc _ (k, g x)).
Qed.

Lemma storable_ordered (v : JSValue) :
  storable v = true -> storable (ordered v) = true.
Proof.
  induction v as [| | b | m e | s | items IH | props IH] using JSValue_nested_ind;
    try (intros H; exact H).
  - cbn [ordered storable]. intros H. rewrite forallb_forall in H |- *.
    intros y Hy. apply in_map_iff in Hy as (x & <- & Hx).
    rewrite Forall_forall in IH. apply IH; [exact Hx | now apply H].
  - rewrite ordered_JObj. cbn [storable]. intros H.
    apply andb_true_iff in H as [Hk Hs]. apply distinct_NoDup in Hk.
    pose proof (spread_perm ordered props [] Hk) as HP. cbn [app] in HP.
    apply andb_true_iff. split.
    + apply distinct_NoDup.
      eapply Permutation_NoDup; [apply Permutation_sym, (Permutation_map fst HP)|].
      rewrite map_map. cbn [fst]. exact Hk.
    + rewrite forallb_forall in Hs |- *. intros p Hp.
      apply (Permutation_in _ HP), in_map_iff in Hp as (q & <- & Hq).
      cbn [snd]. rewrite Forall_forall in IH. apply IH; [exact Hq | now apply Hs].
Qed.

(** What [JSON.stringify(v, null, 2)] writes for a storable value,
    [JSON.parse] reads back as that value, its members in the order of the
    engine. *)
Lemma parse_stringify (v : JSValue) :
  storable v = true ->
  exists text,
    JSON_stringify2 v = Some text /\ JSON_parse text = Some (ordered v).
Proof.
  intros Hs. pose proof (storable_ordered v Hs) as Ho.
  destruct (storable_text "" (ordered v) Ho) as [text Ht].
  exists text. split; [exact Ht|].
  exact (JSON_parse_stringifyAt (ordered v) text Ho Ht).
Qed.

(* ------------------------------------------------------------------ *)
(** ** What is stored is read back *)

Lemma DB_FILES_inj (a b path : string) :
  DB_FILES a = Some path -> DB_FILES b = Some path -> a = b.
Proof.
  unfold DB_FILES.
  repeat match goal with
         | |- context [String.eqb ?x ?y] => destruct (String.eqb_spec x y)
         end; intros H1 H2; try congruence; try discriminate.
Qed.

Lemma read_after_write (file path text : string) (fs : Files) (v : JSValue) :
  DB_FILES file = Some path -> JSON_parse text = Some v ->
  JSONService.read file (writeFile path text fs) = v /\
  forall other, other <> file ->
    JSONService.read other (writeFile path text fs) = JSONService.read other fs.
Proof.
  intros HF HP. split.
  - unfold JSONService.read, readFile, writeFile.
    now rewrite HF, lookup_assign_same, HP.
  - intros other Hne. unfold JSONService.read, readFile, writeFile.
    destruct (DB_FILES other) as [path'|] eqn:HO; [|reflexivity].
    rewrite lookup_assign_other; [reflexivity|].
    intros ->. apply Hne. exact (DB_FILES_inj other file path' HO HF).
Qed.

Lemma storable_JArr (items : list JSValue) :
  storable (JArr items) = true <-> Forall (fun x => storable x = true) items.
Proof. cbn [storable]. now rewrite forallb_forall, Forall_forall. Qed.

Lemma storable_JObj (props : list (string * JSValue)) :
  storable (JObj props) = true <->
  NoDup (map fst props) /\ Forall (fun p => storable (snd p) = true) props.
Proof.
  cbn [storable]. now rewrite andb_true_iff, distinct_NoDup, forallb_forall, Forall_forall.
Qed.

Lemma lookup_None_keys {A : Type} (k : string) (l : list (string * A)) :
  lookup k l = None -> ~ In k (map fst l).
Proof.
  induction l as [|[k' v'] l IH]; cbn [lookup map fst]; [auto|].
  destruct (String.eqb_spec k k'); [discriminate|].
  intros H [E|HIn]; [congruence | now apply IH].
Qed.

Lemma Forall_assign (P : string * JSValue -> Prop) (k : string) (v : JSValue)
  (l : list (string * JSValue)) :
  (forall k', P (k', v)) -> Forall P l -> Forall P (assign k v l).
Proof.
  intros Hv. induction 1 as [|[k' v'] l Hp Hl IH]; cbn [assign].
  - constructor; [apply Hv | constructor].
  - destruct (String.eqb k k'); constructor; auto.
Qed.

Lemma storable_defineProp (k : string) (v : JSValue) (l : list (string * JSValue)) :
  storable v = true -> storable (JObj l) = true ->
  storable (JObj (defineProp k v l)) = true.
Proof.
  rewrite !storable_JObj. intros Hv [Hnd Hall]. unfold defineProp.
  destruct (lookup k l) eqn:E.
  - split.
    + rewrite keys_assign; [exact Hnd | congruence].
    + apply Forall_assign; [intros k'; exact Hv | exact Hall].
  - pose proof (insertProp_perm k v l) as HP. split.
    + eapply Permutation_NoDup;
        [apply Permutation_sym, (Permutation_map fst HP)|].
      cbn [map fst]. constructor; [now apply lookup_None_keys | exact Hnd].
    + eapply Permutation_Forall; [apply Permutation_sym, HP|].
      constructor; [exact Hv | exact Hall].
Qed.

Lemma storable_spreadInto (props more : list (string * JSValue)) :
  storable (JObj props) = true ->
  Forall (fun p => storable (snd p) = true) more ->
  storable (JObj (spreadInto props more)) = true.
Proof.
  intros Hp Hm. revert props Hp. unfold spreadInto.
  induction Hm as [|[k v] more Hv _ IH]; intros props Hp; [exact Hp|].
  cbn [fold_left fst snd]. apply IH. now apply storable_defineProp.
Qed.

Lemma Forall_replaceAt (P : JSValue -> Prop) (i : nat) (x : JSValue)
  (items : list JSValue) :
  P x -> Forall P items -> Forall P (JSONService.replaceAt i x items).
Proof.
  intros Hx HF. revert i. induction HF as [|y items Hy Hitems IH]; intros [|i];
    cbn [JSONService.replaceAt]; constructor; auto.
Qed.

Lemma append_read_back
  (file path : string) (item : JSValue) (fs : Files) (items : list JSValue) :
  DB_FILES file = Some path ->
  JSONService.read file fs = JArr items ->
  storable (JArr items) = true -> storable item = true ->
  exists fs',
    JSONService.append file item fs = (Ok item, fs') /\
    JSONService.read file fs' = JArr (map ordered (items ++ [item])) /\
    forall other, other <> file ->
      JSONService.read other fs' = JSONService.read other fs.
Proof.
  intros HF HR Hs Hi.
  assert (Hall : storable (JArr (items ++ [item])) = true).
  { apply storable_JArr, Forall_app. split; [now apply storable_JArr|].
    constructor; [exact Hi | constructor]. }
  destruct (parse_stringify _ Hall) as (text & Ht & Hp).
  exists (writeFile path text fs).
  destruct (read_after_write file path text fs _ HF Hp) as [H1 H2].
  split; [|split; [exact H1 | exact H2]].
  unfold JSONService.append. rewrite HR. cbn [JSONService.asArray].
  unfold JSONService.save. now rewrite HF, Ht.
Qed.

(** What [append] stores, the next [read] returns: the records that were
    there, then the new one.  The other stores are as before. *)
Theorem appended_record_is_read_back
  (file path : string) (item : JSValue) (fs : Files) (items : list JSValue) :
  DB_FILES file = Some path ->
  JSONService.read file fs = JArr items ->
  storable (JArr items) = true -> storable item = true ->
  exists fs',
    JSONService.append file item fs = (Ok item, fs') /\
    JSONService.read file fs' = JArr (map ordered (items ++ [item])) /\
    forall other, other <> file ->
      JSONService.read other fs' = JSONService.read other fs.
Proof.
  intros HF HR Hs Hi.
  assert (Hall : storable (JArr (items ++ [item])) = true).
  { apply storable_JArr, Forall_app. split; [now apply storable_JArr|].
    constructor; [exact Hi | constructor]. }
  destruct (parse_stringify _ Hall) as (text & Ht & Hp).
  exists (writeFile path text fs).
  destruct (read_after_write file path text fs _ HF Hp) as [H1 H2].
  split; [|split; [exact H1 | exact H2]].
  unfold JSONService.append. rewrite HR. cbn [JSONService.asArray].
  unfold JSONService.save. now rewrite HF, Ht.
Qed.

Lemma update_read_back
  (file path : string) (predicate : JSValue -> Result bool) (fs : Files)
  (items : list JSValue) (i : nat) (old ups : list (string * JSValue)) :
  DB_FILES file = Some path ->
  JSONService.read file fs = JArr items ->
  storable (JArr items) = true -> storable (JObj ups) = true ->
  JSONService.findIndex predicate items = Ok (Some i) ->
  nth i items JUndefined = JObj old ->
  exists merged fs',
    JSONService.update file predicate (JObj ups) fs = (Ok (JObj merged), fs') /\
    (forall k, lookup k merged =
               match lookup k ups with
               | Some v => Some v
               | None => lookup k old
               end) /\
    JSONService.read file fs'
      = JArr (map ordered (JSONService.replaceAt i (JObj merged) items)) /\
    forall other, other <> file ->
      JSONService.read other fs' = JSONService.read other fs.
Proof.
  intros HF HR Hs Hu HI Hold.
  destruct (findIndex_first predicate items i HI) as (Hlt & _ & _).
  assert (Ho : storable (JObj old) = true).
  { rewrite <- Hold. apply storable_JArr in Hs. rewrite Forall_forall in Hs.
    apply Hs, nth_In, Hlt. }
  set (merged := spreadInto (spreadInto [] old) ups).
  assert (Hm : storable (JObj merged) = true).
  { unfold merged.
    apply storable_spreadInto; [apply storable_spreadInto; [reflexivity|]|].
    - now apply storable_JObj in Ho.
    - now apply storable_JObj in Hu. }
  assert (Hall : storable (JArr (JSONService.replaceAt i (JObj merged) items)) = true).
  { apply storable_JArr, Forall_replaceAt; [exact Hm | now apply storable_JArr]. }
  destruct (parse_stringify _ Hall) as (text & Ht & Hp).
  exists merged, (writeFile path text fs).
  destruct (read_after_write file path text fs _ HF Hp) as [H1 H2].
  split; [|split; [|split; [exact H1 | exact H2]]].
  - unfold JSONService.update. rewrite HR. cbn [JSONService.asArray bind].
    rewrite HI. cbn [bind]. rewrite Hold. cbn [ownProps]. fold merged.
    unfold JSONService.save. now rewrite HF, Ht.
  - intros k. unfold merged. rewrite !lookup_spreadInto. cbn [lookup].
    apply storable_JObj in Ho as [Ho _]. apply storable_JObj in Hu as [Hu _].
    rewrite (lookup_rev k ups Hu), (lookup_rev k old Ho).
    destruct (lookup k ups); [reflexivity|]. now destruct (lookup k old).
Qed.

(** What [update] stores, the next [read] returns: the records as they
    were, but for the first one the predicate accepts, which is the merge
    that [update] returned. *)
Theorem updated_record_is_read_back
  (file path : string) (predicate : JSValue -> Result bool) (fs : Files)
  (items : list JSValue) (i : nat) (old ups : list (string * JSValue)) :
  DB_FILES file = Some path ->
  JSONService.read file fs = JArr items ->
  storable (JArr items) = true -> storable (JObj ups) = true ->
  JSONService.findIndex predicate items = Ok (Some i) ->
  nth i items JUndefined = JObj old ->
  exists merged fs',
    JSONService.update file predicate (JObj ups) fs = (Ok (JObj merged), fs') /\
    (forall k, lookup k merged =
               match lookup k ups with
               | Some v => Some v
               | None => lookup k old
               end) /\
    JSONService.read file fs'
      = JArr (map ordered (JSONService.replaceAt i (JObj merged) items)) /\
    forall other, other <> file ->
      JSONService.read other fs' = JSONService.read other fs.
Proof.
  intros HF HR Hs Hu HI Hold.
  destruct (findIndex_first predicate items i HI) as (Hlt & _ & _).
  assert (Ho : storable (JObj old) = true).
  { rewrite <- Hold. apply storable_JArr in Hs. rewrite Forall_forall in Hs.
    apply Hs, nth_In, Hlt. }
  set (merged := spreadInto (spreadInto [] old) ups).
  assert (Hm : storable (JObj merged) = true).
  { unfold merged.
    apply storable_spreadInto; [apply storable_spreadInto; [reflexivity|]|].
    - now apply storable_JObj in Ho.
    - now apply storable_JObj in Hu. }
  assert (Hall : storable (JArr (JSONService.replaceAt i (JObj merged) items)) = true).
  { apply storable_JArr, Forall_replaceAt; [exact Hm | now apply storable_JArr]. }
  destruct (parse_stringify _ Hall) as (text & Ht & Hp).
  exists merged, (writeFile path text fs).
  destruct (read_after_write file path text fs _ HF Hp) as [H1 H2].
  split; [|split; [|split; [exact H1 | exact H2]]].
  - unfold JSONService.update. rewrite HR. cbn [JSONService.asArray bind].
    rewrite HI. cbn [bind]. rewrite Hold. cbn [ownProps]. fold merged.
    unfold JSONService.save. now rewrite HF, Ht.
  - intros k. unfold merged. rewrite !lookup_spreadInto. cbn [lookup].
    apply storable_JObj in Ho as [Ho _]. apply storable_JObj in Hu as [Hu _].
    rewrite (lookup_rev k ups Hu), (lookup_rev k old Ho).
    destruct (lookup k ups); [reflexivity|]. now destruct (lookup k old).
Qed.

Lemma appended_record_is_read_back_witness :
  exists fs',
    JSONService.append "sessions"
      (JObj [("sessionId", JStr "c"); ("status", JStr "ACTIVE")]) twoSessions
      = (Ok (JObj [("sessionId", JStr "c"); ("status", JStr "ACTIVE")]), fs') /\
    JSONService.read "sessions" fs'
      = JArr (map ordered
                ([JObj [("sessionId", JStr "a"); ("status", JStr "ACTIVE")];
                  JObj [("sessionId", JStr "b"); ("status", JStr "ACTIVE")]]
                 ++ [JObj [("sessionId", JStr "c"); ("status", JStr "ACTIVE")]])) /\
    forall other, other <> "sessions" ->
      JSONService.read other fs' = JSONService.read other twoSessions.
Proof.
  apply (appended_record_is_read_back "sessions" "data/sessions.json"); reflexivity.
Defined.

Lemma updated_record_is_read_back_witness :
  exists merged fs',
    JSONService.update "sessions" (hasSessionId (JStr "b"))
      (JObj [("status", JStr "COMPLETED")]) twoSessions
      = (Ok (JObj merged), fs') /\
    lookup "status" merged = Some (JStr "COMPLETED") /\
    JSONService.read "sessions" fs'
      = JArr (map ordered
                (JSONService.replaceAt 1 (JObj merged)
                   [JObj [("sessionId", JStr "a"); ("status", JStr "ACTIVE")];
                    JObj [("sessionId", JStr "b"); ("status", JStr "ACTIVE")]])).
Proof.
  destruct (updated_record_is_read_back "sessions" "data/sessions.json"
              (hasSessionId (JStr "b")) twoSessions
              [JObj [("sessionId", JStr "a"); ("status", JStr "ACTIVE")];
               JObj [("sessionId", JStr "b"); ("status", JStr "ACTIVE")]]
              1%nat [("sessionId", JStr "b"); ("status", JStr "ACTIVE")]
              [("status", JStr "COMPLETED")]
              eq_refl eq_refl eq_refl eq_refl eq_refl eq_refl)
    as (merged & fs' & HU & HK & HR & _).
  exists merged, fs'. split; [exact HU|]. split; [exact (HK "status") | exact HR].
Defined.

(* ------------------------------------------------------------------ *)
(** ** A session from start to end *)

Lemma lookup_perm {A : Type} (k : string) (l l' : list (string * A)) :
  NoDup (map fst l) -> Permutation l l' -> lookup k l = lookup k l'.
Proof.
  intros Hnd HP.
  assert (Hnd' : NoDup (map fst l'))
    by (eapply Permutation_NoDup; [exact (Permutation_map fst HP) | exact Hnd]).
  destruct (lookup k l) as [v|] eqn:E.
  - symmetry. apply In_lookup; [exact Hnd'|].
    apply (Permutation_in _ HP). now apply lookup_In.
  - destruct (lookup k l') as [v|] eqn:E'; [|reflexivity].
    apply lookup_In, (Permutation_in _ (Permutation_sym HP)) in E'.
    apply (In_lookup _ _ _ Hnd) in E'. congruence.
Qed.

Lemma lookup_map_values {A B : Type} (g : A -> B) (k : string) (l : list (string * A)) :
  lookup k (map (fun p => (fst p, g (snd p))) l) = option_map g (lookup k l).
Proof.
  induction l as [|[k' v'] l IH]; [reflexivity|].
  cbn [map lookup fst snd]. destruct (String.eqb k k'); [reflexivity | exact IH].
Qed.

(** Putting the members in order changes no member. *)
Lemma getProp_ordered (v : JSValue) (k : string) :
  storable v = true -> getProp (ordered v) k = ordered (getProp v k).
Proof.
  destruct v as [| | b | m e | s | items | props]; try reflexivity.
  intros Hs. apply storable_JObj in Hs as [Hnd _].
  rewrite ordered_JObj. cbn [getProp].
  pose proof (spread_perm ordered props [] Hnd) as HP. cbn [app] in HP.
  rewrite (lookup_perm k _ _ 
             ltac:(eapply Permutation_NoDup;
                   [apply Permutation_sym, (Permutation_map fst HP)
                   |rewrite map_map; exact Hnd]) HP).
  rewrite lookup_map_values. now destruct (lookup k props).
Qed.

Lemma strictEquals_ordered (a b : JSValue) :
  strictEquals (ordered a) b = strictEquals a b.
Proof. destruct a; destruct b; reflexivity. Qed.

Lemma hasSessionId_ordered (id x : JSValue) :
  storable x = true -> hasSessionId id (ordered x) = hasSessionId id x.
Proof.
  intros Hs. destruct x as [| | b | m e | s | items | props]; try reflexivity.
  pose proof (getProp_ordered (JObj props) "sessionId" Hs) as H.
  rewrite ordered_JObj in H |- *. unfold hasSessionId.
  now rewrite H, strictEquals_ordered.
Qed.

Lemma matchesRequest_hasSessionId (reqBody x : JSValue) :
  isNullish reqBody = false ->
  matchesRequest reqBody x = hasSessionId (getProp reqBody "sessionId") x.
Proof. destruct reqBody; try discriminate; destruct x; reflexivity. Qed.

Lemma findIndex_app_hit
  (predicate : JSValue -> Result bool) (before after : list JSValue) (x : JSValue) :
  Forall (fun y => predicate y = Ok false) before -> predicate x = Ok true ->
  JSONService.findIndex predicate (before ++ x :: after) = Ok (Some (length before)).
Proof.
  intros HB Hx. induction HB as [|y before Hy _ IH]; cbn [app JSONService.findIndex length].
  - now rewrite Hx.
  - rewrite Hy. cbn [bind]. now rewrite IH.
Qed.

Lemma replaceAt_app (before after : list JSValue) (x y : JSValue) :
  JSONService.replaceAt (length before) y (before ++ x :: after)
  = (before ++ y :: after)%list.
Proof.
  induction before as [|z before IH]; cbn [length app JSONService.replaceAt];
    [reflexivity | now rewrite IH].
Qed.

Lemma misses_ordered (id : JSValue) (items : list JSValue) :
  Forall (fun x => storable x = true) items ->
  Forall (fun x => hasSessionId id x = Ok false) items ->
  Forall (fun x => hasSessionId id x = Ok false) (map ordered items).
Proof.
  intros Hs. induction Hs as [|x items Hx _ IH]; intros HM; [constructor|].
  inversion HM as [|? ? Hm HM']; subst. cbn [map]. constructor.
  - now rewrite hasSessionId_ordered.
  - now apply IH.
Qed.

(** A session that is started and then ended is on file as completed:
    [POST /api/session/start] answers with the session, [POST
    /api/session/end] for its id answers [{success: true}], and the record
    [findOne] then returns for that id has the id and the start time it
    was given, its category where that is a string ([GENERAL] when the
    request named none), [status] ["COMPLETED"] and the end time. *)
Theorem started_session_is_ended
  (uuid : string) (t1 t2 : Z) (reqBody : JSValue) (fs : Files)
  (items : list JSValue) :
  isNullish reqBody = false ->
  JSONService.read "sessions" fs = JArr items ->
  storable (JArr items) = true ->
  Forall (fun x => hasSessionId (JStr uuid) x = Ok false) items ->
  storable (js_or (getProp reqBody "category") (JStr "GENERAL")) = true ->
  storable (JNum t1 0) = true -> storable (JNum t2 0) = true ->
  exists session fs1 fs2 stored,
    sessionStartRoute uuid t1 reqBody fs = (json session, fs1) /\
    sessionEndRoute t2 (JObj [("sessionId", JStr uuid)]) fs1
      = (Some (json (JObj [("success", JBool true)])), fs2) /\
    JSONService.findOne "sessions" (hasSessionId (JStr uuid)) fs2 = Ok stored /\
    getProp stored "sessionId" = JStr uuid /\
    (forall c, js_or (getProp reqBody "category") (JStr "GENERAL") = JStr c ->
       getProp stored "category" = JStr c) /\
    getProp stored "status" = JStr "COMPLETED" /\
    getProp stored "startTime" = JNum t1 0 /\
    getProp stored "endTime" = JNum t2 0.
Proof.
  intros HB HR Hs Hfresh Hcat Ht1 Ht2.
  set (category := js_or (getProp reqBody "category") (JStr "GENERAL")) in *.
  set (session := JObj [("sessionId", JStr uuid); ("category", category);
                        ("status", JStr "ACTIVE"); ("startTime", JNum t1 0)]).
  set (ups := [("status", JStr "COMPLETED"); ("endTime", JNum t2 0)]).
  assert (Hsession : storable session = true).
  { apply storable_JObj. split.
    - apply distinct_NoDup. reflexivity.
    - repeat constructor; assumption. }
  assert (Hups : storable (JObj ups) = true).
  { apply storable_JObj. split.
    - apply distinct_NoDup. reflexivity.
    - repeat constructor; assumption. }
  assert (Hitems : Forall (fun x => storable x = true) items)
    by now apply storable_JArr.
  (* the start *)
  destruct (append_read_back "sessions" "data/sessions.json"
              session fs items eq_refl HR Hs Hsession) as (fs1 & HA & HR1 & _).
  rewrite map_app in HR1. cbn [map] in HR1.
  (* the end *)
  assert (Hs1 : storable (JArr (map ordered items ++ [ordered session])) = true).
  { apply storable_JArr, Forall_app. split.
    - apply Forall_forall. intros y Hy. apply in_map_iff in Hy as (x & <- & Hx).
      apply storable_ordered. rewrite Forall_forall in Hitems. now apply Hitems.
    - constructor; [now apply storable_ordered | constructor]. }
  assert (Hmiss : Forall (fun x => hasSessionId (JStr uuid) x = Ok false)
                    (map ordered items))
    by now apply misses_ordered.
  assert (Hhit : hasSessionId (JStr uuid) (ordered session) = Ok true).
  { rewrite (hasSessionId_ordered _ _ Hsession).
    change (hasSessionId (JStr uuid) session)
      with (Ok (A := bool) (String.eqb uuid uuid)).
    now rewrite String.eqb_refl. }
  assert (Hpred : forall x,
            matchesRequest (JObj [("sessionId", JStr uuid)]) x
            = hasSessionId (JStr uuid) x)
    by (intros x; now rewrite matchesRequest_hasSessionId).
  assert (HI : JSONService.findIndex
                 (matchesRequest (JObj [("sessionId", JStr uuid)]))
                 (map ordered items ++ [ordered session])
               = Ok (Some (length (map ordered items)))).
  { apply findIndex_app_hit; [|now rewrite Hpred].
    eapply Forall_impl; [|exact Hmiss]. intros x Hx. now rewrite Hpred. }
  pose proof (ordered_JObj [("sessionId", JStr uuid); ("category", category);
                            ("status", JStr "ACTIVE"); ("startTime", JNum t1 0)])
    as Hold. fold session in Hold.
  set (old := fold_left _ _ []) in Hold.
  destruct (update_read_back "sessions" "data/sessions.json"
              (matchesRequest (JObj [("sessionId", JStr uuid)])) fs1
              (map ordered items ++ [ordered session])
              (length (map ordered items)) old ups
              eq_refl HR1 Hs1 Hups HI
              ltac:(rewrite nth_middle; exact Hold))
    as (merged & fs2 & HU & HK & HR2 & _).
  rewrite replaceAt_app, map_app in HR2. cbn [map] in HR2.
  assert (Hm : storable (JObj merged) = true).
  { apply storable_JObj.
    assert (Hso : storable (JObj old) = true)
      by (rewrite <- Hold; now apply storable_ordered).
    assert (E : merged = spreadInto (spreadInto [] old) ups).
    { unfold JSONService.update in HU. rewrite HR1 in HU.
      cbn [JSONService.asArray bind] in HU. rewrite HI in HU. cbn [bind] in HU.
      rewrite nth_middle, Hold in HU. cbn [ownProps] in HU.
      destruct (JSONService.save _ _ fs1); congruence. }
    rewrite E. apply storable_JObj.
    apply storable_spreadInto; [apply storable_spreadInto; [reflexivity|]|].
    - now apply storable_JObj in Hso.
    - now apply storable_JObj in Hups. }
  assert (Hlook : forall k,
            getProp (JObj old) k = ordered (getProp session k)).
  { intros k. rewrite <- Hold. now apply getProp_ordered. }
  assert (Hid : getProp (JObj merged) "sessionId" = JStr uuid).
  { cbn [getProp]. rewrite HK. cbn [ups lookup String.eqb Ascii.eqb Bool.eqb].
    pose proof (Hlook "sessionId") as H.
    change (ordered (getProp session "sessionId")) with (JStr uuid) in H.
    cbn [getProp] in H.
    destruct (lookup "sessionId" old); [now subst|discriminate]. }
  exists session, fs1, fs2, (ordered (JObj merged)).
  split.
  { unfold sessionStartRoute. fold category. fold session.
    destruct reqBody; try discriminate HB; now rewrite HA. }
  split.
  { unfold sessionEndRoute. fold ups. now rewrite HU. }
  assert (Hfound : JSONService.findIndex (hasSessionId (JStr uuid))
                     (map ordered (map ordered items) ++ [ordered (JObj merged)])
                   = Ok (Some (length (map ordered (map ordered items))))).
  { apply findIndex_app_hit.
    - apply misses_ordered; [|exact Hmiss].
      apply Forall_forall. intros y Hy. apply in_map_iff in Hy as (x & <- & Hx).
      apply storable_ordered. rewrite Forall_forall in Hitems. now apply Hitems.
    - rewrite (hasSessionId_ordered _ _ Hm). unfold hasSessionId.
      rewrite Hid. cbn [strictEquals]. now rewrite String.eqb_refl. }
  split.
  { unfold JSONService.findOne. rewrite HR2. cbn [JSONService.asArray bind].
    rewrite Hfound. cbn [bind]. now rewrite nth_middle. }
  rewrite !(getProp_ordered _ _ Hm).
  assert (Hget : forall k,
            getProp (JObj merged) k =
            match lookup k ups with
            | Some v => v
            | None => ordered (getProp session k)
            end).
  { intros k. rewrite <- Hlook. cbn [getProp]. rewrite HK.
    now destruct (lookup k ups). }
  rewrite !Hget.
  change (ordered (getProp session "sessionId")) with (JStr uuid).
  change (ordered (getProp session "category")) with (ordered category).
  change (ordered (getProp session "startTime")) with (JNum t1 0).
  cbn [ups lookup String.eqb Ascii.eqb Bool.eqb ordered].
  repeat split; try reflexivity.
  intros c Hc. now rewrite Hc.
Qed.

Lemma started_session_is_ended_witness :
  exists session fs1 fs2 stored,
    sessionStartRoute "u-1" 1700000000000 (JObj [("category", JStr "labor")])
      twoSessions = (json session, fs1) /\
    sessionEndRoute 1700000360000 (JObj [("sessionId", JStr "u-1")]) fs1
      = (Some (json (JObj [("success", JBool true)])), fs2) /\
    JSONService.findOne "sessions" (hasSessionId (JStr "u-1")) fs2 = Ok stored /\
    getProp stored "category" = JStr "labor" /\
    getProp stored "status" = JStr "COMPLETED" /\
    getProp stored "endTime" = JNum 1700000360000 0.
Proof.
  destruct (started_session_is_ended "u-1" 1700000000000 1700000360000
              (JObj [("category", JStr "labor")]) twoSessions
              [JObj [("sessionId", JStr "a"); ("status", JStr "ACTIVE")];
               JObj [("sessionId", JStr "b"); ("status", JStr "ACTIVE")]]
              eq_refl eq_refl eq_refl
              ltac:(repeat constructor) eq_refl eq_refl eq_refl)
    as (session & fs1 & fs2 & stored & H1 & H2 & H3 & _ & Hc & Hst & _ & He).
  exists session, fs1, fs2, stored.
  split; [exact H1|]. split; [exact H2|]. split; [exact H3|].
  split; [exact (Hc "labor" eq_refl)|]. split; [exact Hst | exact He].
Defined.

(* ================================================================== *)
(** * The repair script (fix-summaries.js) *)

Lemma ToBoolean_ordered (v : JSValue) : ToBoolean (ordered v) = ToBoolean v.
Proof. destruct v; reflexivity. Qed.

Lemma typeofObject_ordered (v : JSValue) : typeofObject (ordered v) = typeofObject v.
Proof. destruct v; reflexivity. Qed.

Lemma storable_getProp (v : JSValue) (k : string) :
  storable v = true ->
  getProp v k = JUndefined \/ storable (getProp v k) = true.
Proof.
  destruct v as [| | b | m e | s | items | props]; try (left; reflexivity).
  intros H. apply storable_JObj in H as [_ H]. cbn [getProp].
  destruct (lookup k props) as [x|] eqn:E; [|now left].
  right. apply lookup_In in E. rewrite Forall_forall in H. exact (H _ E).
Qed.

Lemma storable_js_or (v : JSValue) (k : string) (d : JSValue) :
  storable v = true -> storable d = true ->
  storable (js_or (getProp v k) d) = true.
Proof.
  intros Hv Hd. unfold js_or.
  destruct (storable_getProp v k Hv) as [-> | H]; [exact Hd|].
  now destruct (ToBoolean (getProp v k)).
Qed.

Lemma storable_setProp (v : JSValue) (k : string) (x : JSValue) :
  storable v = true -> storable x = true -> storable (setProp v k x) = true.
Proof.
  destruct v as [| | b | m e | s | items | props]; try (intros H _; exact H).
  cbn [setProp]. rewrite !storable_JObj. intros [Hnd Hall] Hx.
  destruct (lookup k props) eqn:E.
  - split.
    + rewrite keys_assign; [exact Hnd | congruence].
    + apply Forall_assign; [intros k'; exact Hx | exact Hall].
  - rewrite (assign_fresh k x props E). split.
    + eapply Permutation_NoDup;
        [exact (Permutation_map fst (Permutation_cons_append props (k, x)))|].
      cbn [map fst]. constructor; [now apply lookup_None_keys | exact Hnd].
    + apply Forall_app. split; [exact Hall|]. constructor; [exact Hx | constructor].
Qed.

Lemma storable_fixed_nextAction (v : JSValue) :
  storable v = true -> storable (fixSummaries_nextAction v) = true.
Proof.
  intros Hv. unfold fixSummaries_nextAction. cbv zeta.
  destruct (ToBoolean (js_or (getProp v "timeline") (JStr ""))); [reflexivity|].
  now apply storable_js_or.
Qed.

Lemma fixSummary_eq (x : JSValue) :
  isNullish x = false ->
  fixSummary x =
  let nextAction := getProp x "nextAction" in
  let fixAction := ToBoolean nextAction && typeofObject nextAction in
  let s1 := if fixAction
            then setProp x "nextAction" (fixSummaries_nextAction nextAction)
            else x in
  let addWatch := negb (ToBoolean (getProp s1 "watchOutFor")) in
  let s2 := if addWatch then setProp s1 "watchOutFor" addedWatchOutFor else s1 in
  Ok (s2, fixAction || addWatch).
Proof. destruct x; try discriminate; reflexivity. Qed.

Lemma fixSummary_storable (x y : JSValue) (u : bool) :
  storable x = true -> fixSummary x = Ok (y, u) -> storable y = true.
Proof.
  intros Hx H.
  assert (Hna : storable (fixSummaries_nextAction (getProp x "nextAction")) = true
                \/ ToBoolean (getProp x "nextAction") = false).
  { destruct (storable_getProp x "nextAction" Hx) as [-> | Hn]; [now right|].
    left. now apply storable_fixed_nextAction. }
  assert (Hs1 : storable
                  (if ToBoolean (getProp x "nextAction")
                      && typeofObject (getProp x "nextAction")
                   then setProp x "nextAction"
                          (fixSummaries_nextAction (getProp x "nextAction"))
                   else x) = true).
  { destruct Hna as [Hna | Hna].
    - destruct (_ && _); [now apply storable_setProp | exact Hx].
    - now rewrite Hna. }
  destruct (isNullish x) eqn:N; [destruct x; discriminate|].
  rewrite (fixSummary_eq x N) in H. cbv zeta in H. injection H as <- _.
  destruct (negb _); [apply storable_setProp; [exact Hs1 | reflexivity] | exact Hs1].
Qed.

Lemma getProp_setProp_same (props : list (string * JSValue)) (k : string) (x : JSValue) :
  getProp (setProp (JObj props) k x) k = x.
Proof. cbn [setProp getProp]. now rewrite lookup_assign_same. Qed.

Lemma getProp_setProp_other (props : list (string * JSValue)) (k k' : string)
  (x : JSValue) :
  k <> k' -> getProp (setProp (JObj props) k x) k' = getProp (JObj props) k'.
Proof. intros H. cbn [setProp getProp]. now rewrite lookup_assign_other. Qed.

(** What a turn of the loop leaves needs no further turn, provided the
    repaired [nextAction] is not an object again. *)
Lemma fixSummary_settled (props : list (string * JSValue)) (y : JSValue) (u : bool) :
  storable (JObj props) = true ->
  typeofObject (fixSummaries_nextAction (getProp (JObj props) "nextAction")) = false ->
  fixSummary (JObj props) = Ok (y, u) ->
  fixSummary (ordered y) = Ok (ordered y, false).
Proof.
  intros Hs Hplain H.
  pose proof (fixSummary_storable _ _ _ Hs H) as Hy.
  rewrite (fixSummary_eq (JObj props) eq_refl) in H. cbv zeta in H.
  set (x := JObj props) in *.
  set (na := getProp x "nextAction") in *.
  assert (E1 : exists p1,
            (if ToBoolean na && typeofObject na
             then setProp x "nextAction" (fixSummaries_nextAction na) else x) = JObj p1 /\
            ToBoolean (getProp (JObj p1) "nextAction")
            && typeofObject (getProp (JObj p1) "nextAction") = false).
  { destruct (ToBoolean na && typeofObject na) eqn:C.
    - exists (assign "nextAction" (fixSummaries_nextAction na) props).
      split; [reflexivity|].
      cbn [getProp]. rewrite lookup_assign_same. fold na.
      rewrite Hplain. apply andb_false_r.
    - exists props. split; [reflexivity | exact C]. }
  destruct E1 as (p1 & E1 & C1). rewrite E1 in H.
  assert (E2 : exists p2, y = JObj p2 /\
            ToBoolean (getProp (JObj p2) "nextAction")
            && typeofObject (getProp (JObj p2) "nextAction") = false /\
            ToBoolean (getProp (JObj p2) "watchOutFor") = true).
  { injection H as <- _.
    destruct (negb _) eqn:W.
    - exists (assign "watchOutFor" addedWatchOutFor p1).
      split; [reflexivity|].
      cbn [getProp] in C1 |- *.
      rewrite lookup_assign_other by discriminate.
      rewrite lookup_assign_same. split; [exact C1 | reflexivity].
    - exists p1. split; [reflexivity|]. split; [exact C1|].
      apply negb_false_iff in W. exact W. }
  destruct E2 as (p2 & -> & C2 & W2).
  pose proof (getProp_ordered (JObj p2) "nextAction" Hy) as G1.
  pose proof (getProp_ordered (JObj p2) "watchOutFor" Hy) as G2.
  rewrite ordered_JObj in G1, G2 |- *.
  rewrite fixSummary_eq by reflexivity. cbv zeta.
  rewrite G1, ToBoolean_ordered, typeofObject_ordered, C2.
  rewrite G2, ToBoolean_ordered, W2. reflexivity.
Qed.

Lemma fixEach_settled (summaries fixedSummaries : list JSValue) (fixed : Z) :
  Forall (fun x => storable x = true) summaries ->
  Forall (fun x => exists props, x = JObj props) summaries ->
  Forall (fun x => typeofObject
                     (fixSummaries_nextAction (getProp x "nextAction")) = false)
    summaries ->
  fixEach summaries = Ok (fixedSummaries, fixed) ->
  Forall (fun x => storable x = true) fixedSummaries /\
  fixEach (map ordered fixedSummaries) = Ok (map ordered fixedSummaries, 0).
Proof.
  intros Hs. revert fixedSummaries fixed.
  induction Hs as [|x summaries Hx _ IH]; intros fixedSummaries fixed Ho Hp H.
  - injection H as <- _. split; [constructor | reflexivity].
  - inversion Ho as [|? ? [props ->] Ho']; subst.
    inversion Hp as [|? ? Hp1 Hp']; subst.
    cbn [fixEach] in H.
    destruct (fixSummary (JObj props)) as [[y u]|e] eqn:F; [|discriminate].
    cbn [bind] in H.
    destruct (fixEach summaries) as [[more n]|e] eqn:M; [|discriminate].
    cbn [bind fst snd] in H. injection H as <- _.
    destruct (IH more n Ho' Hp' eq_refl) as [IH1 IH2].
    split.
    + constructor; [exact (fixSummary_storable _ _ _ Hx F) | exact IH1].
    + cbn [map fixEach].
      rewrite (fixSummary_settled props y u Hx Hp1 F). cbn [bind].
      rewrite IH2. reflexivity.
Qed.

(** Run a second time the script changes nothing, on a file of storable
    object summaries none of whose repaired [nextAction] is an object again.
    Without that proviso it does: a [step] that is an object becomes the
    [nextAction] in the first run and the empty string in the second. *)
Theorem repair_is_stable (fs : Files) (data : string) (summaries : list JSValue) :
  readFile SUMMARIES_FILE fs = Some data ->
  JSON_parse data = Some (JArr summaries) ->
  storable (JArr summaries) = true ->
  Forall (fun x => exists props, x = JObj props) summaries ->
  Forall (fun x => typeofObject
                     (fixSummaries_nextAction (getProp x "nextAction")) = false)
    summaries ->
  fixSummaries (fixSummaries fs) = fixSummaries fs /\
  fixSummaries (fixSummaries oddSummaries) <> fixSummaries oddSummaries.
Proof.
  intros HR HP Hs Ho Hp. split.
  - apply storable_JArr in Hs.
    destruct (fixEach summaries) as [[fixedSummaries fixed]|e] eqn:F.
    + destruct (fixEach_settled _ _ _ Hs Ho Hp F) as [Hf Hsettled].
      destruct (0 <? fixed) eqn:C.
      * apply storable_JArr in Hf.
        destruct (parse_stringify _ Hf) as (text & Ht & Hparse).
        assert (E : fixSummaries fs = writeFile SUMMARIES_FILE text fs).
        { unfold fixSummaries. cbv zeta. now rewrite HR, HP, F, C, Ht. }
        rewrite E. unfold fixSummaries. cbv zeta.
        unfold readFile, writeFile. rewrite lookup_assign_same, Hparse.
        cbn [ordered]. now rewrite Hsettled.
      * assert (E : fixSummaries fs = fs).
        { unfold fixSummaries. cbv zeta. now rewrite HR, HP, F, C. }
        now rewrite !E.
    + assert (E : fixSummaries fs = fs).
      { unfold fixSummaries. cbv zeta. now rewrite HR, HP, F. }
      now rewrite !E.
  - intros H.
    assert (E : match readFile SUMMARIES_FILE (fixSummaries (fixSummaries oddSummaries)),
                      readFile SUMMARIES_FILE (fixSummaries oddSummaries) with
                | Some a, Some b => String.eqb a b
                | _, _ => true
                end = false) by (vm_compute; reflexivity).
    rewrite H in E.
    destruct (readFile SUMMARIES_FILE (fixSummaries oddSummaries));
      [rewrite String.eqb_refl in E|]; discriminate.
Qed.

Lemma repair_is_stable_witness :
  fixSummaries (fixSummaries oldSummaries) = fixSummaries oldSummaries /\
  fixSummaries (fixSummaries oddSummaries) <> fixSummaries oddSummaries.
Proof.
  apply (repair_is_stable oldSummaries
           (jsonText "[{'sessionId':'a','nextAction':{'step':'Call PAO','timeline':'today'}}]")
           [JObj [("sessionId", JStr "a");
                  ("nextAction", JObj [("step", JStr "Call PAO");
                                       ("timeline", JStr "today")])]]).
  - reflexivity.
  - reflexivity.
  - reflexivity.
  - repeat constructor. eexists. reflexivity.
  - repeat constructor.
Defined.

Lemma fixEach_null (summaries : list JSValue) :
  In JNull summaries -> exists e, fixEach summaries = Throw e.
Proof.
  induction summaries as [|x summaries IH]; [contradiction|].
  intros [-> | HIn]; cbn [fixEach].
  - eexists. reflexivity.
  - destruct (fixSummary x) as [r|e]; cbn [bind]; [|eauto].
    destruct (IH HIn) as [e ->]. cbn [bind]. eauto.
Qed.

(** The script writes the summaries file and no other; and it writes
    nothing at all when the file is missing, when it does not hold JSON, and
    when one of the summaries is [null], whatever it repaired before it got
    there. *)
Theorem repair_leaves_the_rest (fs : Files) :
  (forall path, path <> SUMMARIES_FILE ->
     readFile path (fixSummaries fs) = readFile path fs) /\
  (readFile SUMMARIES_FILE fs = None -> fixSummaries fs = fs) /\
  (forall data, readFile SUMMARIES_FILE fs = Some data ->
     JSON_parse data = None -> fixSummaries fs = fs) /\
  (forall data summaries, readFile SUMMARIES_FILE fs = Some data ->
     JSON_parse data = Some (JArr summaries) -> In JNull summaries ->
     fixSummaries fs = fs).
Proof.
  split; [|split; [|split]].
  - intros path Hne.
    assert (Hw : forall v,
              readFile path
                match JSON_stringify2 v with
                | Some text => writeFile SUMMARIES_FILE text fs
                | None => fs
                end = readFile path fs).
    { intros v. destruct (JSON_stringify2 v); [|reflexivity].
      unfold readFile, writeFile. apply lookup_assign_other. congruence. }
    unfold fixSummaries. cbv zeta.
    destruct (readFile SUMMARIES_FILE fs); [|reflexivity].
    destruct (JSON_parse s) as [[| | b | m e | t | items | props]|]; try reflexivity.
    + destruct (isEmpty t); [reflexivity | apply Hw].
    + destruct (fixEach items) as [[fixedSummaries fixed]|e]; [|reflexivity].
      destruct (0 <? fixed); [apply Hw | reflexivity].
  - intros H. unfold fixSummaries. cbv zeta. now rewrite H.
  - intros data H HP. unfold fixSummaries. cbv zeta. now rewrite H, HP.
  - intros data summaries H HP HIn. unfold fixSummaries. cbv zeta.
    rewrite H, HP. destruct (fixEach_null summaries HIn) as [e ->]. reflexivity.
Qed.
